(** * FPH pricing pipeline: market-data analyzer, three-tier pricing engine,
      route-distance resolver and batch runner.

    Shallow embedding of
      - src/lib/csv-parser     (parseCsvLines, normalizeHeader, mapHeaders,
                                parseMarketDataCsv, parseCostMasterCsv),
      - src/lib/analysis       (quantile, applyIQRFilter, computeConfidence,
                                analyzeMarketData, summarizeAnalysis),
      - src/lib/pricing-engine (fetchCostVariables, calculateTier1/2/3,
                                getFreightRiskRate, ceilTo1000,
                                findMarketMedian, calculateFPHPrice),
      - src/lib/route-distance (lookupDistance, haversineKm, getRouteDistance),
      - the simulator server action (runBatchSimulation).

    Numbers.  A JavaScript [number] is modelled as an exact rational [Q]:
    [+ - * /] are the field operations, comparisons are [Qle_bool] and
    friends, and equality of numbers is [==] ([Qeq]).  The exact model
    carries no NaN and no infinity: where the source computes one (a
    division by 0, an operand that is no number) the function of the model
    returns no value, and says so.  It does not round: a theorem whose
    truth in binary64 needs more than the exact value to the last digit
    states, as a hypothesis, the inputs for which the two agree (whole
    amounts, magnitudes that cannot overflow), and the statistics whose
    rounding or overflow is itself the matter are embedded a second time
    over binary64, in [Binary64].
    The transcendental functions of [Math] ([sqrt], [sin], [cos], [atan2],
    [PI]) have no rational counterpart; they are a parameter ([JSMath]) of
    every function that calls them, and each theorem states the properties
    of them it relies on.

    Strings.  A JavaScript string is a [string] of bytes, the UTF-8 form of
    its text.  [toLowerCase] and [trim] are the source's on ASCII text; on
    other text the source's also lower-case letters outside ASCII (two of
    them, U+0130 and U+212A, into ASCII letters) and trim the white space
    outside ASCII (U+00A0, U+3000, U+FEFF and others).  A theorem that
    would fail for such text states the ASCII hypothesis. *)

From Stdlib Require Import List String Ascii Bool Arith ZArith NArith.
From Stdlib Require Import QArith Qround Lia Lqa Permutation Sorted.
From Stdlib Require Import Morphisms Setoid DecimalString.
From Stdlib Require Floats.PrimFloat.
Import ListNotations.

Open Scope string_scope.
Open Scope list_scope.
Open Scope Q_scope.

(* ================================================================== *)
(** ** JavaScript primitives *)
(* ================================================================== *)

(** The part of [Math] that cannot be computed over the rationals. *)
Record JSMath : Type := {
  Math_sqrt : Q -> Q;
  Math_sin : Q -> Q;
  Math_cos : Q -> Q;
  Math_atan2 : Q -> Q -> Q;
  Math_PI : Q
}.

Definition Math_floor (x : Q) : Q := inject_Z (Qfloor x).
Definition Math_ceil (x : Q) : Q := inject_Z (Qceiling x).

(** [Math.round]: nearest integer, ties towards plus infinity. *)
Definition Math_round (x : Q) : Q := inject_Z (Qfloor (x + 0.5)).

Definition Math_min (a b : Q) : Q := if Qle_bool a b then a else b.
Definition Math_max (a b : Q) : Q := if Qle_bool a b then b else a.

Definition Qlt_bool (a b : Q) : bool := negb (Qle_bool b a).

(** [xs.reduce((a, b) => a + b, 0)] *)
Definition sum (xs : list Q) : Q := fold_left Qplus xs 0.

(** Array length as a number. *)
Definition len {A} (xs : list A) : Q := inject_Z (Z.of_nat (List.length xs)).

(** *** Strings *)

Definition isSpace (c : ascii) : bool :=
  let n := nat_of_ascii c in
  (n =? 32)%nat || ((9 <=? n)%nat && (n <=? 13)%nat).

Fixpoint trimStart (s : string) : string :=
  match s with
  | EmptyString => EmptyString
  | String c s' => if isSpace c then trimStart s' else s
  end.

Fixpoint trimEnd (s : string) : string :=
  match s with
  | EmptyString => EmptyString
  | String c s' =>
      match trimEnd s' with
      | EmptyString => if isSpace c then EmptyString else String c EmptyString
      | t => String c t
      end
  end.

Definition trim (s : string) : string := trimEnd (trimStart s).

(** [s.split("/")[0]]: the characters before the first slash. *)
Fixpoint split0 (s : string) : string :=
  match s with
  | EmptyString => EmptyString
  | String c s' => if Ascii.eqb c "/" then EmptyString else String c (split0 s')
  end.

Definition lowerChar (c : ascii) : ascii :=
  let n := nat_of_ascii c in
  if ((65 <=? n)%nat && (n <=? 90)%nat)%bool then ascii_of_nat (n + 32) else c.

Fixpoint toLowerCase (s : string) : string :=
  match s with
  | EmptyString => EmptyString
  | String c s' => String (lowerChar c) (toLowerCase s')
  end.

(** [s.includes(k)]: [k] occurs in [s] as a contiguous substring. *)
Fixpoint includes (s k : string) : bool :=
  String.prefix k s ||
  match s with
  | EmptyString => false
  | String _ s' => includes s' k
  end.

(** [ks.some((k) => s.includes(k))] *)
Definition someIncluded (ks : list string) (s : string) : bool :=
  existsb (fun k => includes s k) ks.

(* ================================================================== *)
(** ** Data model *)
(* ================================================================== *)

Module PriceDataPoint.
Record t : Type := mk {
  origin : string;
  destination : string;
  vehicleType : string;
  unitPrice : Q
}.
End PriceDataPoint.

Inductive FallbackLevel : Type := province.

Module RouteMedianResult.
Record t : Type := mk {
  origin : string;
  destination : string;
  vehicleType : string;
  median : Q;
  sampleSize : Q;
  filteredSize : Q;
  q1 : Q;
  q3 : Q;
  iqr : Q;
  lowerBound : Q;
  upperBound : Q;
  confidenceScore : Q;
  isFallback : bool;
  fallbackLevel : option FallbackLevel
}.
End RouteMedianResult.

(** The value stored in [routeGroups] and [provinceGroups]. *)
Module Group.
Record t : Type := mk {
  origin : string;
  destination : string;
  vehicleType : string;
  prices : list Q
}.
End Group.

Definition RouteKey := string.

(** A JavaScript [Map<RouteKey, group>]: entries in insertion order, at most
    one per key. *)
Definition GroupMap := list (RouteKey * Group.t).

Module IQRResult.
Record t : Type := mk {
  filtered : list Q;
  q1 : Q;
  q3 : Q;
  iqr : Q;
  lowerBound : Q;
  upperBound : Q
}.
End IQRResult.

Definition MIN_SAMPLE_SIZE : Q := 5.

(* ================================================================== *)
(** ** Statistical analysis *)
(* ================================================================== *)

(** *** Core statistics *)

Fixpoint insertAsc (x : Q) (xs : list Q) : list Q :=
  match xs with
  | [] => [x]
  | y :: ys => if Qle_bool x y then x :: xs else y :: insertAsc x ys
  end.

(** [[...values].sort((a, b) => a - b)] *)
Definition sortedNumeric (values : list Q) : list Q :=
  fold_right insertAsc [] values.

(** [sorted[i]] for an integral index [i]. *)
Definition at_ (sorted : list Q) (i : Z) : Q := nth (Z.to_nat i) sorted 0.

Definition quantile (sorted : list Q) (q : Q) : Q :=
  match sorted with
  | [] => 0
  | [x] => x
  | _ =>
      let pos := q * (len sorted - 1) in
      let lower := Qfloor pos in
      let upper := Qceiling pos in
      let fraction := pos - inject_Z lower in
      if (lower =? upper)%Z then at_ sorted lower
      else at_ sorted lower * (1 - fraction) + at_ sorted upper * fraction
  end.

Definition median (sorted : list Q) : Q := quantile sorted 0.5.

(** *** IQR outlier removal *)

Definition applyIQRFilterWith (values : list Q) (multiplier : Q) : IQRResult.t :=
  let sorted := sortedNumeric values in
  let q1 := quantile sorted 0.25 in
  let q3 := quantile sorted 0.75 in
  let iqr := q3 - q1 in
  let lowerBound := q1 - multiplier * iqr in
  let upperBound := q3 + multiplier * iqr in
  let filtered :=
    filter (fun v => Qle_bool lowerBound v && Qle_bool v upperBound) sorted in
  IQRResult.mk filtered q1 q3 iqr lowerBound upperBound.

(** The default argument [multiplier = 1.5]. *)
Definition applyIQRFilter (values : list Q) : IQRResult.t :=
  applyIQRFilterWith values 1.5.

(** *** Province extraction *)

Definition extractProvince (location : string) : string :=
  trim (split0 location).

(** *** Route key helpers *)

Definition routeKey (origin destination vehicleType : string) : RouteKey :=
  (origin ++ "||" ++ destination ++ "||" ++ vehicleType)%string.

Definition provinceRouteKey (origin destination vehicleType : string) : RouteKey :=
  (extractProvince origin ++ "||" ++ extractProvince destination ++ "||"
   ++ vehicleType)%string.

(** *** Map and Set operations *)

Fixpoint mapGet (key : RouteKey) (m : GroupMap) : option Group.t :=
  match m with
  | [] => None
  | (k, g) :: m' => if String.eqb k key then Some g else mapGet key m'
  end.

(** [group.prices.push(price)] on the group stored under [key], when there
    is one; the entry keeps its place. *)
Fixpoint pushPrice (key : RouteKey) (price : Q) (m : GroupMap) : GroupMap :=
  match m with
  | [] => []
  | (k, g) :: m' =>
      if String.eqb k key
      then (k, Group.mk (Group.origin g) (Group.destination g)
                        (Group.vehicleType g) (Group.prices g ++ [price])) :: m'
      else (k, g) :: pushPrice key price m'
  end.

(** The body of the two grouping loops:
      [let group = m.get(key);
       if (!group) { group = fresh; m.set(key, group); }
       group.prices.push(price);]
    where [fresh] has an empty price list. *)
Definition addToGroup (key : RouteKey) (fresh : Group.t) (price : Q)
    (m : GroupMap) : GroupMap :=
  match mapGet key m with
  | Some _ => pushPrice key price m
  | None => pushPrice key price (m ++ [(key, fresh)])
  end.

Definition setHas (key : RouteKey) (s : list RouteKey) : bool :=
  existsb (String.eqb key) s.

Definition setAdd (key : RouteKey) (s : list RouteKey) : list RouteKey :=
  if setHas key s then s else s ++ [key].

Section Analysis.

Variable Math : JSMath.

(** *** Confidence scoring *)

Definition computeConfidence (sampleSize : Q) (filteredValues : list Q)
    (isFallback : bool) : Q :=
  let sizeFactor := Math_min (sampleSize / 30) 1.0 in
  let consistencyFactor :=
    if Qle_bool 2 (len filteredValues) then
      let mean := sum filteredValues / len filteredValues in
      if Qlt_bool 0 mean then
        let variance :=
          fold_left (fun sum v => sum + (v - mean) ^ 2) filteredValues 0
          / len filteredValues in
        let cv := Math_sqrt Math variance / mean in
        Math_max 0 (1.0 - cv)
      else 1.0
    else 1.0 in
  let rawScore := sizeFactor * 0.6 + consistencyFactor * 0.4 in
  let fallbackPenalty := if isFallback then 0.7 else 1.0 in
  Math_round (rawScore * fallbackPenalty * 100) / 100.

(** *** Main analysis function *)

(** Step 1: group by exact route. *)
Definition routeGroupsOf (data : list PriceDataPoint.t) : GroupMap :=
  fold_left
    (fun routeGroups d =>
       let key := routeKey (PriceDataPoint.origin d) (PriceDataPoint.destination d)
                    (PriceDataPoint.vehicleType d) in
       addToGroup key
         (Group.mk (PriceDataPoint.origin d) (PriceDataPoint.destination d)
            (PriceDataPoint.vehicleType d) [])
         (PriceDataPoint.unitPrice d) routeGroups)
    data [].

(** Step 2: province-level fallback pool. *)
Definition provinceGroupsOf (data : list PriceDataPoint.t) : GroupMap :=
  fold_left
    (fun provinceGroups d =>
       let provOrigin := extractProvince (PriceDataPoint.origin d) in
       let provDest := extractProvince (PriceDataPoint.destination d) in
       let key := provinceRouteKey (PriceDataPoint.origin d)
                    (PriceDataPoint.destination d) (PriceDataPoint.vehicleType d) in
       addToGroup key
         (Group.mk provOrigin provDest (PriceDataPoint.vehicleType d) [])
         (PriceDataPoint.unitPrice d) provinceGroups)
    data [].

(** The result pushed for a group with enough data of its own. *)
Definition exactResult (group : Group.t) : RouteMedianResult.t :=
  let iqr := applyIQRFilter (Group.prices group) in
  let med := median (sortedNumeric (IQRResult.filtered iqr)) in
  {| RouteMedianResult.origin := Group.origin group;
     RouteMedianResult.destination := Group.destination group;
     RouteMedianResult.vehicleType := Group.vehicleType group;
     RouteMedianResult.median := Math_round med;
     RouteMedianResult.sampleSize := len (Group.prices group);
     RouteMedianResult.filteredSize := len (IQRResult.filtered iqr);
     RouteMedianResult.q1 := Math_round (IQRResult.q1 iqr);
     RouteMedianResult.q3 := Math_round (IQRResult.q3 iqr);
     RouteMedianResult.iqr := Math_round (IQRResult.iqr iqr);
     RouteMedianResult.lowerBound := Math_round (IQRResult.lowerBound iqr);
     RouteMedianResult.upperBound := Math_round (IQRResult.upperBound iqr);
     RouteMedianResult.confidenceScore :=
       computeConfidence (len (Group.prices group)) (IQRResult.filtered iqr) false;
     RouteMedianResult.isFallback := false;
     RouteMedianResult.fallbackLevel := None |}.

(** The result pushed when the province pool is too small as well:
    [prices] is [provGroup?.prices ?? group.prices]. *)
Definition rawFallbackResult (group : Group.t) (prices : list Q)
    : RouteMedianResult.t :=
  let sorted := sortedNumeric prices in
  let med := median sorted in
  {| RouteMedianResult.origin := Group.origin group;
     RouteMedianResult.destination := Group.destination group;
     RouteMedianResult.vehicleType := Group.vehicleType group;
     RouteMedianResult.median := Math_round med;
     RouteMedianResult.sampleSize := len prices;
     RouteMedianResult.filteredSize := len prices;
     RouteMedianResult.q1 := Math_round (quantile sorted 0.25);
     RouteMedianResult.q3 := Math_round (quantile sorted 0.75);
     RouteMedianResult.iqr := 0;
     RouteMedianResult.lowerBound := 0;
     RouteMedianResult.upperBound := 0;
     RouteMedianResult.confidenceScore := computeConfidence (len prices) prices true;
     RouteMedianResult.isFallback := true;
     RouteMedianResult.fallbackLevel := Some province |}.

(** The result pushed from a province pool with enough data. *)
Definition provinceResult (provGroup : Group.t) : RouteMedianResult.t :=
  let iqr := applyIQRFilter (Group.prices provGroup) in
  let med := median (sortedNumeric (IQRResult.filtered iqr)) in
  {| RouteMedianResult.origin := Group.origin provGroup;
     RouteMedianResult.destination := Group.destination provGroup;
     RouteMedianResult.vehicleType := Group.vehicleType provGroup;
     RouteMedianResult.median := Math_round med;
     RouteMedianResult.sampleSize := len (Group.prices provGroup);
     RouteMedianResult.filteredSize := len (IQRResult.filtered iqr);
     RouteMedianResult.q1 := Math_round (IQRResult.q1 iqr);
     RouteMedianResult.q3 := Math_round (IQRResult.q3 iqr);
     RouteMedianResult.iqr := Math_round (IQRResult.iqr iqr);
     RouteMedianResult.lowerBound := Math_round (IQRResult.lowerBound iqr);
     RouteMedianResult.upperBound := Math_round (IQRResult.upperBound iqr);
     RouteMedianResult.confidenceScore :=
       computeConfidence (len (Group.prices provGroup)) (IQRResult.filtered iqr) true;
     RouteMedianResult.isFallback := true;
     RouteMedianResult.fallbackLevel := Some province |}.

Definition groupProvinceKey (group : Group.t) : RouteKey :=
  provinceRouteKey (Group.origin group) (Group.destination group)
    (Group.vehicleType group).

(** The fallback branch of the loop body, once the province key is known to
    be unprocessed. *)
Definition fallbackResult (provinceGroups : GroupMap) (group : Group.t)
    : RouteMedianResult.t :=
  match mapGet (groupProvinceKey group) provinceGroups with
  | None => rawFallbackResult group (Group.prices group)
  | Some provGroup =>
      if Qlt_bool (len (Group.prices provGroup)) MIN_SAMPLE_SIZE
      then rawFallbackResult group (Group.prices provGroup)
      else provinceResult provGroup
  end.

(** Step 3: the loop [for (const [, group] of routeGroups)], threading
    [processedProvinceKeys]; the list returned is [results] in push order. *)
Fixpoint computeResults (provinceGroups : GroupMap)
    (processedProvinceKeys : list RouteKey) (routeGroups : GroupMap)
    : list RouteMedianResult.t :=
  match routeGroups with
  | [] => []
  | (_, group) :: rest =>
      if Qle_bool MIN_SAMPLE_SIZE (len (Group.prices group)) then
        exactResult group
          :: computeResults provinceGroups processedProvinceKeys rest
      else
        let provKey := groupProvinceKey group in
        if setHas provKey processedProvinceKeys then
          computeResults provinceGroups processedProvinceKeys rest
        else
          fallbackResult provinceGroups group
            :: computeResults provinceGroups
                 (setAdd provKey processedProvinceKeys) rest
  end.

Fixpoint insertByConfidence (r : RouteMedianResult.t)
    (rs : list RouteMedianResult.t) : list RouteMedianResult.t :=
  match rs with
  | [] => [r]
  | r' :: rs' =>
      if Qle_bool (RouteMedianResult.confidenceScore r')
                  (RouteMedianResult.confidenceScore r)
      then r :: rs
      else r' :: insertByConfidence r rs'
  end.

(** [results.sort((a, b) => b.confidenceScore - a.confidenceScore)]: a stable
    sort, descending by confidence. *)
Definition sortByConfidence (results : list RouteMedianResult.t)
    : list RouteMedianResult.t :=
  fold_right insertByConfidence [] results.

Definition analyzeMarketData (data : list PriceDataPoint.t)
    : list RouteMedianResult.t :=
  sortByConfidence
    (computeResults (provinceGroupsOf data) [] (routeGroupsOf data)).

End Analysis.

(* ================================================================== *)
(** ** Route distance *)
(* ================================================================== *)

Inductive DistanceSource : Type := lookup | haversine.

Module RouteDistanceResult.
Record t : Type := mk {
  distanceKm : Q;
  source : DistanceSource
}.
End RouteDistanceResult.

(** Province centroid coordinates (lat, lng). *)
Definition PROVINCE_COORDS : list (string * (Q * Q)) :=
  [ ("Seoul", (37.5665, 126.978));
    ("Incheon", (37.4563, 126.7052));
    ("Gyeonggi", (37.4138, 127.5183));
    ("Gangwon", (37.8228, 128.1555));
    ("Chungbuk", (36.6357, 127.4917));
    ("Chungnam", (36.5184, 126.8));
    ("Daejeon", (36.3504, 127.3845));
    ("Sejong", (36.48, 127.0));
    ("Jeonbuk", (35.8203, 127.1089));
    ("Jeonnam", (34.8161, 126.4629));
    ("Gwangju", (35.1595, 126.8526));
    ("Gyeongbuk", (36.576, 128.5056));
    ("Gyeongnam", (35.4606, 128.2132));
    ("Daegu", (35.8714, 128.6014));
    ("Busan", (35.1796, 129.0756));
    ("Ulsan", (35.5384, 129.3114));
    ("Jeju", (33.4996, 126.5312)) ].

(** Known road distances (km) for major corridors. *)
Definition ROAD_DISTANCES : list (string * Q) :=
  [ ("Busan→Seoul", 325);
    ("Daegu→Seoul", 237);
    ("Daejeon→Seoul", 140);
    ("Gwangju→Seoul", 268);
    ("Incheon→Seoul", 28);
    ("Gyeonggi→Seoul", 40);
    ("Gangwon→Seoul", 133);
    ("Chungbuk→Seoul", 120);
    ("Chungnam→Seoul", 130);
    ("Gyeongbuk→Seoul", 200);
    ("Gyeongnam→Seoul", 300);
    ("Jeonbuk→Seoul", 200);
    ("Jeonnam→Seoul", 290);
    ("Ulsan→Seoul", 307);
    ("Sejong→Seoul", 120);
    ("Busan→Daegu", 88);
    ("Busan→Ulsan", 52);
    ("Busan→Gyeongnam", 70);
    ("Daegu→Gyeongbuk", 50);
    ("Daegu→Ulsan", 75);
    ("Daejeon→Chungbuk", 60);
    ("Daejeon→Chungnam", 40);
    ("Daejeon→Sejong", 25);
    ("Gwangju→Jeonnam", 45);
    ("Gwangju→Jeonbuk", 85);
    ("Gyeonggi→Incheon", 30);
    ("Gyeonggi→Gangwon", 110);
    ("Gyeonggi→Chungbuk", 100);
    ("Gyeonggi→Chungnam", 90);
    ("Gyeongnam→Jeonnam", 180);
    ("Jeonbuk→Jeonnam", 100);
    ("Jeonbuk→Chungnam", 90);
    ("Busan→Gwangju", 260);
    ("Busan→Daejeon", 200);
    ("Busan→Jeonbuk", 230);
    ("Daegu→Daejeon", 120);
    ("Daegu→Gwangju", 185);
    ("Incheon→Busan", 350);
    ("Busan→Jeju", 450);
    ("Seoul→Jeju", 480) ].

(** The own property of an object literal under [key], if any.  This is all
    of [ROAD_DISTANCES[key]]: its keys are looked up with an arrow inside,
    which no inherited name has.  Tables looked up under a free string go
    through [member] below. *)
Fixpoint property {A} (table : list (string * A)) (key : string) : option A :=
  match table with
  | [] => None
  | (k, v) :: table' => if String.eqb k key then Some v else property table' key
  end.

(** [a ?? b] *)
Definition orElse {A} (a b : option A) : option A :=
  match a with
  | Some _ => a
  | None => b
  end.

(** The property names every object literal inherits from
    [Object.prototype]. *)
Definition OBJECT_PROTOTYPE_KEYS : list string :=
  [ "constructor"; "hasOwnProperty"; "isPrototypeOf"; "propertyIsEnumerable";
    "toLocaleString"; "toString"; "valueOf"; "__proto__";
    "__defineGetter__"; "__defineSetter__"; "__lookupGetter__";
    "__lookupSetter__" ].

(** What [table[key]] finds on an object literal: the own property, or a
    property inherited from [Object.prototype] (a method, or the prototype
    itself under "__proto__": an object, neither nullish nor a number nor
    iterable), or nothing ([undefined]). *)
Inductive Member (A : Type) : Type :=
  | Own (value : A)
  | Inherited
  | Missing.
Arguments Own {A} value.
Arguments Inherited {A}.
Arguments Missing {A}.

Definition member {A} (table : list (string * A)) (key : string) : Member A :=
  match property table key with
  | Some value => Own value
  | None =>
      if existsb (String.eqb key) OBJECT_PROTOTYPE_KEYS then Inherited
      else Missing
  end.

Definition lookupDistance (prov1 prov2 : string) : option Q :=
  let key1 := (prov1 ++ "→" ++ prov2)%string in
  let key2 := (prov2 ++ "→" ++ prov1)%string in
  orElse (property ROAD_DISTANCES key1) (property ROAD_DISTANCES key2).

Section RouteDistance.

Variable Math : JSMath.

Definition haversineKm (p1 p2 : Q * Q) : Q :=
  let '(lat1, lng1) := p1 in
  let '(lat2, lng2) := p2 in
  let R := 6371 in
  let dLat := ((lat2 - lat1) * Math_PI Math) / 180 in
  let dLng := ((lng2 - lng1) * Math_PI Math) / 180 in
  let a :=
    Math_sin Math (dLat / 2) ^ 2 +
    Math_cos Math ((lat1 * Math_PI Math) / 180) *
      Math_cos Math ((lat2 * Math_PI Math) / 180) *
      Math_sin Math (dLng / 2) ^ 2 in
  let c := 2 * Math_atan2 Math (Math_sqrt Math a) (Math_sqrt Math (1 - a)) in
  R * c.

(** [None]: the call throws.  [coord1 && coord2] lets any value through that
    is not [undefined]; [haversineKm] destructures both as arrays, and a
    value inherited from [Object.prototype] is not iterable, so that the
    call ends in a TypeError. *)
Definition getRouteDistance (origin destination : string)
    : option RouteDistanceResult.t :=
  let prov1 := extractProvince origin in
  let prov2 := extractProvince destination in
  if String.eqb prov1 prov2 then
    Some (RouteDistanceResult.mk 30 lookup)
  else
    match lookupDistance prov1 prov2 with
    | Some known => Some (RouteDistanceResult.mk known lookup)
    | None =>
        match member PROVINCE_COORDS prov1, member PROVINCE_COORDS prov2 with
        | Missing, _ | _, Missing => Some (RouteDistanceResult.mk 200 haversine)
        | Own coord1, Own coord2 =>
            let straight := haversineKm coord1 coord2 in
            let roadEstimate := Math_round (straight * 1.3) in
            Some (RouteDistanceResult.mk roadEstimate haversine)
        | _, _ => None
        end
    end.

End RouteDistance.

(* ================================================================== *)
(** ** Pricing engine *)
(* ================================================================== *)

Module FPHInput.
Record t : Type := mk {
  origin : string;
  destination : string;
  vehicleType : string;
  freightType : option string;
  manualAdjustmentRate : option Q
}.
End FPHInput.

Module Tier1Breakdown.
Record t : Type := mk {
  fuelCost : Q;
  tollCost : Q;
  fixedCost : Q;
  driverProfit : Q;
  subtotal : Q;
  distanceKm : Q;
  distanceSource : DistanceSource
}.
End Tier1Breakdown.

Module Tier2Breakdown.
Record t : Type := mk {
  marketMedian : option Q;
  adjustmentFactor : Q;
  adjustedPrice : Q;
  sampleSize : Q;
  confidenceScore : Q;
  isFallback : bool;
  hasMarketData : bool
}.
End Tier2Breakdown.

Module Tier3Breakdown.
Record t : Type := mk {
  companyMarginRate : Q;
  companyMargin : Q;
  freightRiskRate : Q;
  freightRiskSurcharge : Q;
  manualAdjustmentRate : Q;
  manualAdjustment : Q;
  subtotalBeforeRounding : Q;
  finalPrice : Q
}.
End Tier3Breakdown.

Module Summary.
Record t : Type := mk {
  tier1_base : Q;
  tier2_adjusted : Q;
  tier3_final : Q;
  overallConfidence : Q;
  dataSources : list string
}.
End Summary.

Module FPHResult.
Record t : Type := mk {
  input : FPHInput.t;
  tier1 : Tier1Breakdown.t;
  tier2 : Tier2Breakdown.t;
  tier3 : Tier3Breakdown.t;
  summary : Summary.t
}.
End FPHResult.

Record CostVariables : Type := {
  fuel_price : Q;
  fuel_efficiency : Q;
  toll_rate : Q;
  vehicle_fixed_cost : Q;
  driver_profit_rate : Q;
  company_margin_rate : Q;
  freight_risk_fragile : Q;
  freight_risk_refrigerated : Q;
  freight_risk_hazardous : Q
}.

Definition COST_DEFAULTS : CostVariables :=
  {| fuel_price := 1650;
     fuel_efficiency := 3.5;
     toll_rate := 120;
     vehicle_fixed_cost := 150000;
     driver_profit_rate := 0.15;
     company_margin_rate := 0.08;
     freight_risk_fragile := 0.12;
     freight_risk_refrigerated := 0.15;
     freight_risk_hazardous := 0.20 |}.

(** The two tables of the store the engine reads. *)
Record Store : Type := {
  costMaster : list (string * Q);
  marketData : list PriceDataPoint.t
}.

(** [new Map(rows.map((r) => [r.item, r.value])).get(item)]: the value of the
    last row for [item]. *)
Definition costValue (rows : list (string * Q)) (item : string) : option Q :=
  property (rev rows) item.

Definition withDefault (v : option Q) (d : Q) : Q :=
  match v with
  | Some x => x
  | None => d
  end.

Definition fetchCostVariables (store : Store) : CostVariables :=
  let get := costValue (costMaster store) in
  {| fuel_price := withDefault (get "fuel_price") (fuel_price COST_DEFAULTS);
     fuel_efficiency :=
       withDefault (get "fuel_efficiency") (fuel_efficiency COST_DEFAULTS);
     toll_rate := withDefault (get "toll_rate") (toll_rate COST_DEFAULTS);
     vehicle_fixed_cost :=
       withDefault (get "vehicle_fixed_cost") (vehicle_fixed_cost COST_DEFAULTS);
     driver_profit_rate :=
       withDefault (get "driver_profit_rate") (driver_profit_rate COST_DEFAULTS);
     company_margin_rate :=
       withDefault (get "company_margin_rate") (company_margin_rate COST_DEFAULTS);
     freight_risk_fragile :=
       withDefault (get "freight_risk_fragile") (freight_risk_fragile COST_DEFAULTS);
     freight_risk_refrigerated :=
       withDefault (get "freight_risk_refrigerated")
         (freight_risk_refrigerated COST_DEFAULTS);
     freight_risk_hazardous :=
       withDefault (get "freight_risk_hazardous")
         (freight_risk_hazardous COST_DEFAULTS) |}.

Definition VEHICLE_EFFICIENCY : list (string * Q) :=
  [ ("1t", 8.0); ("2.5t", 6.5); ("3.5t", 5.5); ("5t", 4.5); ("8t", 4.0);
    ("11t", 3.5); ("15t", 3.0); ("18t", 2.8); ("25t", 2.5) ].

(** [VEHICLE_EFFICIENCY[vehicleType] ?? defaultEff].  [None] is a value that
    is no number: [??] lets a method inherited from [Object.prototype]
    through, and arithmetic turns it into NaN. *)
Definition getEfficiency (vehicleType : string) (defaultEff : Q) : option Q :=
  match member VEHICLE_EFFICIENCY vehicleType with
  | Own efficiency => Some efficiency
  | Inherited => None
  | Missing => Some defaultEff
  end.

(** *** Tier 1: cost-based pricing *)

(** [None] stands for a breakdown whose amounts are not all finite numbers,
    which exact rationals do not carry: [km / efficiency] is NaN for an
    efficiency that is no number and NaN or infinite for an efficiency of
    0, and so are the fuel cost, the driver profit and the subtotal. *)
Definition calculateTier1 (distance : RouteDistanceResult.t)
    (vehicleType : string) (costs : CostVariables) : option Tier1Breakdown.t :=
  let km := RouteDistanceResult.distanceKm distance in
  match getEfficiency vehicleType (fuel_efficiency costs) with
  | None => None
  | Some efficiency =>
      if Qeq_bool efficiency 0 then None
      else
        let fuelCost := Math_round ((km / efficiency) * fuel_price costs) in
        let tollCost := Math_round (km * toll_rate costs) in
        let fixedCost := vehicle_fixed_cost costs in
        let operatingCost := fuelCost + tollCost + fixedCost in
        let driverProfit := Math_round (operatingCost * driver_profit_rate costs) in
        let subtotal := operatingCost + driverProfit in
        Some (Tier1Breakdown.mk fuelCost tollCost fixedCost driverProfit subtotal
                km (RouteDistanceResult.source distance))
  end.

(** *** Tier 2: market-based adjustment *)

Definition calculateTier2 (tier1Base : Q)
    (marketResult : option RouteMedianResult.t) : Tier2Breakdown.t :=
  match marketResult with
  | None =>
      {| Tier2Breakdown.marketMedian := None;
         Tier2Breakdown.adjustmentFactor := 1.0;
         Tier2Breakdown.adjustedPrice := tier1Base;
         Tier2Breakdown.sampleSize := 0;
         Tier2Breakdown.confidenceScore := 0;
         Tier2Breakdown.isFallback := false;
         Tier2Breakdown.hasMarketData := false |}
  | Some marketResult =>
      let marketMedian := RouteMedianResult.median marketResult in
      let confidence := RouteMedianResult.confidenceScore marketResult in
      let adjustedPrice :=
        Math_round (tier1Base * (1 - confidence) + marketMedian * confidence) in
      let adjustmentFactor :=
        if Qlt_bool 0 tier1Base
        then Math_round ((adjustedPrice / tier1Base) * 1000) / 1000
        else 1.0 in
      {| Tier2Breakdown.marketMedian := Some marketMedian;
         Tier2Breakdown.adjustmentFactor := adjustmentFactor;
         Tier2Breakdown.adjustedPrice := adjustedPrice;
         Tier2Breakdown.sampleSize := RouteMedianResult.sampleSize marketResult;
         Tier2Breakdown.confidenceScore := confidence;
         Tier2Breakdown.isFallback := RouteMedianResult.isFallback marketResult;
         Tier2Breakdown.hasMarketData := true |}
  end.

(** *** Tier 3: strategic finalization *)

Definition FRAGILE_KEYWORDS : list string :=
  ["fragile"; "paper"; "glass"; "ceramic"; "electronics"].
Definition REFRIGERATED_KEYWORDS : list string :=
  ["refrigerated"; "frozen"; "chilled"; "cold"].
Definition HAZARDOUS_KEYWORDS : list string :=
  ["hazardous"; "chemical"; "flammable"; "explosive"].

Definition getFreightRiskRate (freightType : option string)
    (costs : CostVariables) : Q :=
  match freightType with
  | None => 0
  | Some EmptyString => 0
  | Some freightType =>
      let normalized := toLowerCase freightType in
      if someIncluded FRAGILE_KEYWORDS normalized then
        freight_risk_fragile costs
      else if someIncluded REFRIGERATED_KEYWORDS normalized then
        freight_risk_refrigerated costs
      else if someIncluded HAZARDOUS_KEYWORDS normalized then
        freight_risk_hazardous costs
      else 0
  end.

Definition ceilTo1000 (value : Q) : Q := Math_ceil (value / 1000) * 1000.

Definition calculateTier3 (tier2Price : Q) (freightType : option string)
    (manualAdjustmentRate : Q) (costs : CostVariables) : Tier3Breakdown.t :=
  let companyMarginRate := company_margin_rate costs in
  let companyMargin := Math_round (tier2Price * companyMarginRate) in
  let freightRiskRate := getFreightRiskRate freightType costs in
  let freightRiskSurcharge := Math_round (tier2Price * freightRiskRate) in
  let manualAdjustment := Math_round (tier2Price * manualAdjustmentRate) in
  let subtotalBeforeRounding :=
    tier2Price + companyMargin + freightRiskSurcharge + manualAdjustment in
  let finalPrice := ceilTo1000 subtotalBeforeRounding in
  Tier3Breakdown.mk companyMarginRate companyMargin freightRiskRate
    freightRiskSurcharge manualAdjustmentRate manualAdjustment
    subtotalBeforeRounding finalPrice.

(** *** Overall confidence *)

Definition computeOverallConfidence (distanceSource : DistanceSource)
    (tier2 : Tier2Breakdown.t) : Q :=
  let distConf := match distanceSource with lookup => 1.0 | haversine => 0.6 end in
  let marketConf :=
    if Tier2Breakdown.hasMarketData tier2
    then Tier2Breakdown.confidenceScore tier2 else 0.3 in
  let overall := distConf * 0.3 + marketConf * 0.7 in
  Math_round (overall * 100) / 100.

(** How a pricing run ends: with a result whose amounts are finite numbers;
    with a result whose amounts are not ([NotFinite]: the run returns, and
    the prices in what it returns are NaN or infinite); or by throwing. *)
Inductive Priced (A : Type) : Type :=
  | Returned (result : A)
  | NotFinite
  | Thrown.
Arguments Returned {A} result.
Arguments NotFinite {A}.
Arguments Thrown {A}.

Section Engine.

Variable Math : JSMath.

(** Find the market median for a route and vehicle type; [None] is the
    source's [null]. *)
Definition findMarketMedian (store : Store)
    (origin destination vehicleType : string) : option RouteMedianResult.t :=
  let allData :=
    filter (fun d => String.eqb (PriceDataPoint.vehicleType d) vehicleType)
      (marketData store) in
  match allData with
  | [] => None
  | _ =>
      let results := analyzeMarketData Math allData in
      let exactMatch :=
        find (fun r => String.eqb (RouteMedianResult.origin r) origin
                       && String.eqb (RouteMedianResult.destination r) destination)
          results in
      match exactMatch with
      | Some r => Some r
      | None =>
          let originProv := trim (split0 origin) in
          let destProv := trim (split0 destination) in
          find (fun r => RouteMedianResult.isFallback r
                         && String.eqb (RouteMedianResult.origin r) originProv
                         && String.eqb (RouteMedianResult.destination r) destProv)
            results
      end
  end.

(** *** Main entry point *)

Definition calculateFPHPrice (store : Store) (input : FPHInput.t)
    : Priced FPHResult.t :=
  let origin := FPHInput.origin input in
  let destination := FPHInput.destination input in
  let vehicleType := FPHInput.vehicleType input in
  let freightType := FPHInput.freightType input in
  let manualAdjustmentRate := withDefault (FPHInput.manualAdjustmentRate input) 0 in
  let costs := fetchCostVariables store in
  match getRouteDistance Math origin destination with
  | None => Thrown
  | Some distance =>
      match calculateTier1 distance vehicleType costs with
      | None => NotFinite
      | Some tier1 =>
          let marketResult :=
            findMarketMedian store origin destination vehicleType in
          let tier2 := calculateTier2 (Tier1Breakdown.subtotal tier1) marketResult in
          let tier3 :=
            calculateTier3 (Tier2Breakdown.adjustedPrice tier2) freightType
              manualAdjustmentRate costs in
          let dataSources :=
            ["CostMaster"]
            ++ (if Tier2Breakdown.hasMarketData tier2 then ["MarketData (IQR)"]
                else [])
            ++ (match RouteDistanceResult.source distance with
                | lookup => ["RouteDistance (lookup)"]
                | haversine => ["RouteDistance (haversine estimate)"]
                end) in
          let overallConfidence :=
            computeOverallConfidence (RouteDistanceResult.source distance) tier2 in
          Returned
            {| FPHResult.input := input;
               FPHResult.tier1 := tier1;
               FPHResult.tier2 := tier2;
               FPHResult.tier3 := tier3;
               FPHResult.summary :=
                 {| Summary.tier1_base := Tier1Breakdown.subtotal tier1;
                    Summary.tier2_adjusted := Tier2Breakdown.adjustedPrice tier2;
                    Summary.tier3_final := Tier3Breakdown.finalPrice tier3;
                    Summary.overallConfidence := overallConfidence;
                    Summary.dataSources := dataSources |} |}
      end
  end.

End Engine.

(* ================================================================== *)
(** ** Batch simulation *)
(* ================================================================== *)

(** How an awaited call ends: with a value, or by throwing an error whose
    [message] property may be missing. *)
Inductive Completion (A : Type) : Type :=
  | Resolved (value : A)
  | Rejected (message : option string).
Arguments Resolved {A} value.
Arguments Rejected {A} message.

Module BatchError.
Record t : Type := mk {
  index : nat;
  route : string;
  message : string
}.
End BatchError.

(** An element of [inputs: any[]]: [null] or [undefined], or a value whose
    properties can be read, which is what a pricing request is. *)
Inductive Any (Request : Type) : Type :=
  | Nullish
  | Value (request : Request).
Arguments Nullish {Request}.
Arguments Value {Request} request.

Section Batch.

Variables Request Result : Type.
(** [input.origin] and [input.destination]; [None] when missing or nullish. *)
Variable originOf destinationOf : Request -> option string.
(** How [await calculateFPHPrice(input)] ends. *)
Variable calculateFPHPrice : Request -> Completion Result.
(** [JSON.parse(JSON.stringify(result))] *)
Variable jsonCopy : Result -> Result.

Definition orString (v : option string) (d : string) : string :=
  match v with
  | Some s => s
  | None => d
  end.

(** [`${input.origin ?? "?"} → ${input.destination ?? "?"}`] *)
Definition routeLabel (input : Request) : string :=
  (orString (originOf input) "?" ++ " → " ++ orString (destinationOf input) "?")%string.

(** [error.message || "Calculation failed"] *)
Definition messageOf (message : option string) : string :=
  match message with
  | None => "Calculation failed"
  | Some EmptyString => "Calculation failed"
  | Some m => m
  end.

(** The loop [for (let i = 0; i < inputs.length; i++)] from index [i] on,
    over the inputs not yet visited; [None] when the action itself throws.
    On a nullish input [calculateFPHPrice] throws while destructuring it,
    and the handler throws in turn while reading [input.origin], outside any
    [try]. *)
Fixpoint batchLoop (i : nat) (inputs : list (Any Request))
    (results : list Result) (errors : list BatchError.t)
    : option (list Result * list BatchError.t) :=
  match inputs with
  | [] => Some (results, errors)
  | Nullish :: _ => None
  | Value input :: rest =>
      match calculateFPHPrice input with
      | Resolved result =>
          batchLoop (S i) rest (results ++ [jsonCopy result]) errors
      | Rejected message =>
          batchLoop (S i) rest results
            (errors ++ [BatchError.mk i (routeLabel input) (messageOf message)])
      end
  end.

Definition runBatchSimulation (inputs : list (Any Request))
    : option (list Result * list BatchError.t) :=
  batchLoop 0 inputs [] [].

(** What the batch is meant to return: the copies of the values of the
    requests that priced, in request order, ... *)
Definition pricedOf (requests : list Request) : list Result :=
  flat_map
    (fun input =>
       match calculateFPHPrice input with
       | Resolved result => [jsonCopy result]
       | Rejected _ => []
       end)
    requests.

(** ... and one error entry per request that failed, carrying the position
    of the request; [i] is the position of the head of [requests]. *)
Fixpoint failedFrom (i : nat) (requests : list Request) : list BatchError.t :=
  match requests with
  | [] => []
  | input :: rest =>
      match calculateFPHPrice input with
      | Resolved _ => failedFrom (S i) rest
      | Rejected message =>
          BatchError.mk i (routeLabel input) (messageOf message)
            :: failedFrom (S i) rest
      end
  end.

End Batch.

Arguments routeLabel {Request} originOf destinationOf input.
Arguments batchLoop {Request Result} originOf destinationOf calculateFPHPrice
  jsonCopy i inputs results errors.
Arguments runBatchSimulation {Request Result} originOf destinationOf
  calculateFPHPrice jsonCopy inputs.
Arguments pricedOf {Request Result} calculateFPHPrice jsonCopy requests.
Arguments failedFrom {Request Result} originOf destinationOf calculateFPHPrice
  i requests.


(* ================================================================== *)
(** ** Summary of an analysis *)
(* ================================================================== *)

Module AnalysisSummary.
Record t : Type := mk {
  totalRoutes : Q;
  exactRoutes : Q;
  fallbackRoutes : Q;
  avgConfidence : Q;
  topRoutes : list RouteMedianResult.t
}.
End AnalysisSummary.

(** [xs.slice(0, end)] for an integral [end]: a negative [end] counts from
    the end of the array. *)
Definition slice0 {A} (xs : list A) (end_ : Z) : list A :=
  let n := Z.of_nat (List.length xs) in
  let k := if (end_ <? 0)%Z then Z.max (n + end_) 0 else Z.min end_ n in
  firstn (Z.to_nat k) xs.

Definition summarizeAnalysisTop (results : list RouteMedianResult.t) (topN : Z)
    : AnalysisSummary.t :=
  let exactRoutes :=
    len (filter (fun r => negb (RouteMedianResult.isFallback r)) results) in
  let fallbackRoutes :=
    len (filter (fun r => RouteMedianResult.isFallback r) results) in
  let avgConfidence :=
    if Qlt_bool 0 (len results)
    then Math_round
           ((fold_left (fun sum r => sum + RouteMedianResult.confidenceScore r)
               results 0
             / len results) * 100) / 100
    else 0 in
  {| AnalysisSummary.totalRoutes := len results;
     AnalysisSummary.exactRoutes := exactRoutes;
     AnalysisSummary.fallbackRoutes := fallbackRoutes;
     AnalysisSummary.avgConfidence := avgConfidence;
     AnalysisSummary.topRoutes := slice0 results topN |}.

(** The default argument [topN = 10]. *)
Definition summarizeAnalysis (results : list RouteMedianResult.t)
    : AnalysisSummary.t :=
  summarizeAnalysisTop results 10.

(* ================================================================== *)
(** ** CSV parsing *)
(* ================================================================== *)

Definition LF : ascii := "010"%char.
Definition CR : ascii := "013"%char.
Definition QUOTE : ascii := "034"%char.
Definition COMMA : ascii := ","%char.

(** [text.split(/\r?\n/)]: the pieces between line ends, a line end being a
    line feed with or without a carriage return before it. *)
Fixpoint splitLines (text : string) : list string :=
  match text with
  | EmptyString => [EmptyString]
  | String c rest =>
      if Ascii.eqb c LF then EmptyString :: splitLines rest
      else
        let continue :=
          match splitLines rest with
          | [] => [String c EmptyString]
          | line :: lines => String c line :: lines
          end in
        if Ascii.eqb c CR then
          match rest with
          | String c' rest' =>
              if Ascii.eqb c' LF then EmptyString :: splitLines rest'
              else continue
          | EmptyString => continue
          end
        else continue
  end.

(** The character loop of [parseCsvLines] over the rest of a line;
    [current] and [inQuotes] are its two variables, and the list returned
    is what it pushes onto [fields], the last field included. *)
Fixpoint parseFields (line : string) (current : string) (inQuotes : bool)
    : list string :=
  match line with
  | EmptyString => [trim current]
  | String char rest =>
      if Ascii.eqb char QUOTE then
        match rest with
        | String next rest' =>
            if inQuotes && Ascii.eqb next QUOTE
            then parseFields rest' (current ++ String QUOTE EmptyString) inQuotes
            else parseFields rest current (negb inQuotes)
        | EmptyString => parseFields rest current (negb inQuotes)
        end
      else if Ascii.eqb char COMMA && negb inQuotes then
        trim current :: parseFields rest EmptyString inQuotes
      else parseFields rest (current ++ String char EmptyString) inQuotes
  end.

Definition nonEmpty (s : string) : bool :=
  match s with
  | EmptyString => false
  | String _ _ => true
  end.

Definition parseCsvLines (text : string) : list (list string) :=
  let lines := filter nonEmpty (map trim (splitLines text)) in
  map (fun line => parseFields line EmptyString false) lines.

Definition isLowerAlnum (c : ascii) : bool :=
  let n := nat_of_ascii c in
  ((97 <=? n)%nat && (n <=? 122)%nat) || ((48 <=? n)%nat && (n <=? 57)%nat).

(** [s.replace(/[^a-z0-9]/g, "")] *)
Fixpoint keepLowerAlnum (s : string) : string :=
  match s with
  | EmptyString => EmptyString
  | String c s' =>
      if isLowerAlnum c then String c (keepLowerAlnum s') else keepLowerAlnum s'
  end.

Definition normalizeHeader (header : string) : string :=
  trim (keepLowerAlnum (toLowerCase header)).

(** [s.replace(/,/g, "")] *)
Fixpoint removeCommas (s : string) : string :=
  match s with
  | EmptyString => EmptyString
  | String c s' =>
      if Ascii.eqb c COMMA then removeCommas s' else String c (removeCommas s')
  end.

Module MarketDataField.
Inductive t : Type :=
  date | origin | destination | vehicleType | freightType | unitPrice.

Definition eqb (a b : t) : bool :=
  match a, b with
  | date, date | origin, origin | destination, destination
  | vehicleType, vehicleType | freightType, freightType
  | unitPrice, unitPrice => true
  | _, _ => false
  end.

(** [String(field)] *)
Definition name (f : t) : string :=
  match f with
  | date => "date"
  | origin => "origin"
  | destination => "destination"
  | vehicleType => "vehicleType"
  | freightType => "freightType"
  | unitPrice => "unitPrice"
  end.
End MarketDataField.

Module CostMasterField.
Inductive t : Type := category | item | value | unit | description.

Definition eqb (a b : t) : bool :=
  match a, b with
  | category, category | item, item | value, value | unit, unit
  | description, description => true
  | _, _ => false
  end.

Definition name (f : t) : string :=
  match f with
  | category => "category"
  | item => "item"
  | value => "value"
  | unit => "unit"
  | description => "description"
  end.
End CostMasterField.

Definition MARKET_DATA_HEADERS : list (string * MarketDataField.t) :=
  [ ("date", MarketDataField.date);
    ("origin", MarketDataField.origin);
    ("departure", MarketDataField.origin);
    ("destination", MarketDataField.destination);
    ("arrival", MarketDataField.destination);
    ("vehicletype", MarketDataField.vehicleType);
    ("vehicle", MarketDataField.vehicleType);
    ("tontype", MarketDataField.vehicleType);
    ("freighttype", MarketDataField.freightType);
    ("freight", MarketDataField.freightType);
    ("cargotype", MarketDataField.freightType);
    ("unitprice", MarketDataField.unitPrice);
    ("price", MarketDataField.unitPrice);
    ("amount", MarketDataField.unitPrice);
    ("fare", MarketDataField.unitPrice) ].

Definition COST_MASTER_HEADERS : list (string * CostMasterField.t) :=
  [ ("category", CostMasterField.category);
    ("type", CostMasterField.category);
    ("item", CostMasterField.item);
    ("name", CostMasterField.item);
    ("key", CostMasterField.item);
    ("value", CostMasterField.value);
    ("amount", CostMasterField.value);
    ("unit", CostMasterField.unit);
    ("description", CostMasterField.description);
    ("desc", CostMasterField.description);
    ("note", CostMasterField.description) ].

Section MapHeaders.

(** The field names [keyof T], with their equality. *)
Variable T : Type.
Variable T_eqb : T -> T -> bool.

Definition hasField (field : T) (foundFields : list T) : bool :=
  existsb (T_eqb field) foundFields.

(** [rawHeaders.forEach((header, index) => ...)] from [index] on; the state
    is [columnMap] (a [Map], in insertion order) and [foundFields].
    [mapping[normalized]] is the own property of the table.  (A header that
    normalises to "constructor" finds the property inherited from
    [Object.prototype] instead: the source then maps its column to a value
    that is no field name, which fills no field of a row and takes part in
    no validation; [columnMap] here holds the columns of fields only.) *)
Fixpoint mapHeadersLoop (mapping : list (string * T)) (rawHeaders : list string)
    (index : nat) (columnMap : list (nat * T)) (foundFields : list T)
    : list (nat * T) * list T :=
  match rawHeaders with
  | [] => (columnMap, foundFields)
  | header :: rest =>
      let normalized := normalizeHeader header in
      match property mapping normalized with
      | Some field =>
          if hasField field foundFields
          then mapHeadersLoop mapping rest (S index) columnMap foundFields
          else mapHeadersLoop mapping rest (S index)
                 (columnMap ++ [(index, field)]) (foundFields ++ [field])
      | None => mapHeadersLoop mapping rest (S index) columnMap foundFields
      end
  end.

(** Returns [columnMap] and the missing required fields (before
    [.map(String)]). *)
Definition mapHeaders (rawHeaders : list string) (mapping : list (string * T))
    (requiredFields : list T) : list (nat * T) * list T :=
  let (columnMap, foundFields) := mapHeadersLoop mapping rawHeaders 0 [] [] in
  (columnMap, filter (fun f => negb (hasField f foundFields)) requiredFields).

End MapHeaders.

Arguments hasField {T} T_eqb field foundFields.
Arguments mapHeadersLoop {T} T_eqb mapping rawHeaders index columnMap foundFields.
Arguments mapHeaders {T} T_eqb rawHeaders mapping requiredFields.

Module ParseResult.
Record t (A : Type) : Type := mk {
  data : list A;
  errors : list string;
  totalRows : nat
}.
Arguments mk {A} data errors totalRows.
Arguments data {A} t.
Arguments errors {A} t.
Arguments totalRows {A} t.
End ParseResult.

(** A [Partial<MarketDataRow>]: [None] is a property not set.  For
    [unitPrice], [None] also stands for [NaN]; the two are told apart
    nowhere. *)
Module MarketDataRow.
Record t : Type := mk {
  date : option string;
  origin : option string;
  destination : option string;
  vehicleType : option string;
  freightType : option string;
  unitPrice : option Q
}.
Definition empty : t := mk None None None None None None.
End MarketDataRow.

Module CostMasterRow.
Record t : Type := mk {
  category : option string;
  item : option string;
  value : option Q;
  unit : option string;
  description : option string
}.
Definition empty : t := mk None None None None None.
End CostMasterRow.

(** [!s] for a string that may be undefined. *)
Definition falsy (s : option string) : bool :=
  match s with
  | None => true
  | Some EmptyString => true
  | Some _ => false
  end.

(** [`${s}`] for a string that may be undefined. *)
Definition shown (s : option string) : string :=
  match s with
  | Some s => s
  | None => "undefined"
  end.

(** [`${n}`] for a row number. *)
Definition showNat (n : nat) : string := NilZero.string_of_uint (Nat.to_uint n).

Definition quoted (s : string) : string :=
  (String QUOTE EmptyString ++ s ++ String QUOTE EmptyString)%string.

Definition EMPTY_CSV_ERROR : string := "CSV file is empty or has no data rows.".

Definition missingColumnsError (missingFields headerRow : list string) : string :=
  ("Missing required columns: " ++ String.concat ", " missingFields
   ++ ". Found headers: " ++ String.concat ", " headerRow)%string.

(** [fields[colIdx]?.trim() ?? ""] *)
Definition cell (fields : list string) (colIdx : nat) : string :=
  match nth_error fields colIdx with
  | Some f => trim f
  | None => EmptyString
  end.

Section CsvImport.

(** [parseFloat]: [None] is [NaN]. *)
Variable parseFloat : string -> option Q.
(** [!isNaN(new Date(s).getTime())] *)
Variable isValidDate : string -> bool.

Definition setMarketField (row : MarketDataRow.t) (field : MarketDataField.t)
    (val : string) : MarketDataRow.t :=
  match field with
  | MarketDataField.unitPrice =>
      MarketDataRow.mk (MarketDataRow.date row) (MarketDataRow.origin row)
        (MarketDataRow.destination row) (MarketDataRow.vehicleType row)
        (MarketDataRow.freightType row) (parseFloat (removeCommas val))
  | MarketDataField.date =>
      MarketDataRow.mk (Some val) (MarketDataRow.origin row)
        (MarketDataRow.destination row) (MarketDataRow.vehicleType row)
        (MarketDataRow.freightType row) (MarketDataRow.unitPrice row)
  | MarketDataField.origin =>
      MarketDataRow.mk (MarketDataRow.date row) (Some val)
        (MarketDataRow.destination row) (MarketDataRow.vehicleType row)
        (MarketDataRow.freightType row) (MarketDataRow.unitPrice row)
  | MarketDataField.destination =>
      MarketDataRow.mk (MarketDataRow.date row) (MarketDataRow.origin row)
        (Some val) (MarketDataRow.vehicleType row)
        (MarketDataRow.freightType row) (MarketDataRow.unitPrice row)
  | MarketDataField.vehicleType =>
      MarketDataRow.mk (MarketDataRow.date row) (MarketDataRow.origin row)
        (MarketDataRow.destination row) (Some val)
        (MarketDataRow.freightType row) (MarketDataRow.unitPrice row)
  | MarketDataField.freightType =>
      MarketDataRow.mk (MarketDataRow.date row) (MarketDataRow.origin row)
        (MarketDataRow.destination row) (MarketDataRow.vehicleType row)
        (Some val) (MarketDataRow.unitPrice row)
  end.

(** [columnMap.forEach((field, colIdx) => ...)] filling [row]. *)
Definition readMarketRow (columnMap : list (nat * MarketDataField.t))
    (fields : list string) : MarketDataRow.t :=
  fold_left
    (fun row entry => setMarketField row (snd entry) (cell fields (fst entry)))
    columnMap MarketDataRow.empty.

(** [isNaN(x) || x <= 0] *)
Definition notPositive (x : option Q) : bool :=
  match x with
  | None => true
  | Some q => Qle_bool q 0
  end.

(** [fields[Array.from(columnMap.entries()).find(([, f]) => f === "unitPrice")?.[0] ?? 0]],
    as shown in a message. *)
Definition rawUnitPrice (columnMap : list (nat * MarketDataField.t))
    (fields : list string) : string :=
  let idx :=
    match find (fun entry => MarketDataField.eqb (snd entry) MarketDataField.unitPrice)
            columnMap with
    | Some entry => fst entry
    | None => 0%nat
    end in
  shown (nth_error fields idx).

(** The body of [dataRows.forEach]: the row to push onto [data], or the
    message to push onto [errors]. *)
Definition validateMarketRow (columnMap : list (nat * MarketDataField.t))
    (fields : list string) (idx : nat) : MarketDataRow.t + string :=
  let rowNum := (idx + 2)%nat in
  let row := readMarketRow columnMap fields in
  if falsy (MarketDataRow.date row)
     || negb (isValidDate (shown (MarketDataRow.date row))) then
    inr ("Row " ++ showNat rowNum ++ ": Invalid date "
         ++ quoted (shown (MarketDataRow.date row)))%string
  else if falsy (MarketDataRow.origin row) || falsy (MarketDataRow.destination row) then
    inr ("Row " ++ showNat rowNum ++ ": Missing origin or destination")%string
  else if falsy (MarketDataRow.vehicleType row) then
    inr ("Row " ++ showNat rowNum ++ ": Missing vehicleType")%string
  else if notPositive (MarketDataRow.unitPrice row) then
    inr ("Row " ++ showNat rowNum ++ ": Invalid unitPrice "
         ++ quoted (rawUnitPrice columnMap fields))%string
  else inl row.

(** [dataRows.forEach((fields, idx) => ...)] from [idx] on. *)
Fixpoint importRows {A} (validate : list string -> nat -> A + string)
    (dataRows : list (list string)) (idx : nat) (data : list A)
    (errors : list string) : list A * list string :=
  match dataRows with
  | [] => (data, errors)
  | fields :: rest =>
      match validate fields idx with
      | inl row => importRows validate rest (S idx) (data ++ [row]) errors
      | inr message => importRows validate rest (S idx) data (errors ++ [message])
      end
  end.

Definition MARKET_REQUIRED : list MarketDataField.t :=
  [ MarketDataField.date; MarketDataField.origin; MarketDataField.destination;
    MarketDataField.vehicleType; MarketDataField.freightType;
    MarketDataField.unitPrice ].

Definition parseMarketDataCsv (text : string) : ParseResult.t MarketDataRow.t :=
  match parseCsvLines text with
  | [] | [_] => ParseResult.mk [] [EMPTY_CSV_ERROR] 0
  | headerRow :: dataRows =>
      let (columnMap, missingFields) :=
        mapHeaders MarketDataField.eqb headerRow MARKET_DATA_HEADERS
          MARKET_REQUIRED in
      match missingFields with
      | _ :: _ =>
          ParseResult.mk []
            [missingColumnsError (map MarketDataField.name missingFields) headerRow]
            0
      | [] =>
          let (data, errors) :=
            importRows (validateMarketRow columnMap) dataRows 0 [] [] in
          ParseResult.mk data errors (List.length dataRows)
      end
  end.

Definition setCostField (row : CostMasterRow.t) (field : CostMasterField.t)
    (val : string) : CostMasterRow.t :=
  match field with
  | CostMasterField.value =>
      CostMasterRow.mk (CostMasterRow.category row) (CostMasterRow.item row)
        (parseFloat (removeCommas val)) (CostMasterRow.unit row)
        (CostMasterRow.description row)
  | CostMasterField.category =>
      CostMasterRow.mk (Some val) (CostMasterRow.item row)
        (CostMasterRow.value row) (CostMasterRow.unit row)
        (CostMasterRow.description row)
  | CostMasterField.item =>
      CostMasterRow.mk (CostMasterRow.category row) (Some val)
        (CostMasterRow.value row) (CostMasterRow.unit row)
        (CostMasterRow.description row)
  | CostMasterField.unit =>
      CostMasterRow.mk (CostMasterRow.category row) (CostMasterRow.item row)
        (CostMasterRow.value row) (Some val) (CostMasterRow.description row)
  | CostMasterField.description =>
      CostMasterRow.mk (CostMasterRow.category row) (CostMasterRow.item row)
        (CostMasterRow.value row) (CostMasterRow.unit row) (Some val)
  end.

Definition readCostRow (columnMap : list (nat * CostMasterField.t))
    (fields : list string) : CostMasterRow.t :=
  fold_left
    (fun row entry => setCostField row (snd entry) (cell fields (fst entry)))
    columnMap CostMasterRow.empty.

Definition validCategories : list string := ["Variable"; "Fixed"; "Policy"; "Risk"].

(** [validCategories.includes(row.category)] *)
Definition isValidCategory (category : option string) : bool :=
  match category with
  | Some c => existsb (String.eqb c) validCategories
  | None => false
  end.

Definition isNaN (x : option Q) : bool :=
  match x with
  | None => true
  | Some _ => false
  end.

Definition validateCostRow (columnMap : list (nat * CostMasterField.t))
    (fields : list string) (idx : nat) : CostMasterRow.t + string :=
  let rowNum := (idx + 2)%nat in
  let row := readCostRow columnMap fields in
  if falsy (CostMasterRow.category row)
     || negb (isValidCategory (CostMasterRow.category row)) then
    inr ("Row " ++ showNat rowNum ++ ": Invalid category "
         ++ quoted (shown (CostMasterRow.category row))
         ++ ". Must be one of: " ++ String.concat ", " validCategories)%string
  else if falsy (CostMasterRow.item row) then
    inr ("Row " ++ showNat rowNum ++ ": Missing item name")%string
  else if isNaN (CostMasterRow.value row) then
    inr ("Row " ++ showNat rowNum ++ ": Invalid value")%string
  else if falsy (CostMasterRow.unit row) then
    inr ("Row " ++ showNat rowNum ++ ": Missing unit")%string
  else inl row.

Definition COST_REQUIRED : list CostMasterField.t :=
  [ CostMasterField.category; CostMasterField.item; CostMasterField.value;
    CostMasterField.unit; CostMasterField.description ].

Definition parseCostMasterCsv (text : string) : ParseResult.t CostMasterRow.t :=
  match parseCsvLines text with
  | [] | [_] => ParseResult.mk [] [EMPTY_CSV_ERROR] 0
  | headerRow :: dataRows =>
      let (columnMap, missingFields) :=
        mapHeaders CostMasterField.eqb headerRow COST_MASTER_HEADERS
          COST_REQUIRED in
      match missingFields with
      | _ :: _ =>
          ParseResult.mk []
            [missingColumnsError (map CostMasterField.name missingFields) headerRow]
            0
      | [] =>
          let (data, errors) :=
            importRows (validateCostRow columnMap) dataRows 0 [] [] in
          ParseResult.mk data errors (List.length dataRows)
      end
  end.

End CsvImport.

(* ================================================================== *)
(** ** The statistics in binary64 *)
(* ================================================================== *)

(** The exact model above decides the half-way case of a rounding on the
    exact value and knows neither overflow nor NaN.  Where a property turns
    on these, the functions of this module embed the same source over the
    numbers of JavaScript, IEEE 754 binary64.  [x ** 2] is [x * x] (what
    the engines' [pow] returns for an exponent of 2), [Math.sqrt] is the
    correctly rounded square root, and a length is a number counted up from
    0. *)
Module Binary64.

Import PrimFloat.
Local Open Scope float_scope.
#[local] Set Warnings "-inexact-float".

Definition TWO52 : float := 4503599627370496.

(** [Math.floor]: below [2^52] in magnitude, adding and subtracting [2^52]
    rounds the magnitude to an integer, which is then corrected downwards;
    from [2^52] on every number is an integer.  NaN and the infinities are
    returned as they are. *)
Definition Math_floor (x : float) : float :=
  if abs x <? TWO52 then
    let nearest := (abs x + TWO52) - TWO52 in
    let below := if abs x <? nearest then nearest - 1 else nearest in
    if x <? 0 then (if below =? abs x then - below else - below - 1)
    else below
  else x.

(** [Math.ceil] *)
Definition Math_ceil (x : float) : float := - Math_floor (- x).

(** [Math.round]: the nearest integer, a tie going up. *)
Definition Math_round (x : float) : float :=
  let below := Math_floor x in
  if 0.5 <=? x - below then below + 1 else below.

(** [Math.min] and [Math.max] of two numbers: NaN when either is. *)
Definition Math_min (a b : float) : float :=
  if is_nan a || is_nan b then nan else if a <=? b then a else b.

Definition Math_max (a b : float) : float :=
  if is_nan a || is_nan b then nan else if a <=? b then b else a.

(** [xs.reduce((a, b) => a + b, 0)] *)
Definition sum (xs : list float) : float := fold_left add xs 0.

(** [xs.length] as a number. *)
Fixpoint len {A} (xs : list A) : float :=
  match xs with
  | [] => 0
  | _ :: xs' => len xs' + 1
  end.

(** [sorted[i]] for an integral [i] within the array. *)
Fixpoint at_ (sorted : list float) (i : float) : float :=
  match sorted with
  | [] => nan
  | x :: sorted' => if i <=? 0 then x else at_ sorted' (i - 1)
  end.

Definition quantile (sorted : list float) (q : float) : float :=
  match sorted with
  | [] => 0
  | [x] => x
  | _ =>
      let pos := q * (len sorted - 1) in
      let lower := Math_floor pos in
      let upper := Math_ceil pos in
      let fraction := pos - lower in
      if lower =? upper then at_ sorted lower
      else at_ sorted lower * (1 - fraction) + at_ sorted upper * fraction
  end.

Definition computeConfidence (sampleSize : float) (filteredValues : list float)
    (isFallback : bool) : float :=
  let sizeFactor := Math_min (sampleSize / 30) 1.0 in
  let consistencyFactor :=
    if (2 <=? List.length filteredValues)%nat then
      let mean := sum filteredValues / len filteredValues in
      if 0 <? mean then
        let variance :=
          fold_left (fun sum v => sum + (v - mean) * (v - mean)) filteredValues 0
          / len filteredValues in
        let cv := sqrt variance / mean in
        Math_max 0 (1.0 - cv)
      else 1.0
    else 1.0 in
  let rawScore := sizeFactor * 0.6 + consistencyFactor * 0.4 in
  let fallbackPenalty := if isFallback then 0.7 else 1.0 in
  Math_round (rawScore * fallbackPenalty * 100) / 100.

End Binary64.
(* ================================================================== *)
(** ** Specification-level definitions *)
(* ================================================================== *)

Section SpecConfidence.

Variable Math : JSMath.

Definition specMean (xs : list Q) : Q := sum xs / len xs.

(** Population standard deviation. *)
Definition specStdDev (xs : list Q) : Q :=
  Math_sqrt Math
    (fold_left (fun acc v => acc + (v - specMean xs) ^ 2) xs 0 / len xs).

Definition specSizeFactor (sampleSize : Q) : Q := Math_min (sampleSize / 30) 1.

(** [max(0, 1 - CV)], and 1 with fewer than two values or a mean [<= 0]. *)
Definition specConsistencyFactor (filteredValues : list Q) : Q :=
  if (List.length filteredValues <? 2)%nat || Qle_bool (specMean filteredValues) 0
  then 1
  else Math_max 0 (1 - specStdDev filteredValues / specMean filteredValues).

Definition specPenalty (isFallback : bool) : Q := if isFallback then 0.7 else 1.

Definition specRawScore (sampleSize : Q) (filteredValues : list Q) : Q :=
  specSizeFactor sampleSize * 0.6 + specConsistencyFactor filteredValues * 0.4.

(** [round(x, 2)] *)
Definition round2 (x : Q) : Q := Math_round (x * 100) / 100.

(** The score as the specification words it: round to two decimals, then
    apply the fallback penalty. *)
Definition specConfidenceRoundThenPenalty (sampleSize : Q)
    (filteredValues : list Q) (isFallback : bool) : Q :=
  round2 (specRawScore sampleSize filteredValues) * specPenalty isFallback.

(** The score with the penalty applied before the rounding. *)
Definition specConfidencePenaltyThenRound (sampleSize : Q)
    (filteredValues : list Q) (isFallback : bool) : Q :=
  round2 (specRawScore sampleSize filteredValues * specPenalty isFallback).

End SpecConfidence.

(** A rational stand-in for [Math], used to run the model on concrete
    inputs: [sqrt] rounds down to six decimals; the trigonometric functions
    are their leading Taylor terms. *)
Definition sqrtApprox (x : Q) : Q :=
  if Qle_bool x 0 then 0
  else inject_Z (Z.sqrt (Qfloor (x * 1000000000000))) / 1000000.

Definition sampleMath : JSMath :=
  {| Math_sqrt := sqrtApprox;
     Math_sin := fun x => x - x * x * x / 6;
     Math_cos := fun x => 1 - x * x / 2;
     Math_atan2 := fun y x => if Qle_bool x 0 then 1.5707963 else y / x;
     Math_PI := 3.14159265 |}.


(** [r] answers the exact-route lookup of [findMarketMedian]. *)
Definition exactMatch (origin destination : string) (r : RouteMedianResult.t)
    : Prop :=
  RouteMedianResult.origin r = origin
  /\ RouteMedianResult.destination r = destination.

(** [r] answers the province-level lookup of [findMarketMedian]. *)
Definition provinceMatch (origin destination : string)
    (r : RouteMedianResult.t) : Prop :=
  RouteMedianResult.isFallback r = true
  /\ RouteMedianResult.origin r = extractProvince origin
  /\ RouteMedianResult.destination r = extractProvince destination.

(** The market results the engine searches for a vehicle type. *)
Definition marketResultsFor (Math : JSMath) (store : Store)
    (vehicleType : string) : list RouteMedianResult.t :=
  analyzeMarketData Math
    (filter (fun d => String.eqb (PriceDataPoint.vehicleType d) vehicleType)
       (marketData store)).

(** The rate as a function of the lower-cased description alone. *)
Definition rateOfNormalized (normalized : string) (costs : CostVariables) : Q :=
  if someIncluded FRAGILE_KEYWORDS normalized then freight_risk_fragile costs
  else if someIncluded REFRIGERATED_KEYWORDS normalized
       then freight_risk_refrigerated costs
  else if someIncluded HAZARDOUS_KEYWORDS normalized
       then freight_risk_hazardous costs
  else 0.

Definition sampleStore : Store :=
  {| costMaster := [("fuel_price", 1700)];
     marketData :=
       [ PriceDataPoint.mk "Daegu/Suseong" "Ulsan/Nam" "11t" 410000;
         PriceDataPoint.mk "Seoul/Gangnam" "Busan/Haeundae" "5t" 520000 ] |}.

Definition sampleInput : FPHInput.t :=
  FPHInput.mk "Seoul/Gangnam" "Busan/Haeundae" "11t" (Some "General") None.

Definition singleObservation : list PriceDataPoint.t :=
  [PriceDataPoint.mk "Seoul/Gangnam" "Busan/Haeundae" "11t" 100].

(** The result the analyzer emits for [singleObservation]. *)
Definition sampleResult : RouteMedianResult.t :=
  {| RouteMedianResult.origin := "Seoul/Gangnam";
     RouteMedianResult.destination := "Busan/Haeundae";
     RouteMedianResult.vehicleType := "11t";
     RouteMedianResult.median := 100;
     RouteMedianResult.sampleSize := 1;
     RouteMedianResult.filteredSize := 1;
     RouteMedianResult.q1 := 100;
     RouteMedianResult.q3 := 100;
     RouteMedianResult.iqr := 0;
     RouteMedianResult.lowerBound := 0;
     RouteMedianResult.upperBound := 0;
     RouteMedianResult.confidenceScore := 0.29;
     RouteMedianResult.isFallback := true;
     RouteMedianResult.fallbackLevel := Some province |}.

(** A market with one well-observed route and two thin ones that share a
    province pair. *)
Definition sampleMarket : list PriceDataPoint.t :=
  [ PriceDataPoint.mk "Seoul/Gangnam" "Busan/Haeundae" "11t" 850000;
    PriceDataPoint.mk "Daegu/Suseong" "Ulsan/Nam" "11t" 410000;
    PriceDataPoint.mk "Seoul/Gangnam" "Busan/Haeundae" "11t" 860000;
    PriceDataPoint.mk "Seoul/Gangnam" "Busan/Haeundae" "11t" 845000;
    PriceDataPoint.mk "Daegu/Dalseo" "Ulsan/Jung" "11t" 399000;
    PriceDataPoint.mk "Seoul/Gangnam" "Busan/Haeundae" "11t" 870000;
    PriceDataPoint.mk "Daegu/Suseong" "Ulsan/Nam" "11t" 415000;
    PriceDataPoint.mk "Seoul/Gangnam" "Busan/Haeundae" "11t" 855000;
    PriceDataPoint.mk "Seoul/Gangnam" "Busan/Haeundae" "11t" 2000000 ].

(** *** Keys, groups and results *)

Definition routeKeyOf (d : PriceDataPoint.t) : RouteKey :=
  routeKey (PriceDataPoint.origin d) (PriceDataPoint.destination d)
    (PriceDataPoint.vehicleType d).

Definition provinceKeyOf (d : PriceDataPoint.t) : RouteKey :=
  provinceRouteKey (PriceDataPoint.origin d) (PriceDataPoint.destination d)
    (PriceDataPoint.vehicleType d).

Definition routeFresh (d : PriceDataPoint.t) : Group.t :=
  Group.mk (PriceDataPoint.origin d) (PriceDataPoint.destination d)
    (PriceDataPoint.vehicleType d) [].

Definition provinceFresh (d : PriceDataPoint.t) : Group.t :=
  Group.mk (extractProvince (PriceDataPoint.origin d))
    (extractProvince (PriceDataPoint.destination d))
    (PriceDataPoint.vehicleType d) [].

Definition withPrices (g : Group.t) (ps : list Q) : Group.t :=
  Group.mk (Group.origin g) (Group.destination g) (Group.vehicleType g) ps.

Definition groupBy (keyOf : PriceDataPoint.t -> RouteKey)
    (freshOf : PriceDataPoint.t -> Group.t) (data : list PriceDataPoint.t)
    : GroupMap :=
  fold_left
    (fun m d => addToGroup (keyOf d) (freshOf d) (PriceDataPoint.unitPrice d) m)
    data [].

Definition pricesFor (keyOf : PriceDataPoint.t -> RouteKey) (k : RouteKey)
    (data : list PriceDataPoint.t) : list Q :=
  map PriceDataPoint.unitPrice (filter (fun d => String.eqb (keyOf d) k) data).

Definition firstFor (keyOf : PriceDataPoint.t -> RouteKey) (k : RouteKey)
    (data : list PriceDataPoint.t) : option PriceDataPoint.t :=
  find (fun d => String.eqb (keyOf d) k) data.

Definition groupRouteKey (g : Group.t) : RouteKey :=
  routeKey (Group.origin g) (Group.destination g) (Group.vehicleType g).

Definition resultRouteKey (r : RouteMedianResult.t) : RouteKey :=
  routeKey (RouteMedianResult.origin r) (RouteMedianResult.destination r)
    (RouteMedianResult.vehicleType r).

Definition resultProvinceKey (r : RouteMedianResult.t) : RouteKey :=
  provinceRouteKey (RouteMedianResult.origin r) (RouteMedianResult.destination r)
    (RouteMedianResult.vehicleType r).

Definition isExactFor (k : RouteKey) (r : RouteMedianResult.t) : bool :=
  negb (RouteMedianResult.isFallback r) && String.eqb (resultRouteKey r) k.

Definition isFallbackFor (pk : RouteKey) (r : RouteMedianResult.t) : bool :=
  RouteMedianResult.isFallback r && String.eqb (resultProvinceKey r) pk.

Definition enough (g : Group.t) : bool :=
  Qle_bool MIN_SAMPLE_SIZE (len (Group.prices g)).

Definition smallWithKey (pk : RouteKey) (entry : RouteKey * Group.t) : bool :=
  negb (enough (snd entry)) && String.eqb (groupProvinceKey (snd entry)) pk.

Definition enoughWithKey (k : RouteKey) (entry : RouteKey * Group.t) : bool :=
  enough (snd entry) && String.eqb (groupRouteKey (snd entry)) k.


(** [s] has no vertical bar. *)
Fixpoint noBar (s : string) : bool :=
  match s with
  | EmptyString => true
  | String c s' => negb (Ascii.eqb c "|") && noBar s'
  end.

(** *** Quantiles *)

(** Position of quantile [q] in a list of [n] values. *)
Definition pos_of (q : Q) (s : list Q) : Q := q * (len s - 1).

Definition inBand (s : list Q) (v : Q) : bool :=
  Qle_bool (quantile s 0.25 - 1.5 * (quantile s 0.75 - quantile s 0.25)) v
  && Qle_bool v (quantile s 0.75 + 1.5 * (quantile s 0.75 - quantile s 0.25)).


(** *** Corridor keys *)

(** All the ways to read [key] as [prov1 ++ "→" ++ prov2]. *)
Fixpoint corridorSplits (key : string) : list (string * string) :=
  (if String.prefix "→" key
   then [(EmptyString, String.substring 3 (String.length key - 3) key)]
   else [])
  ++ match key with
     | EmptyString => []
     | String c key' =>
         map (fun p => (String c (fst p), snd p)) (corridorSplits key')
     end.

(** The province pairs that have an entry in [ROAD_DISTANCES], in the order
    in which their key spells them. *)
Definition corridorPairs : list (string * string) :=
  flat_map (fun entry => corridorSplits (fst entry)) ROAD_DISTANCES.

(** No corridor is listed under both spellings of its key. *)
Definition reverseAbsent (p : string * string) : bool :=
  match property ROAD_DISTANCES (snd p ++ "→" ++ fst p)%string with
  | Some _ => false
  | None => true
  end.

(* ================================================================== *)
(** ** Vocabulary of the further properties *)
(* ================================================================== *)

(** [a] comes no later than [b] in the order of the final sort. *)
Definition confidenceDescending (a b : RouteMedianResult.t) : Prop :=
  RouteMedianResult.confidenceScore b <= RouteMedianResult.confidenceScore a.

(** The consistency factor of [computeConfidence]. *)
Definition consistencyOf (Math : JSMath) (filteredValues : list Q) : Q :=
  if Qle_bool 2 (len filteredValues) then
    let mean := sum filteredValues / len filteredValues in
    if Qlt_bool 0 mean then
      let variance :=
        fold_left (fun sum v => sum + (v - mean) ^ 2) filteredValues 0
        / len filteredValues in
      let cv := Math_sqrt Math variance / mean in
      Math_max 0 (1.0 - cv)
    else 1.0
  else 1.0.


(** The item names [fetchCostVariables] reads. *)
Definition COST_ITEMS : list string :=
  [ "fuel_price"; "fuel_efficiency"; "toll_rate"; "vehicle_fixed_cost";
    "driver_profit_rate"; "company_margin_rate"; "freight_risk_fragile";
    "freight_risk_refrigerated"; "freight_risk_hazardous" ].

(** The request for the opposite direction. *)
Definition reverseRoute (input : FPHInput.t) : FPHInput.t :=
  {| FPHInput.origin := FPHInput.destination input;
     FPHInput.destination := FPHInput.origin input;
     FPHInput.vehicleType := FPHInput.vehicleType input;
     FPHInput.freightType := FPHInput.freightType input;
     FPHInput.manualAdjustmentRate := FPHInput.manualAdjustmentRate input |}.

(** The character [c] occurs in [s]. *)
Fixpoint hasChar (c : ascii) (s : string) : bool :=
  match s with
  | EmptyString => false
  | String x s' => Ascii.eqb x c || hasChar c s'
  end.

(** The label of a distance source among the data sources of a result. *)
Definition distanceLabel (source : DistanceSource) : string :=
  match source with
  | lookup => "RouteDistance (lookup)"
  | haversine => "RouteDistance (haversine estimate)"
  end.

(** The confidence of a result without market data, by distance source. *)
Definition confidenceWithoutMarket (source : DistanceSource) : Q :=
  match source with
  | lookup => 0.51
  | haversine => 0.39
  end.

(** [c] put in front of the first of [lines]. *)
Definition consHead (c : ascii) (lines : list string) : list string :=
  match lines with
  | [] => [String c EmptyString]
  | line :: lines' => String c line :: lines'
  end.

(** [s] without a carriage return at its end. *)
Fixpoint dropCR (s : string) : string :=
  match s with
  | EmptyString => EmptyString
  | String c s' =>
      match s' with
      | EmptyString => if Ascii.eqb c CR then EmptyString else s
      | String _ _ => String c (dropCR s')
      end
  end.

(** The lines [before] a line feed, followed by the lines [after] it: the
    last line before it gives up its carriage return to the line end. *)
Fixpoint joinLines (before after : list string) : list string :=
  match before with
  | [] => after
  | line :: before' =>
      match before' with
      | [] => dropCR line :: after
      | _ :: _ => line :: joinLines before' after
      end
  end.

(** Every character of [s] satisfies [p]. *)
Fixpoint allChars (p : ascii -> bool) (s : string) : bool :=
  match s with
  | EmptyString => true
  | String c s' => p c && allChars p s'
  end.

(** The field a header stands for: [mapping[normalizeHeader(header)]]. *)
Definition fieldOf {T} (mapping : list (string * T)) (header : string)
    : option T :=
  property mapping (normalizeHeader header).

(** What holds of the column map and the found fields after the headers
    [done]. *)
Definition headersInvariant {T} (mapping : list (string * T))
    (done : list string) (columnMap : list (nat * T)) (foundFields : list T)
    : Prop :=
  foundFields = map snd columnMap
  /\ NoDup foundFields
  /\ StronglySorted lt (map fst columnMap)
  /\ (forall i f, In (i, f) columnMap ->
        exists h, nth_error done i = Some h /\ fieldOf mapping h = Some f
                  /\ forall j h', (j < i)%nat -> nth_error done j = Some h' ->
                                  fieldOf mapping h' <> Some f)
  /\ (forall h f, In h done -> fieldOf mapping h = Some f -> In f foundFields).


(** A string that is set and not empty. *)
Definition present (s : option string) : Prop :=
  exists v, s = Some v /\ v <> EmptyString.

(** What [parseMarketDataCsv] requires of a row. *)
Definition validMarketRow (isValidDate : string -> bool) (row : MarketDataRow.t)
    : Prop :=
  (exists d, MarketDataRow.date row = Some d /\ d <> EmptyString
             /\ isValidDate d = true)
  /\ present (MarketDataRow.origin row)
  /\ present (MarketDataRow.destination row)
  /\ present (MarketDataRow.vehicleType row)
  /\ exists price, MarketDataRow.unitPrice row = Some price /\ 0 < price.

(** What [parseCostMasterCsv] requires of a row. *)
Definition validCostRow (row : CostMasterRow.t) : Prop :=
  (exists c, CostMasterRow.category row = Some c /\ In c validCategories)
  /\ present (CostMasterRow.item row)
  /\ (exists v, CostMasterRow.value row = Some v)
  /\ present (CostMasterRow.unit row).

(** The message of a rejected row begins with its number in the file. *)
Definition rowMessage (rowNum : nat) (message : string) : Prop :=
  exists rest, message = ("Row " ++ showNat rowNum ++ ": " ++ rest)%string.

(** The result of an import that stopped before the rows. *)
Definition refused {A} (result : ParseResult.t A) : Prop :=
  ParseResult.data result = []
  /\ ParseResult.totalRows result = 0%nat
  /\ List.length (ParseResult.errors result) = 1%nat.

(** The rows, numbered from [idx], are accounted for in file order: a valid
    row is the next accepted row, as [read] off its record; an invalid row
    gives the next message, which bears the number of the row in the file. *)
Fixpoint accounted {A} (valid : A -> Prop) (read : list string -> A)
    (rows : list (list string)) (idx : nat) (data : list A)
    (errors : list string) : Prop :=
  match rows with
  | [] => data = [] /\ errors = []
  | fields :: rows' =>
      (valid (read fields)
       /\ exists data',
            data = read fields :: data'
            /\ accounted valid read rows' (S idx) data' errors)
      \/ (~ valid (read fields)
          /\ exists message errors',
               errors = message :: errors'
               /\ rowMessage (idx + 2) message
               /\ accounted valid read rows' (S idx) data errors')
  end.

(** The result of an import of the rows of [records]: every record after
    the header is counted, and accounted for in order. *)
Definition imported {A} (valid : A -> Prop) (read : list string -> A)
    (records : list (list string)) (result : ParseResult.t A) : Prop :=
  S (ParseResult.totalRows result) = List.length records
  /\ (List.length (ParseResult.data result)
      + List.length (ParseResult.errors result)
      = ParseResult.totalRows result)%nat
  /\ accounted valid read (tl records) 0 (ParseResult.data result)
       (ParseResult.errors result).

(** A character of ASCII: on text of such characters [toLowerCase] and
    [trim] are those of the source. *)
Definition isAscii (c : ascii) : bool :=
  match c with
  | Ascii _ _ _ _ _ _ _ high => negb high
  end.

(** A market-data file: a header in other words than the field names, a
    line ending in carriage return and line feed, a price in quotes, a
    blank line, and a row without destination. *)
Definition sampleCsv : string :=
  ("Date, Departure ,Arrival,Ton Type,Cargo Type,Fare"
   ++ String CR (String LF
   ("2024-01-15, Seoul/Gangnam,Busan/Haeundae,11t,General,"
    ++ quoted "850,000" ++ String LF
   (String LF "2024-01-16,Seoul/Gangnam,,11t,General,5"))))%string.

(** A stand-in for [parseFloat] on the numerals of [sampleCsv]. *)
Definition sampleParseFloat (s : string) : option Q :=
  if String.eqb s "850000" then Some 850000
  else if String.eqb s "5" then Some 5
  else None.

(** A cost-master file: a valid row and a row whose value is no number. *)
Definition sampleCostCsv : string :=
  ("Category,Item,Value,Unit,Description" ++ String LF
   ("Variable,fuel_price,5,KRW/L,Diesel" ++ String LF
    "Fixed,insurance,abc,KRW,Yearly"))%string.

(* ================================================================== *)
(** ** Vocabulary of the amended claims *)
(* ================================================================== *)

(** *** The score formula in binary64 *)

Module SpecBinary64.

Import PrimFloat.
Local Open Scope float_scope.
#[local] Set Warnings "-inexact-float".

Definition specMean (xs : list float) : float := Binary64.sum xs / Binary64.len xs.

(** Population standard deviation. *)
Definition specStdDev (xs : list float) : float :=
  sqrt (fold_left (fun acc v => acc + (v - specMean xs) * (v - specMean xs)) xs 0
        / Binary64.len xs).

Definition specSizeFactor (sampleSize : float) : float :=
  Binary64.Math_min (sampleSize / 30) 1.

(** [max(0, 1 - CV)], and 1 with fewer than two values or a mean that is
    not above 0. *)
Definition specConsistencyFactor (filteredValues : list float) : float :=
  if (List.length filteredValues <? 2)%nat || negb (0 <? specMean filteredValues)
  then 1
  else Binary64.Math_max 0
         (1 - specStdDev filteredValues / specMean filteredValues).

Definition specPenalty (isFallback : bool) : float := if isFallback then 0.7 else 1.

Definition specRawScore (sampleSize : float) (filteredValues : list float) : float :=
  specSizeFactor sampleSize * 0.6 + specConsistencyFactor filteredValues * 0.4.

(** [round(x, 2)] *)
Definition round2 (x : float) : float := Binary64.Math_round (x * 100) / 100.

(** The score with the penalty applied before the rounding. *)
Definition specConfidencePenaltyThenRound (sampleSize : float)
    (filteredValues : list float) (isFallback : bool) : float :=
  round2 (specRawScore sampleSize filteredValues * specPenalty isFallback).

(** The score as the specification words it: round to two decimals, then
    apply the fallback penalty. *)
Definition specConfidenceRoundThenPenalty (sampleSize : float)
    (filteredValues : list float) (isFallback : bool) : float :=
  round2 (specRawScore sampleSize filteredValues) * specPenalty isFallback.


(** Two prices whose sum overflows. *)
Definition overflowSampleSize : float := 2.
Definition overflowValues : list float := [1e308; 1e308].

(** Two adjacent numbers. *)
Definition adjacentValues : list float := [0.1; 0.10000000000000002].
Definition quarter : float := 0.25.
Definition threeQuarters : float := 0.75.

End SpecBinary64.

(** *** What a result is computed from *)



(** *** Routes as triples *)

(** [x] is an observation of the route [(o, d, v)]. *)
Definition sameRoute (o d v : string) (x : PriceDataPoint.t) : bool :=
  String.eqb (PriceDataPoint.origin x) o
  && String.eqb (PriceDataPoint.destination x) d
  && String.eqb (PriceDataPoint.vehicleType x) v.

(** Number of observations of the route [(o, d, v)]. *)
Definition observations (o d v : string) (data : list PriceDataPoint.t) : nat :=
  List.length (filter (sameRoute o d v) data).

(** [r] bears the labels [(o, d, v)]. *)
Definition labelled (o d v : string) (r : RouteMedianResult.t) : bool :=
  String.eqb (RouteMedianResult.origin r) o
  && String.eqb (RouteMedianResult.destination r) d
  && String.eqb (RouteMedianResult.vehicleType r) v.

(** The labels of [r] lie in the provinces of [o] and [d], with vehicle
    type [v]. *)
Definition inProvinces (o d v : string) (r : RouteMedianResult.t) : bool :=
  String.eqb (extractProvince (RouteMedianResult.origin r)) (extractProvince o)
  && String.eqb (extractProvince (RouteMedianResult.destination r))
       (extractProvince d)
  && String.eqb (RouteMedianResult.vehicleType r) v.

(** The non-fallback results labelled [(o, d, v)], and the fallback results
    of its province pair. *)
Definition exactFor (o d v : string) (r : RouteMedianResult.t) : bool :=
  negb (RouteMedianResult.isFallback r) && labelled o d v r.

Definition fallbackFor (o d v : string) (r : RouteMedianResult.t) : bool :=
  RouteMedianResult.isFallback r && inProvinces o d v r.

(** No origin and no destination contains a vertical bar. *)
Definition barFree (data : list PriceDataPoint.t) : bool :=
  forallb (fun x => noBar (PriceDataPoint.origin x)
                    && noBar (PriceDataPoint.destination x)) data.

(** Two routes, five observations each, whose keys are the same string. *)
Definition collidingMarket : list PriceDataPoint.t :=
  repeat (PriceDataPoint.mk "A||B" "C" "5t" 100) 5
  ++ repeat (PriceDataPoint.mk "A" "B||C" "5t" 200) 5.

(** *** Amounts *)

(** Whole amounts of at most [2^50] in magnitude: on these the quartiles
    are computed without rounding. *)
Definition wholeAmounts (values : list Q) : Prop :=
  Forall (fun v => v == inject_Z (Qfloor v)
                  /\ - inject_Z (2 ^ 50) <= v <= inject_Z (2 ^ 50)) values.

(** The values inside the band of an IQR result. *)
Definition withinBand (r : IQRResult.t) (v : Q) : bool :=
  Qle_bool (IQRResult.lowerBound r) v && Qle_bool v (IQRResult.upperBound r).

(** Amounts far from the overflow threshold of binary64: sums and squares
    of such amounts stay finite. *)
Definition AMOUNT_LIMIT : Q := inject_Z (10 ^ 100).

Definition withinLimit (v : Q) : Prop := - AMOUNT_LIMIT <= v <= AMOUNT_LIMIT.

Definition pricesWithinLimit (data : list PriceDataPoint.t) : Prop :=
  Forall (fun d => withinLimit (PriceDataPoint.unitPrice d)) data.

(** The cost variables of Tier 1 within the amount limit, the default
    fuel efficiency not below its inverse. *)
Definition costsWithinLimit (costs : CostVariables) : Prop :=
  Forall withinLimit
    [fuel_price costs; fuel_efficiency costs; toll_rate costs;
     vehicle_fixed_cost costs; driver_profit_rate costs]
  /\ 1 <= fuel_efficiency costs * AMOUNT_LIMIT.

(** A well-observed route between two provinces, and one observation
    between districts of the same provinces. *)
Definition overlappingMarket : list PriceDataPoint.t :=
  repeat (PriceDataPoint.mk "Seoul" "Busan" "11t" 100) 5
  ++ [PriceDataPoint.mk "Seoul/Gangnam" "Busan/Haeundae" "11t" 120].
(* ================================================================== *)
(** ** Arithmetic of the primitives *)
(* ================================================================== *)

Lemma Qle_bool_true (a b : Q) : Qle_bool a b = true <-> a <= b.
Proof. apply Qle_bool_iff. Qed.

Lemma Qle_bool_false (a b : Q) : Qle_bool a b = false <-> b < a.
Proof.
  split; intro H.
  - apply Qnot_le_lt. intro Hle. apply Qle_bool_iff in Hle. congruence.
  - destruct (Qle_bool a b) eqn:E; [|reflexivity].
    apply Qle_bool_iff in E. exfalso. lra.
Qed.

Lemma Qle_bool_comp (a a' b b' : Q) :
  a == a' -> b == b' -> Qle_bool a b = Qle_bool a' b'.
Proof.
  intros Ha Hb.
  destruct (Qle_bool a b) eqn:E1, (Qle_bool a' b') eqn:E2; try reflexivity;
    rewrite ?Qle_bool_true, ?Qle_bool_false in *; exfalso; lra.
Qed.

Lemma Qlt_bool_true (a b : Q) : Qlt_bool a b = true <-> a < b.
Proof.
  unfold Qlt_bool. rewrite negb_true_iff. apply Qle_bool_false.
Qed.

Lemma Qlt_bool_false (a b : Q) : Qlt_bool a b = false <-> b <= a.
Proof.
  unfold Qlt_bool. rewrite negb_false_iff. apply Qle_bool_true.
Qed.

Lemma inject_Z_pred (z : Z) : inject_Z (z - 1) == inject_Z z - 1.
Proof.
  unfold Z.sub. rewrite inject_Z_plus, inject_Z_opp. reflexivity.
Qed.

Lemma inject_Z_succ (z : Z) : inject_Z (z + 1) == inject_Z z + 1.
Proof. rewrite inject_Z_plus. reflexivity. Qed.

Lemma Math_round_lower (x : Q) : x - 0.5 < Math_round x.
Proof.
  unfold Math_round. pose proof (Qlt_floor (x + 0.5)) as H.
  rewrite inject_Z_succ in H. lra.
Qed.

Lemma Math_round_upper (x : Q) : Math_round x <= x + 0.5.
Proof. unfold Math_round. apply Qfloor_le. Qed.

Lemma Math_round_mono (x y : Q) : x <= y -> Math_round x <= Math_round y.
Proof.
  intro H. unfold Math_round. rewrite <- Zle_Qle. apply Qfloor_resp_le. lra.
Qed.

Lemma Math_round_comp (x y : Q) : x == y -> Math_round x = Math_round y.
Proof.
  intro H. unfold Math_round. f_equal. apply Qfloor_comp. rewrite H. reflexivity.
Qed.

Lemma Math_round_Z (z : Z) : Math_round (inject_Z z) = inject_Z z.
Proof.
  unfold Math_round. f_equal.
  set (f := Qfloor (inject_Z z + 0.5)).
  assert (H1 : inject_Z f <= inject_Z z + 0.5) by apply Qfloor_le.
  assert (H2 : inject_Z z + 0.5 < inject_Z (f + 1)) by apply Qlt_floor.
  rewrite inject_Z_succ in H2.
  assert (H3 : inject_Z f < inject_Z (z + 1)) by (rewrite inject_Z_succ; lra).
  assert (H4 : inject_Z (z - 1) < inject_Z f) by (rewrite inject_Z_pred; lra).
  rewrite <- Zlt_Qlt in H3, H4. lia.
Qed.

Lemma Math_min_cases (a b : Q) :
  (a <= b /\ Math_min a b = a) \/ (b < a /\ Math_min a b = b).
Proof.
  unfold Math_min. destruct (Qle_bool a b) eqn:E.
  - left. split; [now apply Qle_bool_true | reflexivity].
  - right. split; [now apply Qle_bool_false | reflexivity].
Qed.

Lemma Math_max_cases (a b : Q) :
  (a <= b /\ Math_max a b = b) \/ (b < a /\ Math_max a b = a).
Proof.
  unfold Math_max. destruct (Qle_bool a b) eqn:E.
  - left. split; [now apply Qle_bool_true | reflexivity].
  - right. split; [now apply Qle_bool_false | reflexivity].
Qed.

Lemma Math_min_comp (a a' b b' : Q) :
  a == a' -> b == b' -> Math_min a b == Math_min a' b'.
Proof.
  intros Ha Hb.
  destruct (Math_min_cases a b) as [[? ->]|[? ->]],
           (Math_min_cases a' b') as [[? ->]|[? ->]]; lra.
Qed.

Lemma Math_max_comp (a a' b b' : Q) :
  a == a' -> b == b' -> Math_max a b == Math_max a' b'.
Proof.
  intros Ha Hb.
  destruct (Math_max_cases a b) as [[? ->]|[? ->]],
           (Math_max_cases a' b') as [[? ->]|[? ->]]; lra.
Qed.

Lemma len_nonneg {A} (xs : list A) : 0 <= len xs.
Proof.
  unfold len. change 0 with (inject_Z 0). rewrite <- Zle_Qle. lia.
Qed.

Lemma len_cons {A} (x : A) (xs : list A) : len (x :: xs) == len xs + 1.
Proof.
  unfold len. cbn [List.length]. rewrite Nat2Z.inj_succ, <- Z.add_1_r.
  apply inject_Z_succ.
Qed.


Lemma len_lt_5 {A} (xs : list A) :
  Qle_bool MIN_SAMPLE_SIZE (len xs) = false <-> (List.length xs < 5)%nat.
Proof.
  rewrite Qle_bool_false. unfold len, MIN_SAMPLE_SIZE.
  change 5 with (inject_Z 5). rewrite <- Zlt_Qlt. lia.
Qed.

Lemma len_ge_5 {A} (xs : list A) :
  Qle_bool MIN_SAMPLE_SIZE (len xs) = true <-> (5 <= List.length xs)%nat.
Proof.
  rewrite Qle_bool_true. unfold len, MIN_SAMPLE_SIZE.
  change 5 with (inject_Z 5). rewrite <- Zle_Qle. lia.
Qed.

(* ================================================================== *)
(** ** Tier 3: the rounding policy *)
(* ================================================================== *)

Lemma ceilTo1000_multiple (v : Q) :
  ceilTo1000 v = inject_Z (Qceiling (v / 1000) * 1000).
Proof.
  unfold ceilTo1000, Math_ceil. rewrite inject_Z_mult. reflexivity.
Qed.

Lemma ceilTo1000_ge (v : Q) : v <= ceilTo1000 v.
Proof.
  unfold ceilTo1000, Math_ceil.
  pose proof (Qle_ceiling (v / 1000)) as H.
  assert (Hv : v == v / 1000 * 1000) by (field; discriminate).
  lra.
Qed.

Lemma ceilTo1000_lt (v : Q) : ceilTo1000 v < v + 1000.
Proof.
  unfold ceilTo1000, Math_ceil.
  pose proof (Qceiling_lt (v / 1000)) as H. rewrite inject_Z_pred in H.
  assert (Hv : v == v / 1000 * 1000) by (field; discriminate).
  lra.
Qed.

Lemma ceilTo1000_fixed (k : Z) :
  ceilTo1000 (inject_Z (k * 1000)) == inject_Z (k * 1000).
Proof.
  unfold ceilTo1000, Math_ceil.
  assert (H : inject_Z (k * 1000) / 1000 == inject_Z k).
  { rewrite inject_Z_mult. field. }
  rewrite (Qceiling_comp _ _ H), Qceiling_Z, inject_Z_mult. reflexivity.
Qed.

(** The rounding law.  Tier 3 adds to the Tier 2 price the rounded company
    margin, the rounded freight risk surcharge and the rounded manual
    adjustment, and its final price is
    [ceil(subtotalBeforeRounding / 1000) * 1000]: an integral multiple of
    1000, never below the subtotal and less than 1000 above it, whatever the
    sign of the manual adjustment.  Every pricing run that returns finite
    amounts reports this price of its own Tier 2 price, freight type and
    manual rate as [tier3_final].  A value already divisible by 1000 is
    left unchanged, [ceilTo1000(850000) = 850000] and
    [ceilTo1000(850001) = 851000]. *)
Theorem tier3_final_price_rounds_up_to_1000 :
  (forall (tier2Price : Q) (freightType : option string)
          (manualAdjustmentRate : Q) (costs : CostVariables),
      let t := calculateTier3 tier2Price freightType manualAdjustmentRate costs in
      let subtotal := Tier3Breakdown.subtotalBeforeRounding t in
      subtotal
      = tier2Price + Math_round (tier2Price * company_margin_rate costs)
        + Math_round (tier2Price * getFreightRiskRate freightType costs)
        + Math_round (tier2Price * manualAdjustmentRate)
      /\ Tier3Breakdown.finalPrice t = Math_ceil (subtotal / 1000) * 1000
      /\ (exists k : Z, Tier3Breakdown.finalPrice t = inject_Z (k * 1000))
      /\ subtotal <= Tier3Breakdown.finalPrice t
      /\ Tier3Breakdown.finalPrice t < subtotal + 1000)
  /\ (forall (Math : JSMath) (store : Store) (input : FPHInput.t)
             (result : FPHResult.t),
         calculateFPHPrice Math store input = Returned result ->
         FPHResult.tier3 result
         = calculateTier3 (Tier2Breakdown.adjustedPrice (FPHResult.tier2 result))
             (FPHInput.freightType input)
             (withDefault (FPHInput.manualAdjustmentRate input) 0)
             (fetchCostVariables store)
         /\ Summary.tier3_final (FPHResult.summary result)
            = Tier3Breakdown.finalPrice (FPHResult.tier3 result)
         /\ exists k : Z,
              Summary.tier3_final (FPHResult.summary result)
              = inject_Z (k * 1000))
  /\ (forall k : Z, ceilTo1000 (inject_Z (k * 1000)) == inject_Z (k * 1000))
  /\ ceilTo1000 850000 == 850000
  /\ ceilTo1000 850001 == 851000.
Proof.
  split.
  { intros tier2Price freightType rate costs t subtotal.
    assert (Hf : Tier3Breakdown.finalPrice t = ceilTo1000 subtotal) by reflexivity.
    split; [reflexivity|]. split; [reflexivity|]. split.
    - rewrite Hf. eexists. apply ceilTo1000_multiple.
    - split; rewrite Hf; [apply ceilTo1000_ge | apply ceilTo1000_lt]. }
  split.
  { intros Math store input result H. unfold calculateFPHPrice in H.
    destruct (getRouteDistance Math _ _) as [distance|]; [|discriminate].
    destruct (calculateTier1 distance _ _) as [tier1|]; [|discriminate].
    injection H as <-.
    cbn [FPHResult.tier3 FPHResult.tier2 FPHResult.summary Summary.tier3_final].
    split; [reflexivity|]. split; [reflexivity|].
    eexists. apply ceilTo1000_multiple. }
  split; [apply ceilTo1000_fixed|]. split; reflexivity.
Qed.

Lemma tier3_final_price_rounds_up_to_1000_witness :
  exists result k,
    calculateFPHPrice sampleMath sampleStore sampleInput = Returned result
    /\ Summary.tier3_final (FPHResult.summary result) = inject_Z (k * 1000).
Proof.
  eexists.
  assert (H : calculateFPHPrice sampleMath sampleStore sampleInput = Returned _)
    by (vm_compute; reflexivity).
  destruct (proj1 (proj2 tier3_final_price_rounds_up_to_1000) _ _ _ _ H)
    as (_ & _ & k & Hk).
  exists k. split; [exact H | exact Hk].
Defined.

(** C6 (code defect).  The engine announces a final price that is always
    rounded up to the nearest 1,000 KRW.  The vehicle type "constructor"
    names a method every object inherits: the efficiency table answers it
    with that method, the default efficiency is not used, the fuel cost is
    NaN, and so is every amount the run returns, the final price among
    them: not a multiple of 1000. *)
Theorem calculateFPHPrice_final_price_not_finite :
  member VEHICLE_EFFICIENCY "constructor" = Inherited
  /\ getEfficiency "constructor" (fuel_efficiency (fetchCostVariables sampleStore))
     = None
  /\ calculateFPHPrice sampleMath sampleStore
       (FPHInput.mk "Seoul/Gangnam" "Busan/Haeundae" "constructor"
          (Some "General") None)
     = NotFinite.
Proof. split; [reflexivity|]. split; [reflexivity|]. vm_compute. reflexivity. Qed.

(* ================================================================== *)
(** ** Tier 2: pass-through without market data *)
(* ================================================================== *)


Lemma find_none_iff {A} (f : A -> bool) (xs : list A) :
  find f xs = None <-> forall x, In x xs -> f x = false.
Proof.
  split.
  - apply find_none.
  - induction xs as [|x xs IH]; intro H; [reflexivity|].
    cbn. rewrite (H x (or_introl eq_refl)). apply IH.
    intros y Hy. apply H. now right.
Qed.

Lemma findMarketMedian_none (Math : JSMath) (store : Store)
    (origin destination vehicleType : string) :
  (forall r, In r (marketResultsFor Math store vehicleType) ->
             ~ exactMatch origin destination r
             /\ ~ provinceMatch origin destination r) ->
  findMarketMedian Math store origin destination vehicleType = None.
Proof.
  unfold marketResultsFor, findMarketMedian. intro H.
  destruct (filter _ (marketData store)) as [|d ds] eqn:E; [reflexivity|].
  set (results := analyzeMarketData Math (d :: ds)) in *.
  assert (H1 : find (fun r => String.eqb (RouteMedianResult.origin r) origin
                       && String.eqb (RouteMedianResult.destination r) destination)
                 results = None).
  { apply find_none_iff. intros r Hr. destruct (H r Hr) as [Hex _].
    apply not_true_is_false. intro Ht. apply andb_true_iff in Ht.
    destruct Ht as [Ho Hd]. apply String.eqb_eq in Ho, Hd. apply Hex. now split. }
  rewrite H1. apply find_none_iff. intros r Hr. destruct (H r Hr) as [_ Hpr].
  apply not_true_is_false. intro Ht. rewrite !andb_true_iff in Ht.
  destruct Ht as [[Hf Ho] Hd]. apply String.eqb_eq in Ho, Hd.
  apply Hpr. repeat split; assumption.
Qed.

(** C5.  When the market results for the vehicle type hold neither an
    exact-route result nor a province-level result for the requested route,
    Tier 2 passes the Tier 1 price through: in the result of the run
    [tier2.adjustedPrice] is [tier1.subtotal] itself, [confidenceScore = 0]
    and [hasMarketData = false]; and the run returns a result whenever the
    distance and Tier 1 are computed, the missing market data being no
    error. *)
Theorem tier2_pass_through_without_market_data :
  forall (Math : JSMath) (store : Store) (input : FPHInput.t),
    (forall r,
        In r (marketResultsFor Math store (FPHInput.vehicleType input)) ->
        ~ exactMatch (FPHInput.origin input) (FPHInput.destination input) r
        /\ ~ provinceMatch (FPHInput.origin input) (FPHInput.destination input) r) ->
    (forall result,
        calculateFPHPrice Math store input = Returned result ->
        Tier2Breakdown.adjustedPrice (FPHResult.tier2 result)
          = Tier1Breakdown.subtotal (FPHResult.tier1 result)
        /\ Tier2Breakdown.confidenceScore (FPHResult.tier2 result) = 0
        /\ Tier2Breakdown.hasMarketData (FPHResult.tier2 result) = false
        /\ Tier2Breakdown.marketMedian (FPHResult.tier2 result) = None
        /\ Summary.tier2_adjusted (FPHResult.summary result)
           = Summary.tier1_base (FPHResult.summary result))
    /\ (forall distance tier1,
           getRouteDistance Math (FPHInput.origin input)
             (FPHInput.destination input) = Some distance ->
           calculateTier1 distance (FPHInput.vehicleType input)
             (fetchCostVariables store) = Some tier1 ->
           exists result,
             calculateFPHPrice Math store input = Returned result
             /\ FPHResult.tier1 result = tier1).
Proof.
  intros Math store input H.
  pose proof (findMarketMedian_none Math store _ _ _ H) as Hnone.
  split.
  - intros result Hr. unfold calculateFPHPrice in Hr.
    destruct (getRouteDistance Math _ _) as [distance|]; [|discriminate].
    destruct (calculateTier1 distance _ _) as [tier1|]; [|discriminate].
    injection Hr as <-.
    cbn [FPHResult.tier1 FPHResult.tier2 FPHResult.summary
         Summary.tier2_adjusted Summary.tier1_base].
    rewrite Hnone. cbn. repeat split; reflexivity.
  - intros distance tier1 Hd Ht. unfold calculateFPHPrice.
    rewrite Hd, Ht. eexists. split; reflexivity.
Qed.

Lemma tier2_pass_through_witness :
  exists result,
    calculateFPHPrice sampleMath sampleStore sampleInput = Returned result
    /\ Tier2Breakdown.adjustedPrice (FPHResult.tier2 result)
       = Tier1Breakdown.subtotal (FPHResult.tier1 result)
    /\ Tier2Breakdown.confidenceScore (FPHResult.tier2 result) = 0
    /\ Tier2Breakdown.hasMarketData (FPHResult.tier2 result) = false
    /\ Tier2Breakdown.marketMedian (FPHResult.tier2 result) = None
    /\ Summary.tier2_adjusted (FPHResult.summary result)
       = Summary.tier1_base (FPHResult.summary result).
Proof.
  eexists.
  assert (Hr : calculateFPHPrice sampleMath sampleStore sampleInput = Returned _)
    by (vm_compute; reflexivity).
  split; [exact Hr|].
  apply (proj1 (tier2_pass_through_without_market_data sampleMath sampleStore
                  sampleInput
                  ltac:(intros r Hin; vm_compute in Hin; destruct Hin as [<- | []];
                        split; [intros [Ho _] | intros [_ [Ho _]]];
                        vm_compute in Ho; discriminate Ho))).
  exact Hr.
Defined.

(* ================================================================== *)
(** ** Tier 3: freight risk keywords *)
(* ================================================================== *)

Lemma prefix_spec (k s : string) :
  String.prefix k s = true <-> exists post, s = (k ++ post)%string.
Proof.
  revert s. induction k as [|c k IH]; intro s.
  - split; [intros _; now exists s | intros _; now destruct s].
  - destruct s as [|d s]; cbn.
    + split; [discriminate | intros [post H]; discriminate H].
    + destruct (ascii_dec c d) as [->|Hne].
      * rewrite IH. split; intros [post H]; exists post; [now rewrite H | now inversion H].
      * split; [discriminate | intros [post H]; inversion H; congruence].
Qed.

(** [includes] is substring containment. *)
Lemma includes_spec (s k : string) :
  includes s k = true <-> exists pre post, s = (pre ++ k ++ post)%string.
Proof.
  induction s as [|c s IH].
  - cbn [includes]. rewrite orb_false_r, prefix_spec. split.
    + intros [post H]. now exists EmptyString, post.
    + intros [pre [post H]]. destruct pre; [now exists post | discriminate H].
  - cbn [includes]. rewrite orb_true_iff, prefix_spec, IH. split.
    + intros [[post H] | [pre [post H]]].
      * now exists EmptyString, post.
      * exists (String c pre), post. cbn. now rewrite H.
    + intros [pre [post H]]. destruct pre as [|d pre].
      * left. now exists post.
      * right. exists pre, post. cbn in H. now inversion H.
Qed.

Lemma toLowerCase_empty (s : string) :
  toLowerCase s = EmptyString <-> s = EmptyString.
Proof. destruct s; cbn; split; intro H; try reflexivity; discriminate H. Qed.

Lemma lowerChar_idem (c : ascii) : lowerChar (lowerChar c) = lowerChar c.
Proof.
  destruct c as [[] [] [] [] [] [] [] []]; reflexivity.
Qed.

Lemma toLowerCase_idem (s : string) : toLowerCase (toLowerCase s) = toLowerCase s.
Proof.
  induction s as [|c s IH]; cbn; [reflexivity|].
  now rewrite lowerChar_idem, IH.
Qed.

Lemma string_app_assoc (a b c : string) :
  ((a ++ b) ++ c)%string = (a ++ b ++ c)%string.
Proof. induction a as [|x a IH]; cbn; [reflexivity | now rewrite IH]. Qed.

Lemma toLowerCase_app (a b : string) :
  toLowerCase (a ++ b) = (toLowerCase a ++ toLowerCase b)%string.
Proof. induction a as [|c a IH]; cbn; [reflexivity | now rewrite IH]. Qed.


Lemma rateOfNormalized_empty (costs : CostVariables) :
  rateOfNormalized EmptyString costs = 0.
Proof. reflexivity. Qed.

Lemma getFreightRiskRate_normalized (s : string) (costs : CostVariables) :
  getFreightRiskRate (Some s) costs = rateOfNormalized (toLowerCase s) costs.
Proof. destruct s; reflexivity. Qed.

(** C10.  [getFreightRiskRate] tests the keyword sets in the order fragile,
    refrigerated, hazardous and returns the rate of the first set with a
    keyword occurring in the lower-cased description; a description matching
    several sets (such as one with both "frozen" and "glass") gets the fragile
    rate; descriptions that differ only in letter case get the same rate;
    an absent, empty or unmatched freight type gets rate 0. *)
Theorem getFreightRiskRate_first_matching_set :
  forall (costs : CostVariables),
    getFreightRiskRate None costs = 0
    /\ (forall s : string,
          getFreightRiskRate (Some s) costs
          = if someIncluded FRAGILE_KEYWORDS (toLowerCase s)
            then freight_risk_fragile costs
            else if someIncluded REFRIGERATED_KEYWORDS (toLowerCase s)
            then freight_risk_refrigerated costs
            else if someIncluded HAZARDOUS_KEYWORDS (toLowerCase s)
            then freight_risk_hazardous costs
            else 0)
    /\ (forall (ks : list string) (s : string),
          someIncluded ks s = true
          <-> exists k pre post, In k ks /\ s = (pre ++ k ++ post)%string)
    /\ (forall s t : string,
          toLowerCase s = toLowerCase t ->
          getFreightRiskRate (Some s) costs = getFreightRiskRate (Some t) costs)
    /\ (forall pre mid post : string,
          getFreightRiskRate (Some (pre ++ "frozen" ++ mid ++ "glass" ++ post)%string)
            costs
          = freight_risk_fragile costs)
    /\ getFreightRiskRate (Some "Frozen GLASS panels") costs
       = freight_risk_fragile costs
    /\ getFreightRiskRate (Some "Refrigerated") costs
       = freight_risk_refrigerated costs
    /\ getFreightRiskRate (Some "General") costs = 0.
Proof.
  intro costs. split; [reflexivity|]. split.
  { intro s. apply getFreightRiskRate_normalized. }
  split.
  { intros ks s. unfold someIncluded. rewrite existsb_exists. split.
    - intros [k [Hin Hk]]. apply includes_spec in Hk.
      destruct Hk as [pre [post Hs]]. now exists k, pre, post.
    - intros [k [pre [post [Hin Hs]]]]. exists k. split; [assumption|].
      apply includes_spec. now exists pre, post. }
  split.
  { intros s t H. now rewrite !getFreightRiskRate_normalized, H. }
  split; [|repeat split; reflexivity].
  intros pre mid post. rewrite getFreightRiskRate_normalized.
  unfold rateOfNormalized.
  assert (H : someIncluded FRAGILE_KEYWORDS
                (toLowerCase (pre ++ "frozen" ++ mid ++ "glass" ++ post)) = true).
  { unfold someIncluded. apply existsb_exists. exists "glass". split.
    - cbn. tauto.
    - apply includes_spec.
      exists (toLowerCase (pre ++ "frozen" ++ mid)), (toLowerCase post).
      rewrite !toLowerCase_app, !string_app_assoc. reflexivity. }
  now rewrite H.
Qed.

Lemma getFreightRiskRate_witness :
  getFreightRiskRate (Some "FROZEN Glass") COST_DEFAULTS
  = getFreightRiskRate (Some "frozen glass") COST_DEFAULTS.
Proof.
  destruct (getFreightRiskRate_first_matching_set COST_DEFAULTS)
    as (_ & _ & _ & Hcase & _).
  apply Hcase. reflexivity.
Defined.

(* ================================================================== *)
(** ** Batch simulation: failures are isolated *)
(* ================================================================== *)

Section BatchProofs.

Variables Request Result : Type.
Variable originOf destinationOf : Request -> option string.
Variable calculateFPHPrice : Request -> Completion Result.
Variable jsonCopy : Result -> Result.

Local Abbreviation loop := (batchLoop originOf destinationOf calculateFPHPrice jsonCopy).
Local Abbreviation priced := (pricedOf calculateFPHPrice jsonCopy).
Local Abbreviation failed := (failedFrom originOf destinationOf calculateFPHPrice).
Local Abbreviation label := (routeLabel originOf destinationOf).

Lemma batchLoop_spec (requests : list Request) :
  forall i results errors,
    loop i (map Value requests) results errors
    = Some (results ++ priced requests, errors ++ failed i requests).
Proof.
  induction requests as [|input rest IH]; intros i results errors.
  - cbn. now rewrite !app_nil_r.
  - cbn [map batchLoop pricedOf failedFrom flat_map].
    destruct (calculateFPHPrice input) as [result | message].
    + rewrite IH, <- app_assoc. reflexivity.
    + rewrite IH, <- app_assoc. reflexivity.
Qed.

(** A nullish element makes the action throw once the loop reaches it,
    whatever comes before and after. *)
Lemma batchLoop_nullish (before : list Request) (after : list (Any Request)) :
  forall i results errors,
    loop i (map Value before ++ Nullish :: after) results errors = None.
Proof.
  induction before as [|input rest IH]; intros i results errors.
  - reflexivity.
  - cbn [map app batchLoop]. destruct (calculateFPHPrice input); apply IH.
Qed.


Lemma priced_failed_length (requests : list Request) (i : nat) :
  (List.length (priced requests) + List.length (failed i requests)
   = List.length requests)%nat.
Proof.
  revert i.
  induction requests as [|input rest IH]; intro i; [reflexivity|].
  cbn [pricedOf failedFrom flat_map List.length].
  destruct (calculateFPHPrice input) as [result | message].
  - rewrite length_app. cbn [List.length]. specialize (IH (S i)).
    unfold pricedOf in IH. lia.
  - cbn [app List.length]. specialize (IH (S i)). unfold pricedOf in IH. lia.
Qed.

Lemma failed_index_bounds (requests : list Request) (i : nat) (e : BatchError.t) :
  In e (failed i requests) ->
  (i <= BatchError.index e < i + List.length requests)%nat.
Proof.
  revert i.
  induction requests as [|input rest IH]; intros i Hin; [destruct Hin|].
  cbn [failedFrom] in Hin. cbn [List.length].
  destruct (calculateFPHPrice input) as [result | message].
  - apply IH in Hin. lia.
  - destruct Hin as [<- | Hin]; [cbn; lia | apply IH in Hin; lia].
Qed.

(** The error entries are exactly the failed requests, each under its own
    position. *)
Lemma failed_In (requests : list Request) (i : nat) (e : BatchError.t) :
  In e (failed i requests) <->
  exists j input message,
    nth_error requests j = Some input
    /\ calculateFPHPrice input = Rejected message
    /\ e = BatchError.mk (i + j) (label input) (messageOf message).
Proof.
  revert i.
  induction requests as [|input rest IH]; intro i.
  - cbn. split; [intros [] | intros [j [x [m [H _]]]]; destruct j; discriminate H].
  - cbn [failedFrom]. split.
    + intro Hin. destruct (calculateFPHPrice input) as [result | message] eqn:E.
      * apply IH in Hin. destruct Hin as [j [x [m [Hn [Hc He]]]]].
        exists (S j), x, m. repeat split; try assumption.
        rewrite He. f_equal. lia.
      * destruct Hin as [<- | Hin].
        -- exists 0%nat, input, message. rewrite Nat.add_0_r. now repeat split.
        -- apply IH in Hin. destruct Hin as [j [x [m [Hn [Hc He]]]]].
           exists (S j), x, m. repeat split; try assumption.
           rewrite He. f_equal. lia.
    + intros [j [x [m [Hn [Hc He]]]]]. destruct j as [|j].
      * cbn in Hn. injection Hn as <-. rewrite Hc. left.
        rewrite He, Nat.add_0_r. reflexivity.
      * cbn in Hn.
        assert (Hin : In e (failedFrom originOf destinationOf calculateFPHPrice
                              (S i) rest)).
        { apply IH. exists j, x, m. repeat split; try assumption.
          rewrite He. f_equal. lia. }
        destruct (calculateFPHPrice input); [assumption | now right].
Qed.

(** No two error entries share an index. *)
Lemma failed_index_unique (requests : list Request) (i : nat) :
  NoDup (map BatchError.index (failed i requests)).
Proof.
  revert i.
  induction requests as [|input rest IH]; intro i; [constructor|].
  cbn [failedFrom]. destruct (calculateFPHPrice input) as [result | message].
  - apply IH.
  - cbn [map]. constructor; [|apply IH].
    intro Hin. apply in_map_iff in Hin. destruct Hin as [e [He Hin]].
    apply failed_index_bounds in Hin. cbn in He. lia.
Qed.

(** Requests that are objects are isolated from one another: the batch
    returns, without throwing, the copies of the results of the requests
    that priced and one error entry for each request that failed, both in
    request order; a failure at index [i] yields the entry with index [i]
    and the route label made of origin, arrow and destination ("?" standing
    for a missing endpoint); no index is reported twice, and the two
    lengths add up to the number of requests. *)
Lemma batch_isolates_failures_of_objects :
  forall requests : list Request,
    exists results errors,
      runBatchSimulation originOf destinationOf calculateFPHPrice jsonCopy
        (map Value requests) = Some (results, errors)
      /\ (List.length results + List.length errors = List.length requests)%nat
      /\ results = priced requests
      /\ errors = failed 0 requests
      /\ (forall e,
            In e errors <->
            exists i input message,
              nth_error requests i = Some input
              /\ calculateFPHPrice input = Rejected message
              /\ e = BatchError.mk i (label input) (messageOf message))
      /\ NoDup (map BatchError.index errors)
      /\ (forall i input o d,
            nth_error requests i = Some input ->
            originOf input = Some o -> destinationOf input = Some d ->
            (forall message,
                calculateFPHPrice input = Rejected message ->
                In (BatchError.mk i (o ++ " → " ++ d)%string (messageOf message))
                  errors)
            /\ (forall value,
                  calculateFPHPrice input = Resolved value ->
                  In (jsonCopy value) results
                  /\ forall e, In e errors -> BatchError.index e <> i)).
Proof.
  intro requests. exists (priced requests), (failed 0 requests).
  assert (Hchar : forall e,
             In e (failed 0 requests) <->
             exists i input message,
               nth_error requests i = Some input
               /\ calculateFPHPrice input = Rejected message
               /\ e = BatchError.mk i (label input) (messageOf message)).
  { intro e. apply (failed_In requests 0 e). }
  split; [apply (batchLoop_spec requests 0 [] [])|].
  split; [apply priced_failed_length|].
  split; [reflexivity|]. split; [reflexivity|]. split; [exact Hchar|].
  split; [apply failed_index_unique|].
  intros i input o d Hn Ho Hd. split.
  - intros message Hc. apply Hchar. exists i, input, message.
    repeat split; try assumption.
    unfold routeLabel. now rewrite Ho, Hd.
  - intros value Hc. split.
    + unfold pricedOf. apply in_flat_map.
      exists input. split; [eapply nth_error_In; eassumption|].
      rewrite Hc. now left.
    + intros e Hin Hidx. apply Hchar in Hin.
      destruct Hin as [j [x [m [Hnj [Hcj Hej]]]]].
      rewrite Hej in Hidx. cbn in Hidx. subst j.
      rewrite Hn in Hnj. injection Hnj as <-. congruence.
Qed.

(** C8 (code defect).  An element of [inputs] that is [null] or [undefined]
    is not isolated: pricing it throws, the handler throws in turn while
    reading [input.origin], and the action ends without returning, so that
    the results and the error entries of every other request of the batch,
    before and after, are lost.  This holds whatever the pricing of the
    other requests does. *)
Theorem runBatchSimulation_lost_on_nullish_input :
  forall (before : list Request) (after : list (Any Request)),
    runBatchSimulation originOf destinationOf calculateFPHPrice jsonCopy
      (map Value before ++ Nullish :: after) = None
    /\ runBatchSimulation originOf destinationOf calculateFPHPrice jsonCopy
         [Nullish] = None
    /\ exists results errors,
         runBatchSimulation originOf destinationOf calculateFPHPrice jsonCopy
           (map Value before) = Some (results, errors)
         /\ (List.length results + List.length errors
             = List.length before)%nat.
Proof.
  intros before after. split; [apply batchLoop_nullish|].
  split; [reflexivity|].
  exists (priced before), (failed 0 before).
  split; [apply (batchLoop_spec before 0 [] []) | apply priced_failed_length].
Qed.

End BatchProofs.

(* ================================================================== *)
(** ** Confidence scoring *)
(* ================================================================== *)

Lemma Qdiv_nonneg (a b : Q) : 0 <= a -> 0 <= b -> 0 <= a / b.
Proof.
  intros Ha Hb. unfold Qdiv. apply Qmult_le_0_compat; [assumption|].
  now apply Qinv_le_0_compat.
Qed.

Lemma Qsquare_nonneg (x : Q) : 0 <= x ^ 2.
Proof.
  change (x ^ 2) with (x * x).
  destruct (Qlt_le_dec x 0) as [Hneg | Hpos].
  - setoid_replace (x * x) with ((- x) * (- x)) by ring.
    apply Qmult_le_0_compat; lra.
  - now apply Qmult_le_0_compat.
Qed.

Lemma sum_squares_nonneg (mean : Q) (xs : list Q) (acc : Q) :
  0 <= acc -> 0 <= fold_left (fun sum v => sum + (v - mean) ^ 2) xs acc.
Proof.
  revert acc. induction xs as [|x xs IH]; intros acc Hacc; [exact Hacc|].
  cbn [fold_left]. apply IH. pose proof (Qsquare_nonneg (x - mean)). lra.
Qed.

Lemma round_hundredths_unit (x : Q) :
  0 <= x <= 1 -> 0 <= Math_round (x * 100) / 100 <= 1.
Proof.
  intros [H0 H1].
  assert (Hlo : Math_round (inject_Z 0) <= Math_round (x * 100)).
  { apply Math_round_mono. change (inject_Z 0) with 0. lra. }
  assert (Hhi : Math_round (x * 100) <= Math_round (inject_Z 100)).
  { apply Math_round_mono. change (inject_Z 100) with 100. lra. }
  rewrite Math_round_Z in Hlo, Hhi.
  change (inject_Z 0) with 0 in Hlo. change (inject_Z 100) with 100 in Hhi.
  set (r := Math_round (x * 100)) in *.
  unfold Qdiv. change (/ 100) with (1 # 100). lra.
Qed.

Section ConfidenceBounds.

Variable Math : JSMath.

(** What the bound needs of [Math.sqrt]: a non-negative result on a
    non-negative argument. *)
Hypothesis Math_sqrt_nonneg : forall x, 0 <= x -> 0 <= Math_sqrt Math x.

Lemma computeConfidence_unit (sampleSize : Q) (filteredValues : list Q)
    (isFallback : bool) :
  0 <= sampleSize ->
  0 <= computeConfidence Math sampleSize filteredValues isFallback <= 1.
Proof.
  intro Hn. unfold computeConfidence.
  set (sizeFactor := Math_min (sampleSize / 30) 1.0).
  set (consistencyFactor := if Qle_bool 2 (len filteredValues) then _ else _).
  assert (Hs : 0 <= sizeFactor <= 1).
  { subst sizeFactor.
    assert (H30 : 0 <= sampleSize / 30) by (apply Qdiv_nonneg; lra).
    destruct (Math_min_cases (sampleSize / 30) 1.0) as [[H ->] | [H ->]]; lra. }
  assert (Hc : 0 <= consistencyFactor <= 1).
  { subst consistencyFactor.
    destruct (Qle_bool 2 (len filteredValues)) eqn:E2; [|lra].
    set (mean := sum filteredValues / len filteredValues).
    destruct (Qlt_bool 0 mean) eqn:Em; [|lra].
    apply Qlt_bool_true in Em.
    set (variance := _ / len filteredValues).
    assert (Hv : 0 <= variance).
    { subst variance. apply Qdiv_nonneg; [|apply len_nonneg].
      apply sum_squares_nonneg. lra. }
    assert (Hcv : 0 <= Math_sqrt Math variance / mean).
    { apply Qdiv_nonneg; [now apply Math_sqrt_nonneg | lra]. }
    destruct (Math_max_cases 0 (1.0 - Math_sqrt Math variance / mean))
      as [[H ->] | [H ->]]; lra. }
  set (rawScore := sizeFactor * 0.6 + consistencyFactor * 0.4).
  set (fallbackPenalty := if isFallback then 0.7 else 1.0).
  assert (Hp : 0 <= rawScore * fallbackPenalty <= 1).
  { assert (Hr : 0 <= rawScore <= 1) by (subst rawScore; lra).
    subst fallbackPenalty. destruct isFallback; lra. }
  exact (round_hundredths_unit _ Hp).
Qed.

End ConfidenceBounds.

(* ================================================================== *)
(** ** Grouping *)
(* ================================================================== *)

(** The two grouping loops are one loop, up to the key and the fields of a
    fresh group. *)
Lemma routeGroupsOf_groupBy (data : list PriceDataPoint.t) :
  routeGroupsOf data = groupBy routeKeyOf routeFresh data.
Proof. reflexivity. Qed.

Lemma provinceGroupsOf_groupBy (data : list PriceDataPoint.t) :
  provinceGroupsOf data = groupBy provinceKeyOf provinceFresh data.
Proof. reflexivity. Qed.

Lemma mapGet_app (k : RouteKey) (m1 m2 : GroupMap) :
  mapGet k (m1 ++ m2) = match mapGet k m1 with Some g => Some g | None => mapGet k m2 end.
Proof.
  induction m1 as [|[k1 g1] m1 IH]; cbn; [reflexivity|].
  destruct (String.eqb k1 k); [reflexivity | exact IH].
Qed.

Lemma mapGet_pushPrice (k k0 : RouteKey) (p : Q) (m : GroupMap) :
  mapGet k (pushPrice k0 p m)
  = if String.eqb k0 k
    then option_map (fun g => withPrices g (Group.prices g ++ [p])) (mapGet k0 m)
    else mapGet k m.
Proof.
  induction m as [|[k1 g1] m IH]; cbn.
  - now destruct (String.eqb k0 k).
  - destruct (String.eqb k1 k0) eqn:E10.
    + apply String.eqb_eq in E10. subst k1. cbn.
      destruct (String.eqb k0 k) eqn:E0; reflexivity.
    + cbn. destruct (String.eqb k1 k) eqn:E1.
      * destruct (String.eqb k0 k) eqn:E0; [|reflexivity].
        apply String.eqb_eq in E1, E0. subst. rewrite String.eqb_refl in E10. discriminate.
      * exact IH.
Qed.

Lemma mapGet_addToGroup (k k0 : RouteKey) (fresh : Group.t) (p : Q) (m : GroupMap) :
  mapGet k (addToGroup k0 fresh p m)
  = if String.eqb k0 k
    then Some (match mapGet k0 m with
               | Some g => withPrices g (Group.prices g ++ [p])
               | None => withPrices fresh (Group.prices fresh ++ [p])
               end)
    else mapGet k m.
Proof.
  unfold addToGroup. destruct (mapGet k0 m) as [g|] eqn:E.
  - rewrite mapGet_pushPrice, E. reflexivity.
  - rewrite mapGet_pushPrice, !mapGet_app, E. cbn. rewrite String.eqb_refl. cbn.
    destruct (String.eqb k0 k) eqn:E0; [reflexivity|].
    destruct (mapGet k m); reflexivity.
Qed.

Lemma keys_pushPrice (k0 : RouteKey) (p : Q) (m : GroupMap) :
  map fst (pushPrice k0 p m) = map fst m.
Proof.
  induction m as [|[k1 g1] m IH]; cbn; [reflexivity|].
  destruct (String.eqb k1 k0); cbn; [reflexivity | now rewrite IH].
Qed.

Lemma mapGet_In_key (k : RouteKey) (m : GroupMap) :
  mapGet k m <> None <-> In k (map fst m).
Proof.
  induction m as [|[k1 g1] m IH]; cbn; [tauto|].
  destruct (String.eqb k1 k) eqn:E.
  - apply String.eqb_eq in E. split; [now left | discriminate].
  - apply String.eqb_neq in E. rewrite IH.
    split; [now right | intros [H|H]; [contradiction | assumption]].
Qed.

Lemma keys_addToGroup (k0 : RouteKey) (fresh : Group.t) (p : Q) (m : GroupMap) :
  map fst (addToGroup k0 fresh p m)
  = match mapGet k0 m with Some _ => map fst m | None => map fst m ++ [k0] end.
Proof.
  unfold addToGroup. destruct (mapGet k0 m); rewrite keys_pushPrice; [reflexivity|].
  now rewrite map_app.
Qed.

Lemma mapGet_In (k : RouteKey) (g : Group.t) (m : GroupMap) :
  NoDup (map fst m) -> (In (k, g) m <-> mapGet k m = Some g).
Proof.
  induction m as [|[k1 g1] m IH]; cbn; intro Hnd.
  - split; [intros [] | discriminate].
  - inversion Hnd as [|? ? Hnotin Hnd']; subst.
    destruct (String.eqb k1 k) eqn:E.
    + apply String.eqb_eq in E. subst k1. split.
      * intros [H | H]; [now inversion H|].
        exfalso. apply Hnotin. apply in_map_iff. now exists (k, g).
      * intro H. left. now inversion H.
    + apply String.eqb_neq in E. rewrite <- (IH Hnd'). split.
      * intros [H | H]; [inversion H; contradiction | assumption].
      * intro H. now right.
Qed.

Lemma find_app_first {A} (f : A -> bool) (xs ys : list A) :
  find f (xs ++ ys) = match find f xs with Some x => Some x | None => find f ys end.
Proof.
  induction xs as [|x xs IH]; cbn; [reflexivity|].
  destruct (f x); [reflexivity | exact IH].
Qed.

Section Grouping.
Variable keyOf : PriceDataPoint.t -> RouteKey.
Variable freshOf : PriceDataPoint.t -> Group.t.
Hypothesis fresh_empty : forall d, Group.prices (freshOf d) = [].

Lemma groupBy_snoc data d :
  groupBy keyOf freshOf (data ++ [d])
  = addToGroup (keyOf d) (freshOf d) (PriceDataPoint.unitPrice d)
      (groupBy keyOf freshOf data).
Proof. unfold groupBy. now rewrite fold_left_app. Qed.

Lemma pricesFor_none k data :
  firstFor keyOf k data = None -> pricesFor keyOf k data = [].
Proof.
  unfold firstFor, pricesFor. induction data as [|d data IH]; cbn; [reflexivity|].
  destruct (String.eqb (keyOf d) k); [discriminate | exact IH].
Qed.

Lemma mapGet_groupBy k data :
  mapGet k (groupBy keyOf freshOf data)
  = option_map (fun d0 => withPrices (freshOf d0) (pricesFor keyOf k data))
      (firstFor keyOf k data).
Proof.
  induction data as [|d data IH] using rev_ind; [reflexivity|].
  rewrite groupBy_snoc, mapGet_addToGroup.
  unfold firstFor, pricesFor in *.
  rewrite find_app_first, filter_app, map_app. cbn [find filter].
  destruct (String.eqb (keyOf d) k) eqn:E.
  - apply String.eqb_eq in E. subst k. rewrite IH.
    destruct (find _ data) as [d0|] eqn:Ef; cbn [option_map map].
    + reflexivity.
    + rewrite fresh_empty. pose proof (pricesFor_none (keyOf d) data Ef) as Hn.
      unfold pricesFor in Hn. rewrite Hn. reflexivity.
  - rewrite IH. cbn [map]. rewrite app_nil_r.
    destruct (find _ data); reflexivity.
Qed.

Lemma keys_groupBy_NoDup data : NoDup (map fst (groupBy keyOf freshOf data)).
Proof.
  induction data as [|d data IH] using rev_ind; [constructor|].
  rewrite groupBy_snoc, keys_addToGroup.
  destruct (mapGet (keyOf d) (groupBy keyOf freshOf data)) eqn:E; [exact IH|].
  apply NoDup_app; [exact IH | repeat constructor; intros [] | ].
  intros x Hx [<- | []]. apply mapGet_In_key in Hx. contradiction.
Qed.

Lemma firstFor_some k data d0 :
  firstFor keyOf k data = Some d0 -> In d0 data /\ keyOf d0 = k.
Proof.
  unfold firstFor. intro H. apply find_some in H. destruct H as [H1 H2].
  apply String.eqb_eq in H2. now split.
Qed.

Lemma firstFor_In d data : In d data -> exists d0, firstFor keyOf (keyOf d) data = Some d0.
Proof.
  intro Hin. unfold firstFor.
  destruct (find _ data) as [d0|] eqn:E; [now exists d0|].
  pose proof (find_none _ _ E d Hin) as H. cbn in H. now rewrite String.eqb_refl in H.
Qed.

(** Every entry of the map: its key is the key of an observation, its
    fields those of the first such observation, its prices those of all of
    them. *)
Lemma groupBy_entry k g data :
  In (k, g) (groupBy keyOf freshOf data) <->
  exists d0, firstFor keyOf k data = Some d0
             /\ g = withPrices (freshOf d0) (pricesFor keyOf k data).
Proof.
  rewrite (mapGet_In k g _ (keys_groupBy_NoDup data)), mapGet_groupBy.
  destruct (firstFor keyOf k data) as [d0|]; cbn.
  - split; [intro H; exists d0; split; [reflexivity | now inversion H]
           | intros [d1 [H1 H2]]; inversion H1; now subst].
  - split; [discriminate | intros [d1 [H1 _]]; discriminate].
Qed.

Lemma pricesFor_In d data :
  In d data -> In (PriceDataPoint.unitPrice d) (pricesFor keyOf (keyOf d) data).
Proof.
  intro H. unfold pricesFor. apply in_map. apply filter_In. split; [assumption|].
  apply String.eqb_refl.
Qed.

End Grouping.

(* ================================================================== *)
(** ** Province extraction is idempotent *)
(* ================================================================== *)

Lemma split0_idem (s : string) : split0 (split0 s) = split0 s.
Proof.
  induction s as [|c s IH]; cbn; [reflexivity|].
  destruct (Ascii.eqb c "/") eqn:E; cbn; [reflexivity|]. now rewrite E, IH.
Qed.

Lemma split0_trimStart (t : string) : split0 t = t -> split0 (trimStart t) = trimStart t.
Proof.
  induction t as [|c t IH]; cbn; [reflexivity|].
  destruct (Ascii.eqb c "/") eqn:E; [discriminate|]. intro H. injection H as H.
  destruct (isSpace c); [now apply IH | cbn; now rewrite E, H].
Qed.

Lemma split0_trimEnd (t : string) : split0 t = t -> split0 (trimEnd t) = trimEnd t.
Proof.
  induction t as [|c t IH]; cbn; [reflexivity|].
  destruct (Ascii.eqb c "/") eqn:E; [discriminate|]. intro H. injection H as H.
  specialize (IH H). destruct (trimEnd t) as [|c' t'] eqn:Et.
  - destruct (isSpace c); cbn; [reflexivity | now rewrite E].
  - cbn [split0]. rewrite E. cbn [split0] in IH. now rewrite IH.
Qed.

Lemma trimEnd_idem (u : string) : trimEnd (trimEnd u) = trimEnd u.
Proof.
  induction u as [|c u IH]; cbn; [reflexivity|].
  destruct (trimEnd u) as [|c' u'] eqn:Eu.
  - destruct (isSpace c) eqn:Ec; cbn; [reflexivity | now rewrite Ec].
  - cbn [trimEnd]. cbn [trimEnd] in IH. now rewrite IH.
Qed.

Lemma trimStart_idem (s : string) : trimStart (trimStart s) = trimStart s.
Proof.
  induction s as [|c s IH]; cbn; [reflexivity|].
  destruct (isSpace c) eqn:Ec; [exact IH | cbn; now rewrite Ec].
Qed.

Lemma trimStart_trimEnd (u : string) : trimStart u = u -> trimStart (trimEnd u) = trimEnd u.
Proof.
  destruct u as [|c u]; cbn; [reflexivity|].
  destruct (isSpace c) eqn:Ec.
  - intro H. exfalso.
    assert (Hlen : forall s, (String.length (trimStart s) <= String.length s)%nat).
    { induction s as [|x s IHs]; cbn; [lia|]. destruct (isSpace x); cbn; lia. }
    specialize (Hlen u). rewrite H in Hlen. cbn in Hlen. lia.
  - intros _. destruct (trimEnd u); cbn; now rewrite Ec.
Qed.

Lemma trim_idem (s : string) : trim (trim s) = trim s.
Proof.
  unfold trim. rewrite (trimStart_trimEnd (trimStart s) (trimStart_idem s)).
  apply trimEnd_idem.
Qed.

Lemma extractProvince_idem (location : string) :
  extractProvince (extractProvince location) = extractProvince location.
Proof.
  unfold extractProvince.
  assert (H : split0 (trim (split0 location)) = trim (split0 location)).
  { unfold trim. apply split0_trimEnd, split0_trimStart, split0_idem. }
  rewrite H. apply trim_idem.
Qed.

Lemma provinceRouteKey_idem (o d v : string) :
  provinceRouteKey (extractProvince o) (extractProvince d) v = provinceRouteKey o d v.
Proof. unfold provinceRouteKey. now rewrite !extractProvince_idem. Qed.
(* ================================================================== *)
(** ** The final sort permutes the results *)
(* ================================================================== *)

Lemma insertByConfidence_perm r rs : Permutation (insertByConfidence r rs) (r :: rs).
Proof.
  induction rs as [|r' rs IH]; cbn; [reflexivity|].
  destruct (Qle_bool _ _); [reflexivity|].
  rewrite IH. apply perm_swap.
Qed.

Lemma sortByConfidence_perm rs : Permutation (sortByConfidence rs) rs.
Proof.
  induction rs as [|r rs IH]; cbn; [constructor|].
  rewrite insertByConfidence_perm. now constructor.
Qed.

Lemma filter_perm_length {A} (p : A -> bool) (xs ys : list A) :
  Permutation xs ys -> List.length (filter p xs) = List.length (filter p ys).
Proof.
  induction 1 as [|x xs ys _ IH|x y xs|xs ys zs _ IH1 _ IH2]; cbn.
  - reflexivity.
  - destruct (p x); cbn; now rewrite IH.
  - destruct (p x), (p y); reflexivity.
  - now rewrite IH1.
Qed.

Lemma analyzeMarketData_In Math data r :
  In r (analyzeMarketData Math data)
  <-> In r (computeResults Math (provinceGroupsOf data) [] (routeGroupsOf data)).
Proof.
  unfold analyzeMarketData. split; apply Permutation_in;
    [apply sortByConfidence_perm | symmetry; apply sortByConfidence_perm].
Qed.

Lemma analyzeMarketData_count Math data p :
  List.length (filter p (analyzeMarketData Math data))
  = List.length (filter p (computeResults Math (provinceGroupsOf data) []
                             (routeGroupsOf data))).
Proof. apply filter_perm_length, sortByConfidence_perm. Qed.

(* ================================================================== *)
(** ** The result loop *)
(* ================================================================== *)

Section Loop.
Variable Math : JSMath.
Variable provinceGroups : GroupMap.
Hypothesis province_keys :
  forall key pg, mapGet key provinceGroups = Some pg -> groupProvinceKey pg = key.

Lemma exactResult_key g :
  RouteMedianResult.isFallback (exactResult Math g) = false
  /\ resultRouteKey (exactResult Math g) = groupRouteKey g.
Proof. split; reflexivity. Qed.

Lemma fallbackResult_key g :
  RouteMedianResult.isFallback (fallbackResult Math provinceGroups g) = true
  /\ resultProvinceKey (fallbackResult Math provinceGroups g) = groupProvinceKey g.
Proof.
  unfold fallbackResult.
  destruct (mapGet (groupProvinceKey g) provinceGroups) as [pg|] eqn:E.
  - destruct (Qlt_bool _ _); split; try reflexivity.
    apply (province_keys _ _ E).
  - split; reflexivity.
Qed.

Lemma setHas_setAdd pk pk' s :
  setHas pk (setAdd pk' s) = String.eqb pk pk' || setHas pk s.
Proof.
  unfold setAdd. destruct (setHas pk' s) eqn:E.
  - destruct (String.eqb pk pk') eqn:E'; [|reflexivity].
    apply String.eqb_eq in E'. subst. now rewrite E.
  - unfold setHas. rewrite existsb_app. cbn. rewrite orb_false_r. apply orb_comm.
Qed.

Lemma computeResults_shape processed groups r :
  In r (computeResults Math provinceGroups processed groups) ->
  exists k g, In (k, g) groups
    /\ ((enough g = true /\ r = exactResult Math g)
        \/ (enough g = false /\ r = fallbackResult Math provinceGroups g)).
Proof.
  revert processed. induction groups as [|[k g] rest IH]; intros processed Hin.
  - destruct Hin.
  - cbn [computeResults] in Hin. fold (enough g) in Hin.
    destruct (enough g) eqn:Eg.
    + destruct Hin as [<- | Hin].
      * exists k, g. split; [now left | left; now split].
      * destruct (IH _ Hin) as [k' [g' [H1 H2]]]. exists k', g'.
        split; [now right | exact H2].
    + destruct (setHas _ processed).
      * destruct (IH _ Hin) as [k' [g' [H1 H2]]]. exists k', g'.
        split; [now right | exact H2].
      * destruct Hin as [<- | Hin].
        -- exists k, g. split; [now left | right; now split].
        -- destruct (IH _ Hin) as [k' [g' [H1 H2]]]. exists k', g'.
           split; [now right | exact H2].
Qed.

Lemma count_exact k processed groups :
  List.length (filter (isExactFor k)
                 (computeResults Math provinceGroups processed groups))
  = List.length (filter (enoughWithKey k) groups).
Proof.
  revert processed. induction groups as [|[k' g] rest IH]; intro processed; [reflexivity|].
  cbn [computeResults filter]. fold (enough g). unfold enoughWithKey at 1. cbn [snd].
  destruct (enough g) eqn:Eg.
  - cbn [filter]. unfold isExactFor at 1.
    destruct (exactResult_key g) as [-> ->]. cbn [negb andb].
    destruct (String.eqb (groupRouteKey g) k); cbn [List.length]; now rewrite IH.
  - cbn [andb]. destruct (setHas _ processed); [apply IH|].
    cbn [filter]. unfold isExactFor at 1.
    destruct (fallbackResult_key g) as [-> _]. cbn [negb andb]. apply IH.
Qed.

Lemma count_fallback pk processed groups :
  List.length (filter (isFallbackFor pk)
                 (computeResults Math provinceGroups processed groups))
  = if setHas pk processed then 0%nat
    else if existsb (smallWithKey pk) groups then 1%nat else 0%nat.
Proof.
  revert processed. induction groups as [|[k' g] rest IH]; intro processed.
  - cbn. now destruct (setHas pk processed).
  - cbn [computeResults existsb]. fold (enough g). unfold smallWithKey at 1. cbn [snd].
    destruct (enough g) eqn:Eg.
    + cbn [filter negb andb orb]. unfold isFallbackFor at 1.
      destruct (exactResult_key g) as [-> _]. cbn [andb]. apply IH.
    + cbn [negb andb].
      destruct (setHas (groupProvinceKey g) processed) eqn:Ehas.
      * rewrite IH. destruct (setHas pk processed) eqn:Epk; [reflexivity|].
        destruct (String.eqb (groupProvinceKey g) pk) eqn:E; [|reflexivity].
        apply String.eqb_eq in E. congruence.
      * cbn [filter]. unfold isFallbackFor at 1.
        destruct (fallbackResult_key g) as [-> ->]. cbn [andb].
        destruct (String.eqb (groupProvinceKey g) pk) eqn:E.
        -- cbn [List.length orb]. rewrite IH, setHas_setAdd, String.eqb_sym, E. cbn.
           apply String.eqb_eq in E. subst pk. now rewrite Ehas.
        -- rewrite IH, setHas_setAdd, String.eqb_sym, E. reflexivity.
Qed.

End Loop.

Lemma bar_separated_injective (a a' b b' : string) :
  noBar a = true -> noBar a' = true ->
  (a ++ "||" ++ b)%string = (a' ++ "||" ++ b')%string -> a = a' /\ b = b'.
Proof.
  revert a'. induction a as [|c a IH]; intros [|c' a'] Ha Ha' H; cbn in *.
  - injection H as H. now split.
  - injection H as Hc _. subst c'. cbn in Ha'. discriminate.
  - injection H as Hc _. subst c. cbn in Ha. discriminate.
  - injection H as Hc H. subst c'.
    apply andb_true_iff in Ha, Ha'. destruct Ha as [_ Ha], Ha' as [_ Ha'].
    destruct (IH a' Ha Ha' H) as [-> ->]. now split.
Qed.

(** Distinct routes have distinct keys as long as the locations have no
    vertical bar. *)
Lemma routeKey_injective (o d v o' d' v' : string) :
  noBar o = true -> noBar d = true -> noBar o' = true -> noBar d' = true ->
  routeKey o d v = routeKey o' d' v' -> o = o' /\ d = d' /\ v = v'.
Proof.
  intros Ho Hd Ho' Hd' H. unfold routeKey in H.
  destruct (bar_separated_injective _ _ _ _ Ho Ho' H) as [-> H'].
  destruct (bar_separated_injective _ _ _ _ Hd Hd' H') as [-> ->].
  now repeat split.
Qed.

(* ================================================================== *)
(** ** The route groups and the province pools *)
(* ================================================================== *)

Lemma routeFresh_empty d : Group.prices (routeFresh d) = [].
Proof. reflexivity. Qed.
Lemma provinceFresh_empty d : Group.prices (provinceFresh d) = [].
Proof. reflexivity. Qed.

Lemma routeGroups_entry data k g :
  In (k, g) (routeGroupsOf data) <->
  exists d0, firstFor routeKeyOf k data = Some d0
             /\ g = withPrices (routeFresh d0) (pricesFor routeKeyOf k data).
Proof. apply (groupBy_entry routeKeyOf routeFresh routeFresh_empty). Qed.

Lemma routeGroups_entry_key data k g :
  In (k, g) (routeGroupsOf data) ->
  groupRouteKey g = k /\ Group.prices g = pricesFor routeKeyOf k data
  /\ exists d0, In d0 data /\ routeKeyOf d0 = k
                /\ groupProvinceKey g = provinceKeyOf d0.
Proof.
  intro H. apply routeGroups_entry in H. destruct H as [d0 [Hf ->]].
  apply firstFor_some in Hf. destruct Hf as [Hin Hk].
  split; [exact Hk|]. split; [reflexivity|]. exists d0. now repeat split.
Qed.

Lemma routeGroups_keys data k :
  In k (map fst (routeGroupsOf data)) <-> exists d, In d data /\ routeKeyOf d = k.
Proof.
  rewrite <- mapGet_In_key.
  change (routeGroupsOf data) with (groupBy routeKeyOf routeFresh data).
  rewrite (mapGet_groupBy routeKeyOf routeFresh routeFresh_empty). split.
  - intro H. destruct (firstFor routeKeyOf k data) as [d0|] eqn:E; [|now cbn in H].
    exists d0. now apply firstFor_some.
  - intros [d [Hin <-]]. destruct (firstFor_In routeKeyOf d data Hin) as [d0 ->].
    discriminate.
Qed.

Lemma provinceGroups_keys data key pg :
  mapGet key (provinceGroupsOf data) = Some pg -> groupProvinceKey pg = key.
Proof.
  change (provinceGroupsOf data) with (groupBy provinceKeyOf provinceFresh data).
  rewrite (mapGet_groupBy provinceKeyOf provinceFresh provinceFresh_empty).
  destruct (firstFor provinceKeyOf key data) as [d0|] eqn:E; [|discriminate].
  cbn. intro H. injection H as <-. apply firstFor_some in E. destruct E as [_ <-].
  apply provinceRouteKey_idem.
Qed.

(** The pool of a group: present, made of the prices of every observation
    with the group's province key, and not empty. *)
Lemma provinceGroups_pool data k g :
  In (k, g) (routeGroupsOf data) ->
  exists pg, mapGet (groupProvinceKey g) (provinceGroupsOf data) = Some pg
             /\ Group.prices pg = pricesFor provinceKeyOf (groupProvinceKey g) data
             /\ Group.prices pg <> [].
Proof.
  intro H. destruct (routeGroups_entry_key _ _ _ H) as [_ [_ [d0 [Hin [_ Hpk]]]]].
  change (provinceGroupsOf data) with (groupBy provinceKeyOf provinceFresh data).
  rewrite (mapGet_groupBy provinceKeyOf provinceFresh provinceFresh_empty), Hpk.
  destruct (firstFor_In provinceKeyOf d0 data Hin) as [d1 ->]. cbn.
  eexists. split; [reflexivity|]. split; [reflexivity|]. cbn.
  intro Hnil. pose proof (pricesFor_In provinceKeyOf d0 data Hin) as Hp.
  rewrite Hnil in Hp. destruct Hp.
Qed.

Lemma routeGroups_nonempty data k g :
  In (k, g) (routeGroupsOf data) -> Group.prices g <> [].
Proof.
  intro H. apply routeGroups_entry in H. destruct H as [d0 [Hf ->]].
  apply firstFor_some in Hf. destruct Hf as [Hin <-]. cbn.
  intro Hnil. pose proof (pricesFor_In routeKeyOf d0 data Hin) as Hp.
  rewrite Hnil in Hp. destruct Hp.
Qed.

Lemma fallbackResult_cases Math PG g pg :
  mapGet (groupProvinceKey g) PG = Some pg ->
  fallbackResult Math PG g
  = if enough pg then provinceResult Math pg
    else rawFallbackResult Math g (Group.prices pg).
Proof.
  intro H. unfold fallbackResult, Qlt_bool, enough. rewrite H.
  now destruct (Qle_bool MIN_SAMPLE_SIZE (len (Group.prices pg))).
Qed.

(** Every emitted result has one of three shapes. *)
Lemma analyzeMarketData_shape Math data r :
  In r (analyzeMarketData Math data) ->
  exists k g, In (k, g) (routeGroupsOf data)
    /\ ((enough g = true /\ r = exactResult Math g)
        \/ (enough g = false
            /\ r = fallbackResult Math (provinceGroupsOf data) g
            /\ exists pg,
                 mapGet (groupProvinceKey g) (provinceGroupsOf data) = Some pg
                 /\ Group.prices pg <> []
                 /\ ((enough pg = true /\ r = provinceResult Math pg)
                     \/ (enough pg = false
                         /\ r = rawFallbackResult Math g (Group.prices pg))))).
Proof.
  intro Hin. apply analyzeMarketData_In, computeResults_shape in Hin.
  destruct Hin as [k [g [Hentry Hcase]]]. exists k, g. split; [exact Hentry|].
  destruct Hcase as [Hex | [Hsmall Hr]]; [now left | right].
  split; [exact Hsmall|]. split; [exact Hr|].
  destruct (provinceGroups_pool _ _ _ Hentry) as [pg [Hget [_ Hne]]].
  exists pg. split; [exact Hget|]. split; [exact Hne|].
  rewrite (fallbackResult_cases _ _ _ _ Hget) in Hr.
  destruct (enough pg); [left | right]; now split.
Qed.

Lemma filter_none {A} (p : A -> bool) (xs : list A) :
  (forall x, In x xs -> p x = false) -> filter p xs = [].
Proof.
  induction xs as [|x xs IH]; intro H; [reflexivity|].
  cbn. rewrite (H x (or_introl eq_refl)). apply IH. intros y Hy. apply H. now right.
Qed.

Lemma unique_enough_entry (m : GroupMap) k g :
  NoDup (map fst m) ->
  (forall k' g', In (k', g') m -> groupRouteKey g' = k') ->
  In (k, g) m -> enough g = true ->
  List.length (filter (enoughWithKey k) m) = 1%nat.
Proof.
  induction m as [|[k1 g1] m IH]; intros Hnd Hkeys Hin Hen; [destruct Hin|].
  inversion Hnd as [|? ? Hnotin Hnd']; subst. cbn [filter].
  destruct Hin as [Heq | Hin].
  - injection Heq as -> ->. unfold enoughWithKey at 1. cbn [snd].
    rewrite Hen, (Hkeys k g (or_introl eq_refl)), String.eqb_refl. cbn.
    rewrite filter_none; [reflexivity|].
    intros [k' g'] Hin'. unfold enoughWithKey. cbn [snd].
    rewrite (Hkeys k' g' (or_intror Hin')).
    destruct (String.eqb k' k) eqn:E; [|apply andb_false_r].
    apply String.eqb_eq in E. subst k'. exfalso. apply Hnotin.
    apply in_map_iff. now exists (k, g').
  - unfold enoughWithKey at 1. cbn [snd].
    rewrite (Hkeys k1 g1 (or_introl eq_refl)).
    destruct (String.eqb k1 k) eqn:E.
    + apply String.eqb_eq in E. subst k1. exfalso. apply Hnotin.
      apply in_map_iff. now exists (k, g).
    + rewrite andb_false_r. apply IH; try assumption.
      intros k' g' H'. apply Hkeys. now right.
Qed.

Lemma enough_true g : enough g = true <-> (5 <= List.length (Group.prices g))%nat.
Proof. apply len_ge_5. Qed.
Lemma enough_false g : enough g = false <-> (List.length (Group.prices g) < 5)%nat.
Proof. apply len_lt_5. Qed.

Lemma routeGroups_keys_NoDup (data : list PriceDataPoint.t) :
  NoDup (map fst (routeGroupsOf data)).
Proof. apply (keys_groupBy_NoDup routeKeyOf routeFresh). Qed.

(** A group with enough data has exactly one non-fallback result under its
    route key. *)
Lemma exact_result_unique (Math : JSMath) (data : list PriceDataPoint.t)
    (k : RouteKey) (g : Group.t) :
  In (k, g) (routeGroupsOf data) ->
  (5 <= List.length (Group.prices g))%nat ->
  List.length (filter (isExactFor k) (analyzeMarketData Math data)) = 1%nat.
Proof.
  intros Hin Hbig.
  rewrite analyzeMarketData_count, (count_exact Math).
  - apply (unique_enough_entry _ k g (routeGroups_keys_NoDup data)).
    + intros k' g' H. now apply routeGroups_entry_key in H.
    + exact Hin.
    + now apply enough_true.
  - apply provinceGroups_keys.
Qed.

(** A group with too little data has exactly one fallback result under its
    province key. *)
Lemma fallback_result_unique (Math : JSMath) (data : list PriceDataPoint.t)
    (k : RouteKey) (g : Group.t) :
  In (k, g) (routeGroupsOf data) ->
  (List.length (Group.prices g) < 5)%nat ->
  List.length (filter (isFallbackFor (groupProvinceKey g))
                 (analyzeMarketData Math data)) = 1%nat.
Proof.
  intros Hin Hsmall.
  rewrite analyzeMarketData_count, (count_fallback Math).
  - cbn [setHas existsb].
    assert (Hex : existsb (smallWithKey (groupProvinceKey g)) (routeGroupsOf data)
                  = true).
    { apply existsb_exists. exists (k, g). split; [exact Hin|].
      unfold smallWithKey. cbn [snd].
      apply enough_false in Hsmall. now rewrite Hsmall, String.eqb_refl. }
    now rewrite Hex.
  - apply provinceGroups_keys.
Qed.

(** *** Keys and triples *)

Lemma noBar_split0 (s : string) : noBar s = true -> noBar (split0 s) = true.
Proof.
  induction s as [|c s IH]; cbn; [reflexivity|].
  intro H. apply andb_true_iff in H. destruct H as [Hc Hs].
  destruct (Ascii.eqb c "/"); [reflexivity|]. cbn. now rewrite Hc, IH.
Qed.

Lemma noBar_trimStart (s : string) : noBar s = true -> noBar (trimStart s) = true.
Proof.
  induction s as [|c s IH]; cbn; [reflexivity|].
  intro H. destruct (isSpace c); [|exact H].
  apply andb_true_iff in H. now apply IH.
Qed.

Lemma noBar_trimEnd (s : string) : noBar s = true -> noBar (trimEnd s) = true.
Proof.
  induction s as [|c s IH]; cbn; [reflexivity|].
  intro H. apply andb_true_iff in H. destruct H as [Hc Hs].
  specialize (IH Hs). destruct (trimEnd s) as [|c' t].
  - destruct (isSpace c); [reflexivity|]. cbn. now rewrite Hc.
  - simpl in IH |- *. now rewrite Hc, IH.
Qed.

Lemma noBar_extractProvince (location : string) :
  noBar location = true -> noBar (extractProvince location) = true.
Proof.
  intro H. unfold extractProvince, trim.
  now apply noBar_trimEnd, noBar_trimStart, noBar_split0.
Qed.

Lemma routeKey_eqb (o d v o' d' v' : string) :
  noBar o = true -> noBar d = true -> noBar o' = true -> noBar d' = true ->
  String.eqb (routeKey o' d' v') (routeKey o d v)
  = String.eqb o' o && String.eqb d' d && String.eqb v' v.
Proof.
  intros Ho Hd Ho' Hd'.
  destruct (String.eqb_spec (routeKey o' d' v') (routeKey o d v)) as [E|E].
  - apply routeKey_injective in E; try assumption.
    destruct E as [-> [-> ->]]. now rewrite !String.eqb_refl.
  - symmetry. apply not_true_is_false. intro H.
    apply andb_true_iff in H. destruct H as [H Hv].
    apply andb_true_iff in H. destruct H as [Ho2 Hd2].
    apply String.eqb_eq in Ho2, Hd2, Hv. subst. now apply E.
Qed.

Lemma barFree_In (data : list PriceDataPoint.t) (x : PriceDataPoint.t) :
  barFree data = true -> In x data ->
  noBar (PriceDataPoint.origin x) = true
  /\ noBar (PriceDataPoint.destination x) = true.
Proof.
  intros H Hin. unfold barFree in H. rewrite forallb_forall in H.
  specialize (H x Hin). now apply andb_true_iff in H.
Qed.

(** The labels of a result are those of an observation, or their
    provinces: without a bar when the observations are. *)
Lemma analyzeMarketData_noBar (Math : JSMath) (data : list PriceDataPoint.t)
    (r : RouteMedianResult.t) :
  barFree data = true -> In r (analyzeMarketData Math data) ->
  noBar (RouteMedianResult.origin r) = true
  /\ noBar (RouteMedianResult.destination r) = true.
Proof.
  intros Hbar Hin. apply analyzeMarketData_shape in Hin.
  destruct Hin as [k [g [Hentry [[Hen ->] | [Hen [_ [pg [Hget [Hne Hcase]]]]]]]]].
  - apply routeGroups_entry in Hentry. destruct Hentry as [d0 [Hf ->]].
    apply firstFor_some in Hf. destruct Hf as [Hd _].
    exact (barFree_In _ _ Hbar Hd).
  - destruct Hcase as [[_ ->] | [_ ->]].
    + change (provinceGroupsOf data)
        with (groupBy provinceKeyOf provinceFresh data) in Hget.
      rewrite (mapGet_groupBy provinceKeyOf provinceFresh provinceFresh_empty) in Hget.
      destruct (firstFor provinceKeyOf (groupProvinceKey g) data) as [d1|] eqn:E;
        [|discriminate].
      cbn in Hget. injection Hget as <-.
      apply firstFor_some in E. destruct E as [Hd _].
      destruct (barFree_In _ _ Hbar Hd) as [Ho Hde].
      split; cbn; now apply noBar_extractProvince.
    + apply routeGroups_entry in Hentry. destruct Hentry as [d0 [Hf ->]].
      apply firstFor_some in Hf. destruct Hf as [Hd _].
      exact (barFree_In _ _ Hbar Hd).
Qed.

(** Among bar-free observations, the key of a route group stands for one
    triple: the group of [x] pools the observations of the route of [x],
    the non-fallback results under its key are those labelled with its
    triple, and the fallback results under its province key are those of
    its provinces. *)
Lemma routeGroup_of_observation (Math : JSMath) (data : list PriceDataPoint.t)
    (x : PriceDataPoint.t) (g : Group.t) :
  barFree data = true -> In x data -> In (routeKeyOf x, g) (routeGroupsOf data) ->
  let o := PriceDataPoint.origin x in
  let d := PriceDataPoint.destination x in
  let v := PriceDataPoint.vehicleType x in
  List.length (Group.prices g) = observations o d v data
  /\ filter (isExactFor (routeKeyOf x)) (analyzeMarketData Math data)
     = filter (exactFor o d v) (analyzeMarketData Math data)
  /\ filter (isFallbackFor (groupProvinceKey g)) (analyzeMarketData Math data)
     = filter (fallbackFor o d v) (analyzeMarketData Math data).
Proof.
  intros Hbar Hx Hentry o d v.
  destruct (barFree_In _ _ Hbar Hx) as [Hxo Hxd].
  destruct (routeGroups_entry_key _ _ _ Hentry)
    as [_ [Hprices [d0 [Hd0 [Hk0 Hpk]]]]].
  destruct (barFree_In _ _ Hbar Hd0) as [H0o H0d].
  apply routeKey_injective in Hk0; try assumption.
  destruct Hk0 as [Eo [Ed Ev]].
  assert (Hpk' : groupProvinceKey g = provinceRouteKey o d v).
  { rewrite Hpk. unfold provinceKeyOf. now rewrite Eo, Ed, Ev. }
  split.
  { rewrite Hprices. unfold pricesFor, observations. rewrite length_map.
    f_equal. apply filter_ext_in. intros y Hy.
    destruct (barFree_In _ _ Hbar Hy) as [Hyo Hyd].
    unfold routeKeyOf, sameRoute. now apply routeKey_eqb. }
  split.
  - apply filter_ext_in. intros r Hr.
    destruct (analyzeMarketData_noBar _ _ _ Hbar Hr) as [Hro Hrd].
    unfold isExactFor, exactFor, labelled, resultRouteKey, routeKeyOf.
    f_equal. now apply routeKey_eqb.
  - apply filter_ext_in. intros r Hr.
    destruct (analyzeMarketData_noBar _ _ _ Hbar Hr) as [Hro Hrd].
    rewrite Hpk'.
    unfold isFallbackFor, fallbackFor, inProvinces, resultProvinceKey.
    f_equal.
    apply (routeKey_eqb (extractProvince o) (extractProvince d) v
             (extractProvince (RouteMedianResult.origin r))
             (extractProvince (RouteMedianResult.destination r))
             (RouteMedianResult.vehicleType r));
      now apply noBar_extractProvince.
Qed.

(** C2 (amended).  For observations whose origins and destinations hold no
    vertical bar: every observed (origin, destination, vehicleType) triple
    with five observations or more has exactly one non-fallback result
    labelled with it; every observed triple with fewer has exactly one
    fallback result in its provinces with its vehicle type, however many
    such triples share the province pair; and every result emitted is one
    of these.  Non-fallback and fallback results are counted apart: a
    fallback result labelled with provinces may bear the labels of a
    non-fallback one. *)
Theorem analyzeMarketData_one_result_per_triple :
  forall (Math : JSMath) (data : list PriceDataPoint.t),
    barFree data = true ->
    let results := analyzeMarketData Math data in
    (forall x, In x data ->
       let o := PriceDataPoint.origin x in
       let d := PriceDataPoint.destination x in
       let v := PriceDataPoint.vehicleType x in
       ((5 <= observations o d v data)%nat ->
        List.length (filter (exactFor o d v) results) = 1%nat)
       /\ ((observations o d v data < 5)%nat ->
           List.length (filter (fallbackFor o d v) results) = 1%nat))
    /\ (forall r, In r results ->
          exists x, In x data
            /\ let o := PriceDataPoint.origin x in
               let d := PriceDataPoint.destination x in
               let v := PriceDataPoint.vehicleType x in
               if RouteMedianResult.isFallback r
               then (observations o d v data < 5)%nat
                    /\ inProvinces o d v r = true
               else (5 <= observations o d v data)%nat
                    /\ labelled o d v r = true).
Proof.
  intros Math data Hbar results. subst results. split.
  - intros x Hx o d v.
    assert (Hkey : In (routeKeyOf x) (map fst (routeGroupsOf data))).
    { apply routeGroups_keys. now exists x. }
    apply in_map_iff in Hkey. destruct Hkey as [[k g] [Hk Hentry]].
    cbn in Hk. subst k.
    destruct (routeGroup_of_observation Math data x g Hbar Hx Hentry)
      as [Hlen [Hexact Hfallback]].
    fold o d v in Hlen, Hexact, Hfallback. split; intro Hn.
    + rewrite <- Hexact. apply (exact_result_unique Math data _ g Hentry).
      now rewrite Hlen.
    + rewrite <- Hfallback. apply (fallback_result_unique Math data _ g Hentry).
      now rewrite Hlen.
  - intros r Hr. pose proof Hr as Hr'.
    apply analyzeMarketData_In, computeResults_shape in Hr.
    destruct Hr as [k [g [Hentry Hcase]]].
    destruct (routeGroups_entry_key _ _ _ Hentry) as [_ [_ [x [Hx [Hk _]]]]].
    subst k. exists x. split; [exact Hx|].
    destruct (routeGroup_of_observation Math data x g Hbar Hx Hentry)
      as [Hlen [Hexact Hfallback]].
    cbv zeta. rewrite <- Hlen.
    destruct Hcase as [[Hen ->] | [Hen ->]].
    + destruct (exactResult_key Math g) as [Hf Hkey]. rewrite Hf.
      split; [now apply enough_true|].
      assert (Hin : In (exactResult Math g)
                      (filter (isExactFor (routeKeyOf x))
                         (analyzeMarketData Math data))).
      { apply filter_In. split; [exact Hr'|]. unfold isExactFor.
        apply routeGroups_entry_key in Hentry. destruct Hentry as [Hgk _].
        now rewrite Hf, Hkey, Hgk, String.eqb_refl. }
      rewrite Hexact in Hin. apply filter_In in Hin. destruct Hin as [_ Hin].
      unfold exactFor in Hin. rewrite Hf in Hin. exact Hin.
    + destruct (fallbackResult_key Math _ (provinceGroups_keys data) g) as [Hf Hkey].
      rewrite Hf. split; [now apply enough_false|].
      assert (Hin : In (fallbackResult Math (provinceGroupsOf data) g)
                      (filter (isFallbackFor (groupProvinceKey g))
                         (analyzeMarketData Math data))).
      { apply filter_In. split; [exact Hr'|]. unfold isFallbackFor.
        now rewrite Hf, Hkey, String.eqb_refl. }
      rewrite Hfallback in Hin. apply filter_In in Hin. destruct Hin as [_ Hin].
      unfold fallbackFor in Hin. rewrite Hf in Hin. exact Hin.
Qed.

Lemma analyzeMarketData_one_result_per_triple_witness :
  List.length (filter (exactFor "Seoul/Gangnam" "Busan/Haeundae" "11t")
                 (analyzeMarketData sampleMath sampleMarket)) = 1%nat
  /\ List.length (filter (fallbackFor "Daegu/Suseong" "Ulsan/Nam" "11t")
                    (analyzeMarketData sampleMath sampleMarket)) = 1%nat.
Proof.
  destruct (analyzeMarketData_one_result_per_triple sampleMath sampleMarket
              ltac:(reflexivity)) as [Hcount _].
  split.
  - apply (Hcount (PriceDataPoint.mk "Seoul/Gangnam" "Busan/Haeundae" "11t" 850000)).
    + left. reflexivity.
    + vm_compute. lia.
  - apply (Hcount (PriceDataPoint.mk "Daegu/Suseong" "Ulsan/Nam" "11t" 410000)).
    + right. left. reflexivity.
    + vm_compute. lia.
Defined.

(** C2 as stated fails.  A fallback result labelled with its provinces can
    bear the labels of a non-fallback result: the route from "Seoul" to
    "Busan", observed five times, has two results, its own and the
    province fallback of the route between the districts.  And the
    analyzer groups by the string [origin||destination||vehicleType],
    which two triples can share: of two routes with five observations
    each, one gets a result, computed from the ten prices, and the other
    none. *)
Lemma one_result_per_triple_counterexample :
  (observations "Seoul" "Busan" "11t" overlappingMarket = 5%nat
   /\ map RouteMedianResult.isFallback
        (filter (labelled "Seoul" "Busan" "11t")
           (analyzeMarketData sampleMath overlappingMarket))
      = [false; true])
  /\ (observations "A||B" "C" "5t" collidingMarket = 5%nat
      /\ observations "A" "B||C" "5t" collidingMarket = 5%nat
      /\ map RouteMedianResult.sampleSize
           (analyzeMarketData sampleMath collidingMarket) = [10]
      /\ filter (labelled "A" "B||C" "5t")
           (analyzeMarketData sampleMath collidingMarket) = []).
Proof. vm_compute. repeat split; reflexivity. Qed.

(* ================================================================== *)
(** ** Order statistics and the IQR filter *)
(* ================================================================== *)

Lemma insertAsc_In (x z : Q) (xs : list Q) :
  In z (insertAsc x xs) <-> z = x \/ In z xs.
Proof.
  induction xs as [|y ys IH]; cbn.
  - intuition auto.
  - destruct (Qle_bool x y); cbn; [intuition auto|]. rewrite IH. intuition auto.
Qed.

Lemma insertAsc_length (x : Q) (xs : list Q) :
  List.length (insertAsc x xs) = S (List.length xs).
Proof.
  induction xs as [|y ys IH]; cbn; [reflexivity|].
  destruct (Qle_bool x y); cbn; [reflexivity | now rewrite IH].
Qed.

Lemma sortedNumeric_length (values : list Q) :
  List.length (sortedNumeric values) = List.length values.
Proof.
  induction values as [|v vs IH]; [reflexivity|].
  change (sortedNumeric (v :: vs)) with (insertAsc v (sortedNumeric vs)).
  cbn [List.length]. now rewrite insertAsc_length, IH.
Qed.

Lemma insertAsc_sorted (x : Q) (xs : list Q) :
  StronglySorted Qle xs -> StronglySorted Qle (insertAsc x xs).
Proof.
  induction 1 as [|y ys Hs IH Hall]; cbn.
  - repeat constructor.
  - destruct (Qle_bool x y) eqn:E.
    + apply Qle_bool_true in E. constructor; [now constructor|].
      constructor; [exact E|]. rewrite Forall_forall in *.
      intros z Hz. specialize (Hall z Hz). lra.
    + apply Qle_bool_false in E. constructor; [exact IH|].
      rewrite Forall_forall in *. intros z Hz. apply insertAsc_In in Hz.
      destruct Hz as [-> | Hz]; [lra | now apply Hall].
Qed.

Lemma sortedNumeric_sorted (values : list Q) :
  StronglySorted Qle (sortedNumeric values).
Proof.
  induction values as [|v vs IH]; [constructor|].
  change (sortedNumeric (v :: vs)) with (insertAsc v (sortedNumeric vs)).
  now apply insertAsc_sorted.
Qed.

Lemma nth_sorted (s : list Q) (i j : nat) :
  StronglySorted Qle s -> (i <= j)%nat -> (j < List.length s)%nat ->
  nth i s 0 <= nth j s 0.
Proof.
  intro Hs. revert i j. induction Hs as [|x s Hs IH Hall]; intros i j Hij Hj.
  - cbn in Hj. lia.
  - destruct i as [|i], j as [|j]; cbn in *; try lia.
    + lra.
    + rewrite Forall_forall in Hall. apply Hall, nth_In. lia.
    + apply IH; lia.
Qed.

Lemma at_sorted (s : list Q) (i j : Z) :
  StronglySorted Qle s -> (0 <= i <= j)%Z -> (j < Z.of_nat (List.length s))%Z ->
  at_ s i <= at_ s j.
Proof.
  intros Hs Hij Hj. unfold at_. apply nth_sorted; [assumption | lia | lia].
Qed.

Lemma convex_between (a b f : Q) :
  a <= b -> 0 <= f <= 1 -> a <= a * (1 - f) + b * f <= b.
Proof.
  intros Hab [Hf0 Hf1].
  assert (H1 : 0 <= (b - a) * f) by (apply Qmult_le_0_compat; lra).
  assert (H2 : 0 <= (b - a) * (1 - f)) by (apply Qmult_le_0_compat; lra).
  split; lra.
Qed.

Lemma quantile_unfold (a b : Q) (rest : list Q) (q : Q) :
  let s := a :: b :: rest in
  let pos := q * (len s - 1) in
  quantile s q
  = if (Qfloor pos =? Qceiling pos)%Z then at_ s (Qfloor pos)
    else at_ s (Qfloor pos) * (1 - (pos - inject_Z (Qfloor pos)))
         + at_ s (Qceiling pos) * (pos - inject_Z (Qfloor pos)).
Proof. reflexivity. Qed.

Lemma floor_ceiling_le (x : Q) : (Qfloor x <= Qceiling x)%Z.
Proof. rewrite Zle_Qle. apply Qle_floor_ceiling. Qed.

Lemma Qfloor_nonneg (x : Q) : 0 <= x -> (0 <= Qfloor x)%Z.
Proof.
  intro H. change 0%Z with (Qfloor (inject_Z 0)). apply Qfloor_resp_le. exact H.
Qed.

Lemma Qceiling_upper (x : Q) (n : Z) : x <= inject_Z n -> (Qceiling x <= n)%Z.
Proof.
  intro H. rewrite <- (Qceiling_Z n). now apply Qceiling_resp_le.
Qed.

Lemma pos_bounds (q : Q) (s : list Q) :
  s <> [] -> 0 <= q <= 1 -> 0 <= pos_of q s <= len s - 1.
Proof.
  intros Hne [Hq0 Hq1]. unfold pos_of.
  assert (Hl : 0 <= len s - 1).
  { destruct s as [|x s]; [contradiction|]. rewrite len_cons.
    pose proof (len_nonneg s). lra. }
  assert (H1 : 0 <= q * (len s - 1)) by (apply Qmult_le_0_compat; lra).
  assert (H2 : 0 <= (1 - q) * (len s - 1)) by (apply Qmult_le_0_compat; lra).
  split; lra.
Qed.

Lemma len_pred_Z {A} (s : list A) :
  len s - 1 == inject_Z (Z.of_nat (List.length s) - 1).
Proof. unfold len. rewrite inject_Z_pred. reflexivity. Qed.

(** A quantile of a sorted list lies between the order statistics at the
    floor and at the ceiling of its position. *)
Lemma quantile_between (s : list Q) (q : Q) :
  StronglySorted Qle s -> s <> [] -> 0 <= q <= 1 ->
  at_ s (Qfloor (pos_of q s)) <= quantile s q <= at_ s (Qceiling (pos_of q s)).
Proof.
  intros Hs Hne Hq.
  pose proof (pos_bounds q s Hne Hq) as [Hp0 Hp1].
  assert (Hlo : (0 <= Qfloor (pos_of q s))%Z) by now apply Qfloor_nonneg.
  assert (Hhi : (Qceiling (pos_of q s) < Z.of_nat (List.length s))%Z).
  { assert (H : (Qceiling (pos_of q s) <= Z.of_nat (List.length s) - 1)%Z).
    { apply Qceiling_upper. rewrite <- len_pred_Z. exact Hp1. }
    lia. }
  pose proof (floor_ceiling_le (pos_of q s)) as Hfc.
  assert (Hord : at_ s (Qfloor (pos_of q s)) <= at_ s (Qceiling (pos_of q s))).
  { apply at_sorted; [assumption | lia | lia]. }
  destruct s as [|a [|b rest]]; [contradiction | | ].
  - (* one value *)
    assert (Hz : pos_of q [a] == 0).
    { unfold pos_of, len. cbn. ring. }
    rewrite (Qfloor_comp _ _ Hz), (Qceiling_comp _ _ Hz). cbn. split; lra.
  - rewrite quantile_unfold. fold (pos_of q (a :: b :: rest)).
    set (pos := pos_of q (a :: b :: rest)) in *.
    destruct (Qfloor pos =? Qceiling pos)%Z eqn:E.
    + split; [lra | exact Hord].
    + apply convex_between; [exact Hord|].
      pose proof (Qfloor_le pos). pose proof (Qlt_floor pos) as Hlt.
      rewrite inject_Z_succ in Hlt. split; lra.
Qed.

Lemma filter_nonempty {A} (p : A -> bool) (xs : list A) (x : A) :
  In x xs -> p x = true -> filter p xs <> [].
Proof.
  intros Hin Hp Hnil. assert (H : In x (filter p xs)) by (apply filter_In; now split).
  rewrite Hnil in H. destruct H.
Qed.

Lemma at_In (s : list Q) (i : Z) :
  (0 <= i < Z.of_nat (List.length s))%Z -> In (at_ s i) s.
Proof. intro H. unfold at_. apply nth_In. lia. Qed.

Lemma applyIQRFilter_filtered (values : list Q) :
  IQRResult.filtered (applyIQRFilter values)
  = filter (inBand (sortedNumeric values)) (sortedNumeric values).
Proof. reflexivity. Qed.

Lemma inBand_between (s : list Q) (v : Q) :
  quantile s 0.25 <= v -> v <= quantile s 0.75 -> inBand s v = true.
Proof.
  intros H1 H3. unfold inBand.
  apply andb_true_iff. split; apply Qle_bool_true; lra.
Qed.

Lemma inBand_pair (a b : Q) : a <= b -> inBand [a; b] a = true.
Proof.
  intro Hab. unfold inBand.
  assert (E1 : quantile [a; b] 0.25
               = a * (1 - (0.25 * (2 - 1) - 0)) + b * (0.25 * (2 - 1) - 0))
    by reflexivity.
  assert (E3 : quantile [a; b] 0.75
               = a * (1 - (0.75 * (2 - 1) - 0)) + b * (0.75 * (2 - 1) - 0))
    by reflexivity.
  rewrite E1, E3.
  apply andb_true_iff. split; apply Qle_bool_true; lra.
Qed.

(** With three values or more, the order statistic at the ceiling of the
    first quartile's position is not above the one at the floor of the
    third quartile's position. *)
Lemma quartile_positions (s : list Q) :
  (3 <= List.length s)%nat ->
  (0 <= Qceiling (pos_of 0.25 s) <= Qfloor (pos_of 0.75 s))%Z
  /\ (Qfloor (pos_of 0.75 s) < Z.of_nat (List.length s))%Z.
Proof.
  intro Hn.
  assert (Hne : s <> []) by (destruct s; [cbn in Hn; lia | discriminate]).
  assert (Hq1 : 0 <= 0.25 <= 1) by lra. assert (Hq3 : 0 <= 0.75 <= 1) by lra.
  pose proof (pos_bounds 0.25 s Hne Hq1) as [Hp1 _].
  pose proof (pos_bounds 0.75 s Hne Hq3) as [_ Hp3].
  assert (Hlen : 2 <= len s - 1).
  { rewrite len_pred_Z. change 2 with (inject_Z 2). rewrite <- Zle_Qle. lia. }
  assert (Hgap : pos_of 0.25 s + 1 <= pos_of 0.75 s) by (unfold pos_of; lra).
  pose proof (Qceiling_lt (pos_of 0.25 s)) as Hc. rewrite inject_Z_pred in Hc.
  pose proof (Qlt_floor (pos_of 0.75 s)) as Hf. rewrite inject_Z_succ in Hf.
  pose proof (Qle_ceiling (pos_of 0.25 s)) as Hc'.
  pose proof (Qfloor_le (pos_of 0.75 s)) as Hf'.
  assert (H1 : inject_Z (Qceiling (pos_of 0.25 s))
               < inject_Z (Qfloor (pos_of 0.75 s) + 1)).
  { rewrite inject_Z_succ. lra. }
  assert (H2 : inject_Z (-1) < inject_Z (Qceiling (pos_of 0.25 s))).
  { change (inject_Z (-1)) with (-1 # 1). lra. }
  assert (H3 : inject_Z (Qfloor (pos_of 0.75 s))
               < inject_Z (Z.of_nat (List.length s))).
  { fold (len s). lra. }
  rewrite <- Zlt_Qlt in H1, H2, H3. lia.
Qed.

(** The IQR band of a nonempty sample keeps at least one value. *)
Lemma applyIQRFilter_nonempty (values : list Q) :
  values <> [] -> IQRResult.filtered (applyIQRFilter values) <> [].
Proof.
  intro Hne. rewrite applyIQRFilter_filtered.
  pose proof (sortedNumeric_sorted values) as Hs.
  pose proof (sortedNumeric_length values) as Hlen.
  remember (sortedNumeric values) as s eqn:Es. clear Es.
  destruct s as [|a [|b [|c rest]]].
  - destruct values; [contradiction | discriminate].
  - apply (filter_nonempty _ _ a); [now left|].
    apply inBand_between; cbn; lra.
  - inversion Hs as [|? ? _ Hall]; subst. apply Forall_inv in Hall.
    apply (filter_nonempty _ _ a); [now left | now apply inBand_pair].
  - set (s := a :: b :: c :: rest) in *.
    assert (Hn : (3 <= List.length s)%nat) by (cbn; lia).
    assert (Hsne : s <> []) by discriminate.
    destruct (quartile_positions s Hn) as [[Hk0 Hkl] Hl].
    assert (Hq1 : 0 <= 0.25 <= 1) by lra. assert (Hq3 : 0 <= 0.75 <= 1) by lra.
    destruct (quantile_between s 0.25 Hs Hsne Hq1) as [_ H1].
    destruct (quantile_between s 0.75 Hs Hsne Hq3) as [H3 _].
    set (k := Qceiling (pos_of 0.25 s)) in *.
    set (l := Qfloor (pos_of 0.75 s)) in *.
    assert (Hkl' : at_ s k <= at_ s l) by (apply at_sorted; [assumption | lia | lia]).
    apply (filter_nonempty _ _ (at_ s k)); [apply at_In; lia|].
    apply inBand_between; lra.
Qed.

(* ================================================================== *)
(** ** analyzeMarketData: what each result is computed from *)
(* ================================================================== *)

(** Every result is computed from a nonempty pool of prices and from the
    values kept of it: the IQR-filtered pool, or the whole pool when even
    the province pool is small. *)
Lemma analyzeMarketData_pool (Math : JSMath) (data : list PriceDataPoint.t)
    (r : RouteMedianResult.t) :
  In r (analyzeMarketData Math data) ->
  exists pool values,
    pool <> []
    /\ RouteMedianResult.sampleSize r = len pool
    /\ RouteMedianResult.filteredSize r = len values
    /\ (values = IQRResult.filtered (applyIQRFilter pool)
        \/ (values = pool /\ (List.length pool < 5)%nat
            /\ RouteMedianResult.isFallback r = true))
    /\ RouteMedianResult.confidenceScore r
       = computeConfidence Math (RouteMedianResult.sampleSize r) values
           (RouteMedianResult.isFallback r)
    /\ RouteMedianResult.median r = Math_round (median (sortedNumeric values))
    /\ RouteMedianResult.q1 r = Math_round (quantile (sortedNumeric pool) 0.25)
    /\ RouteMedianResult.q3 r = Math_round (quantile (sortedNumeric pool) 0.75).
Proof.
  intro Hin. apply analyzeMarketData_shape in Hin.
  destruct Hin as [k [g [Hentry [[Hen ->] | [Hen [_ [pg [Hget [Hne Hcase]]]]]]]]].
  - exists (Group.prices g), (IQRResult.filtered (applyIQRFilter (Group.prices g))).
    split; [eapply routeGroups_nonempty; eassumption|].
    repeat split; try reflexivity. now left.
  - destruct Hcase as [[Hpen ->] | [Hpen ->]].
    + exists (Group.prices pg), (IQRResult.filtered (applyIQRFilter (Group.prices pg))).
      split; [exact Hne|]. repeat split; try reflexivity. now left.
    + exists (Group.prices pg), (Group.prices pg).
      split; [exact Hne|]. repeat split; try reflexivity.
      right. repeat split. now apply enough_false.
Qed.

(* ================================================================== *)
(** ** Confidence score: the formula *)
(* ================================================================== *)

Lemma len_ge_2 {A} (xs : list A) :
  Qle_bool 2 (len xs) = negb (List.length xs <? 2)%nat.
Proof.
  destruct (List.length xs <? 2)%nat eqn:E; cbn.
  - apply Nat.ltb_lt in E. apply Qle_bool_false. unfold len.
    change 2 with (inject_Z 2). rewrite <- Zlt_Qlt. lia.
  - apply Nat.ltb_ge in E. apply Qle_bool_true. unfold len.
    change 2 with (inject_Z 2). rewrite <- Zle_Qle. lia.
Qed.

Lemma computeConfidence_spec (Math : JSMath) (sampleSize : Q)
    (filteredValues : list Q) (isFallback : bool) :
  computeConfidence Math sampleSize filteredValues isFallback
  == specConfidencePenaltyThenRound Math sampleSize filteredValues isFallback.
Proof.
  unfold computeConfidence, specConfidencePenaltyThenRound, round2, specRawScore.
  match goal with
  | |- Math_round ?x / 100 == Math_round ?y / 100 =>
      assert (H : x == y); [|now rewrite (Math_round_comp _ _ H)]
  end.
  assert (Hsize : Math_min (sampleSize / 30) 1.0 == specSizeFactor sampleSize).
  { unfold specSizeFactor. apply Math_min_comp; reflexivity. }
  assert (Hcons :
    (if Qle_bool 2 (len filteredValues)
     then
       if Qlt_bool 0 (sum filteredValues / len filteredValues)
       then
         Math_max 0
           (1.0 - Math_sqrt Math
                    (fold_left
                       (fun sum0 v =>
                          sum0 + (v - sum filteredValues / len filteredValues) ^ 2)
                       filteredValues 0 / len filteredValues)
                  / (sum filteredValues / len filteredValues))
       else 1.0
     else 1.0) == specConsistencyFactor Math filteredValues).
  { unfold specConsistencyFactor, specStdDev, specMean, Qlt_bool.
    rewrite len_ge_2.
    destruct (List.length filteredValues <? 2)%nat; cbn [negb orb]; [reflexivity|].
    destruct (Qle_bool (sum filteredValues / len filteredValues) 0);
      cbn [negb]; [reflexivity|].
    apply Math_max_comp; [reflexivity | lra]. }
  rewrite Hsize, Hcons. unfold specPenalty. destruct isFallback; ring.
Qed.





(* ================================================================== *)
(** ** Confidence score: the bound *)
(* ================================================================== *)

(** C4 (code defect).  The score is documented as a 0-1 score, and is one
    as long as the arithmetic stays finite.  Two prices of 1e308, numbers
    the import accepts, overflow in the sum: the mean is infinite, the
    coefficient of variation is infinity over infinity, and the score is
    NaN, with or without the fallback penalty: not a number of [[0, 1]]
    (every comparison with NaN is false). *)
Theorem confidence_score_nan_on_overflow :
  PrimFloat.is_nan
    (Binary64.computeConfidence SpecBinary64.overflowSampleSize
       SpecBinary64.overflowValues true) = true
  /\ PrimFloat.is_nan
       (Binary64.computeConfidence SpecBinary64.overflowSampleSize
          SpecBinary64.overflowValues false) = true
  /\ PrimFloat.leb PrimFloat.zero
       (Binary64.computeConfidence SpecBinary64.overflowSampleSize
          SpecBinary64.overflowValues true) = false
  /\ PrimFloat.leb
       (Binary64.computeConfidence SpecBinary64.overflowSampleSize
          SpecBinary64.overflowValues true) PrimFloat.one = false.
Proof. vm_compute. repeat split; reflexivity. Qed.

Lemma sqrtApprox_nonneg (x : Q) : 0 <= sqrtApprox x.
Proof.
  unfold sqrtApprox. destruct (Qle_bool x 0); [lra|].
  apply Qdiv_nonneg; [|lra].
  change 0 with (inject_Z 0). rewrite <- Zle_Qle. apply Z.sqrt_nonneg.
Qed.

(* ================================================================== *)
(** ** The IQR filter never empties a sample *)
(* ================================================================== *)

Lemma sortedNumeric_nonempty (values : list Q) :
  values <> [] -> sortedNumeric values <> [].
Proof.
  intros Hne Hnil. pose proof (sortedNumeric_length values) as H.
  rewrite Hnil in H. destruct values; [contradiction | discriminate].
Qed.

(** C9.  The IQR filter of a nonempty list of prices is nonempty; and
    within [analyzeMarketData] every list handed to [quantile] (the sorted
    pool for the quartiles, the sorted kept values for the median) is
    nonempty, so the branch of [quantile] for the empty list is never
    taken. *)
Theorem iqr_filter_keeps_a_value :
  (forall values : list Q,
      values <> [] -> IQRResult.filtered (applyIQRFilter values) <> [])
  /\ (forall (Math : JSMath) data r,
        In r (analyzeMarketData Math data) ->
        exists pool values,
          sortedNumeric pool <> []
          /\ sortedNumeric values <> []
          /\ RouteMedianResult.sampleSize r = len pool
          /\ RouteMedianResult.filteredSize r = len values
          /\ RouteMedianResult.median r
             = Math_round (median (sortedNumeric values))
          /\ RouteMedianResult.q1 r
             = Math_round (quantile (sortedNumeric pool) 0.25)
          /\ RouteMedianResult.q3 r
             = Math_round (quantile (sortedNumeric pool) 0.75)
          /\ (values = IQRResult.filtered (applyIQRFilter pool)
              \/ values = pool)).
Proof.
  split; [exact applyIQRFilter_nonempty|].
  intros Math data r Hin.
  destruct (analyzeMarketData_pool Math data r Hin)
    as [pool [values [Hne [Hs [Hf [Hv [_ [Hm [H1 H3]]]]]]]]].
  exists pool, values.
  assert (Hvne : values <> []).
  { destruct Hv as [-> | [-> _]]; [now apply applyIQRFilter_nonempty | exact Hne]. }
  split; [now apply sortedNumeric_nonempty|].
  split; [now apply sortedNumeric_nonempty|].
  repeat split; try assumption.
  destruct Hv as [-> | [-> _]]; [now left | now right].
Qed.

Lemma iqr_filter_keeps_a_value_witness :
  IQRResult.filtered (applyIQRFilter [10; 12; 11; 13; 12; 100]) <> [].
Proof.
  apply (proj1 iqr_filter_keeps_a_value). discriminate.
Defined.

(* ================================================================== *)
(** ** Route distance is symmetric *)
(* ================================================================== *)

Lemma substring_all (s : string) : String.substring 0 (String.length s) s = s.
Proof. induction s as [|c s IH]; cbn; [reflexivity | now rewrite IH]. Qed.

Lemma corridorSplits_complete (prov1 prov2 : string) :
  In (prov1, prov2) (corridorSplits (prov1 ++ "→" ++ prov2)).
Proof.
  induction prov1 as [|c prov1 IH].
  - cbn [append]. destruct prov2 as [|c2 prov2]; [now left|].
    unfold corridorSplits at 1. fold corridorSplits.
    apply in_or_app. left.
    change (String.prefix "→" ("→" ++ String c2 prov2)) with true.
    left. f_equal. cbn [append String.length Nat.sub substring].
    now rewrite substring_all.
  - cbn [append corridorSplits]. apply in_or_app. right.
    apply in_map_iff. exists (prov1, prov2). split; [reflexivity | exact IH].
Qed.

Lemma property_In {A} (table : list (string * A)) (key : string) (v : A) :
  property table key = Some v -> In (key, v) table.
Proof.
  induction table as [|[k w] table IH]; cbn; [discriminate|].
  destruct (String.eqb k key) eqn:E.
  - apply String.eqb_eq in E. intro H. injection H as ->. subst. now left.
  - intro H. right. now apply IH.
Qed.

Lemma corridor_listed (prov1 prov2 : string) (d : Q) :
  property ROAD_DISTANCES (prov1 ++ "→" ++ prov2) = Some d ->
  In (prov1, prov2) corridorPairs.
Proof.
  intro H. apply property_In in H. unfold corridorPairs.
  apply in_flat_map. exists ((prov1 ++ "→" ++ prov2)%string, d).
  split; [exact H | apply corridorSplits_complete].
Qed.

Lemma corridors_one_spelling :
  forallb reverseAbsent corridorPairs = true.
Proof. vm_compute. reflexivity. Qed.

Lemma corridor_reverse_absent (prov1 prov2 : string) (d : Q) :
  property ROAD_DISTANCES (prov1 ++ "→" ++ prov2) = Some d ->
  property ROAD_DISTANCES (prov2 ++ "→" ++ prov1) = None.
Proof.
  intro H. apply corridor_listed in H.
  pose proof corridors_one_spelling as Hall. rewrite forallb_forall in Hall.
  specialize (Hall _ H). unfold reverseAbsent in Hall. cbn [fst snd] in Hall.
  destruct (property ROAD_DISTANCES (prov2 ++ "→" ++ prov1)); [discriminate|].
  reflexivity.
Qed.

Lemma lookupDistance_sym (prov1 prov2 : string) :
  lookupDistance prov1 prov2 = lookupDistance prov2 prov1.
Proof.
  unfold lookupDistance, orElse.
  destruct (property ROAD_DISTANCES (prov1 ++ "→" ++ prov2)) as [d1|] eqn:E1.
  - now rewrite (corridor_reverse_absent _ _ _ E1).
  - now destruct (property ROAD_DISTANCES (prov2 ++ "→" ++ prov1)).
Qed.

Section HaversineSymmetry.

Variable Math : JSMath.

(** What the symmetry needs of [Math]: the functions respect equality of
    numbers, and the sine is odd. *)
Hypothesis sin_comp : forall x y, x == y -> Math_sin Math x == Math_sin Math y.
Hypothesis sin_odd : forall x, Math_sin Math (- x) == - Math_sin Math x.
Hypothesis sqrt_comp : forall x y, x == y -> Math_sqrt Math x == Math_sqrt Math y.
Hypothesis atan2_comp :
  forall y y' x x', y == y' -> x == x' ->
                    Math_atan2 Math y x == Math_atan2 Math y' x'.

Lemma sin_half_swap (u v : Q) :
  Math_sin Math ((v - u) * Math_PI Math / 180 / 2) ^ 2
  == Math_sin Math ((u - v) * Math_PI Math / 180 / 2) ^ 2.
Proof.
  assert (H : (v - u) * Math_PI Math / 180 / 2
              == - ((u - v) * Math_PI Math / 180 / 2)) by field.
  rewrite (sin_comp _ _ H), sin_odd.
  change (?x ^ 2) with (x * x). ring.
Qed.

Lemma haversineKm_sym (p1 p2 : Q * Q) :
  haversineKm Math p1 p2 == haversineKm Math p2 p1.
Proof.
  destruct p1 as [lat1 lng1], p2 as [lat2 lng2]. unfold haversineKm.
  set (a12 := Math_sin Math ((lat2 - lat1) * Math_PI Math / 180 / 2) ^ 2 + _).
  set (a21 := Math_sin Math ((lat1 - lat2) * Math_PI Math / 180 / 2) ^ 2 + _).
  assert (Ha : a12 == a21).
  { subst a12 a21. rewrite (sin_half_swap lat1 lat2), (sin_half_swap lng1 lng2).
    ring. }
  assert (Ha' : 1 - a12 == 1 - a21) by (rewrite Ha; reflexivity).
  rewrite (atan2_comp _ _ _ _ (sqrt_comp _ _ Ha) (sqrt_comp _ _ Ha')).
  reflexivity.
Qed.

Lemma getRouteDistance_sym (origin destination : string) :
  getRouteDistance Math origin destination
  = getRouteDistance Math destination origin.
Proof.
  unfold getRouteDistance.
  rewrite (String.eqb_sym (extractProvince destination)).
  destruct (String.eqb (extractProvince origin) (extractProvince destination));
    [reflexivity|].
  rewrite (lookupDistance_sym (extractProvince destination)).
  destruct (lookupDistance (extractProvince origin) (extractProvince destination));
    [reflexivity|].
  destruct (member PROVINCE_COORDS (extractProvince origin)) as [c1| |],
           (member PROVINCE_COORDS (extractProvince destination)) as [c2| |];
    try reflexivity.
  do 2 f_equal. apply Math_round_comp.
  rewrite (haversineKm_sym c1 c2). reflexivity.
Qed.

End HaversineSymmetry.

(** Symmetry of the distances returned.  Provided the functions of [Math]
    respect equality of numbers and [Math.sin] is odd: whenever [getRouteDistance] returns a
    result for a pair of locations, it returns the same distance and the
    same source for the pair in the opposite order, be it the
    same-province default, the corridor lookup, the haversine estimate or
    the 200 km default.  In particular "Seoul/X" to "Busan/Y" and
    "Busan/Y" to "Seoul/X" both resolve to 325 km. *)
Theorem getRouteDistance_symmetric :
  forall (Math : JSMath),
    (forall x y, x == y -> Math_sin Math x == Math_sin Math y) ->
    (forall x, Math_sin Math (- x) == - Math_sin Math x) ->
    (forall x y, x == y -> Math_sqrt Math x == Math_sqrt Math y) ->
    (forall y y' x x', y == y' -> x == x' ->
                       Math_atan2 Math y x == Math_atan2 Math y' x') ->
    (forall origin destination result,
        getRouteDistance Math origin destination = Some result ->
        getRouteDistance Math destination origin = Some result)
    /\ getRouteDistance Math "Seoul/X" "Busan/Y"
       = Some (RouteDistanceResult.mk 325 lookup)
    /\ getRouteDistance Math "Busan/Y" "Seoul/X"
       = Some (RouteDistanceResult.mk 325 lookup).
Proof.
  intros Math Hsin Hodd Hsqrt Hatan. split.
  - intros origin destination result H.
    now rewrite <- (getRouteDistance_sym Math Hsin Hodd Hsqrt Hatan
                      origin destination).
  - split; reflexivity.
Qed.

Lemma sampleMath_sin_comp (x y : Q) :
  x == y -> Math_sin sampleMath x == Math_sin sampleMath y.
Proof. intro H. cbn. now rewrite H. Qed.

Lemma sampleMath_sin_odd (x : Q) :
  Math_sin sampleMath (- x) == - Math_sin sampleMath x.
Proof. cbn. field. Qed.

Lemma sampleMath_sqrt_comp (x y : Q) :
  x == y -> Math_sqrt sampleMath x == Math_sqrt sampleMath y.
Proof.
  intro H. cbn. unfold sqrtApprox.
  rewrite (Qle_bool_comp x y 0 0 H (Qeq_refl 0)).
  destruct (Qle_bool y 0); [reflexivity|].
  assert (H' : x * 1000000000000 == y * 1000000000000) by now rewrite H.
  now rewrite (Qfloor_comp _ _ H').
Qed.

Lemma sampleMath_atan2_comp (y y' x x' : Q) :
  y == y' -> x == x' -> Math_atan2 sampleMath y x == Math_atan2 sampleMath y' x'.
Proof.
  intros Hy Hx. cbn. rewrite (Qle_bool_comp x x' 0 0 Hx (Qeq_refl 0)).
  destruct (Qle_bool x' 0); [reflexivity | now rewrite Hy, Hx].
Qed.

Lemma getRouteDistance_symmetric_witness :
  exists result,
    getRouteDistance sampleMath "Jeju/Seogwipo" "Gangwon/Chuncheon" = Some result
    /\ getRouteDistance sampleMath "Gangwon/Chuncheon" "Jeju/Seogwipo"
       = Some result
    /\ RouteDistanceResult.source result = haversine.
Proof.
  eexists.
  assert (H : getRouteDistance sampleMath "Jeju/Seogwipo" "Gangwon/Chuncheon"
              = Some _) by (vm_compute; reflexivity).
  split; [exact H|]. split; [|reflexivity].
  apply (proj1 (getRouteDistance_symmetric sampleMath sampleMath_sin_comp
                  sampleMath_sin_odd sampleMath_sqrt_comp sampleMath_atan2_comp)).
  exact H.
Defined.

(** C7 (code defect).  The source documents that an unknown province
    defaults to 200 km.  A location whose province is spelled like a
    property every object inherits, here "constructor", is answered by the
    table of coordinates with that property; against a province that has
    coordinates and no corridor with it the haversine formula is called on
    it and throws, in either order: no distance is returned, where a
    province the table does not know at all gets the 200 km. *)
Theorem getRouteDistance_throws_on_inherited_province :
  member PROVINCE_COORDS (extractProvince "constructor/x") = Inherited
  /\ getRouteDistance sampleMath "constructor/x" "Seoul/Gangnam" = None
  /\ getRouteDistance sampleMath "Seoul/Gangnam" "constructor/x" = None
  /\ member PROVINCE_COORDS (extractProvince "Atlantis/x") = Missing
  /\ getRouteDistance sampleMath "Atlantis/x" "Seoul/Gangnam"
     = Some (RouteDistanceResult.mk 200 haversine).
Proof. repeat split; reflexivity. Qed.

(* ================================================================== *)
(** ** analyzeMarketData: the fallback *)
(* ================================================================== *)

(** C3.  A result is a fallback result exactly when it was pushed for an
    exact-route group of fewer than five samples, and every such group is
    covered by a fallback result.  For such a group the province pool
    exists; when the pool has five samples or more the result is computed
    from the IQR-filtered pool; otherwise it is computed from the pool as it
    is, without filtering, with [iqr = lowerBound = upperBound = 0].  Either
    way [isFallback = true] and [fallbackLevel = "province"]. *)
Theorem fallback_exactly_for_small_groups :
  forall (Math : JSMath) (data : list PriceDataPoint.t),
    let routeGroups := routeGroupsOf data in
    let provinceGroups := provinceGroupsOf data in
    let results := analyzeMarketData Math data in
    (forall r, In r results ->
       (RouteMedianResult.isFallback r = true <->
        exists k g, In (k, g) routeGroups
                    /\ (List.length (Group.prices g) < 5)%nat
                    /\ r = fallbackResult Math provinceGroups g)
       /\ (RouteMedianResult.isFallback r = false <->
           exists k g, In (k, g) routeGroups
                       /\ (5 <= List.length (Group.prices g))%nat
                       /\ r = exactResult Math g))
    /\ (forall k g, In (k, g) routeGroups ->
          (5 <= List.length (Group.prices g))%nat ->
          In (exactResult Math g) results)
    /\ (forall k g, In (k, g) routeGroups ->
          (List.length (Group.prices g) < 5)%nat ->
          exists pg,
            mapGet (groupProvinceKey g) provinceGroups = Some pg
            /\ Group.prices pg = pricesFor provinceKeyOf (groupProvinceKey g) data
            /\ (exists r, In r results
                          /\ isFallbackFor (groupProvinceKey g) r = true)
            /\ ((5 <= List.length (Group.prices pg))%nat ->
                fallbackResult Math provinceGroups g = provinceResult Math pg)
            /\ ((List.length (Group.prices pg) < 5)%nat ->
                fallbackResult Math provinceGroups g
                = rawFallbackResult Math g (Group.prices pg)))
    /\ (forall pg,
          let r := provinceResult Math pg in
          let kept := IQRResult.filtered (applyIQRFilter (Group.prices pg)) in
          RouteMedianResult.isFallback r = true
          /\ RouteMedianResult.fallbackLevel r = Some province
          /\ RouteMedianResult.sampleSize r = len (Group.prices pg)
          /\ RouteMedianResult.filteredSize r = len kept
          /\ RouteMedianResult.median r = Math_round (median (sortedNumeric kept))
          /\ RouteMedianResult.confidenceScore r
             = computeConfidence Math (len (Group.prices pg)) kept true)
    /\ (forall g prices,
          let r := rawFallbackResult Math g prices in
          RouteMedianResult.iqr r = 0
          /\ RouteMedianResult.lowerBound r = 0
          /\ RouteMedianResult.upperBound r = 0
          /\ RouteMedianResult.isFallback r = true
          /\ RouteMedianResult.fallbackLevel r = Some province
          /\ RouteMedianResult.sampleSize r = len prices
          /\ RouteMedianResult.filteredSize r = len prices
          /\ RouteMedianResult.median r
             = Math_round (median (sortedNumeric prices))
          /\ RouteMedianResult.confidenceScore r
             = computeConfidence Math (len prices) prices true).
Proof.
  intros Math data routeGroups provinceGroups results.
  subst routeGroups provinceGroups results.
  assert (Hkeys : forall key pg,
             mapGet key (provinceGroupsOf data) = Some pg ->
             groupProvinceKey pg = key)
    by apply provinceGroups_keys.
  split.
  { intros r Hin. apply analyzeMarketData_In, computeResults_shape in Hin.
    destruct Hin as [k [g [Hentry [[Hen ->] | [Hen ->]]]]].
    - destruct (exactResult_key Math g) as [Hf _]. split.
      + split; [intro H; congruence|].
        intros [k' [g' [_ [_ Heq]]]].
        destruct (fallbackResult_key Math (provinceGroupsOf data) Hkeys g') as [Hf' _].
        rewrite <- Heq in Hf'. exact Hf'.
      + split; [|intros _; exact Hf].
        intros _. exists k, g. repeat split; [exact Hentry | now apply enough_true].
    - destruct (fallbackResult_key Math (provinceGroupsOf data) Hkeys g) as [Hf _]. split.
      + split; [|intros _; exact Hf].
        intros _. exists k, g. repeat split; [exact Hentry | now apply enough_false].
      + split; [intro H; congruence|].
        intros [k' [g' [_ [_ Heq]]]].
        destruct (exactResult_key Math g') as [Hf' _].
        rewrite <- Heq in Hf'. exact Hf'. }
  split.
  { intros k g Hentry Hbig. apply analyzeMarketData_In.
    apply enough_true in Hbig. clear Hkeys.
    generalize (@nil RouteKey). revert Hentry.
    induction (routeGroupsOf data) as [|[k1 g1] rest IH]; intros Hentry processed;
      [destruct Hentry|].
    cbn [computeResults]. fold (enough g1).
    destruct Hentry as [Heq | Hentry].
    - injection Heq as -> ->. rewrite Hbig. now left.
    - destruct (enough g1); [right; now apply IH|].
      destruct (setHas _ processed); [now apply IH | right; now apply IH]. }
  split.
  { intros k g Hentry Hsmall.
    destruct (provinceGroups_pool data k g Hentry) as [pg [Hget [Hprices _]]].
    exists pg. split; [exact Hget|]. split; [exact Hprices|]. split.
    - pose proof (fallback_result_unique Math data k g Hentry Hsmall) as Hone.
      destruct (filter (isFallbackFor (groupProvinceKey g))
                  (analyzeMarketData Math data))
        as [|r rs] eqn:Ef; [discriminate Hone|].
      exists r. apply filter_In. rewrite Ef. now left.
    - rewrite (fallbackResult_cases Math _ g pg Hget). split; intro H.
      + apply enough_true in H. now rewrite H.
      + apply enough_false in H. now rewrite H. }
  split; [intros pg; repeat split | intros g prices; repeat split].
Qed.

Lemma fallback_exactly_for_small_groups_witness :
  RouteMedianResult.isFallback sampleResult = true <->
  exists k g, In (k, g) (routeGroupsOf singleObservation)
              /\ (List.length (Group.prices g) < 5)%nat
              /\ sampleResult
                 = fallbackResult sampleMath (provinceGroupsOf singleObservation) g.
Proof.
  apply (proj1 (fallback_exactly_for_small_groups sampleMath singleObservation)).
  vm_compute. left. reflexivity.
Defined.

(* ================================================================== *)
(** ** Worked examples *)
(* ================================================================== *)

Example quantile_even : quantile [1; 2; 3; 4] 0.5 == 2.5.
Proof. reflexivity. Qed.

Example quantile_single : quantile [5] 0.5 = 5.
Proof. reflexivity. Qed.

Example quantile_empty : quantile [] 0.5 = 0.
Proof. reflexivity. Qed.

Example iqr_drops_outlier :
  IQRResult.filtered (applyIQRFilter [10; 12; 11; 13; 12; 100])
  = [10; 11; 12; 12; 13].
Proof. reflexivity. Qed.

Example tier1_seoul_busan :
  exists tier1,
    calculateTier1 (RouteDistanceResult.mk 325 lookup) "11t" COST_DEFAULTS
    = Some tier1
    /\ Tier1Breakdown.fuelCost tier1 = 153214
    /\ Tier1Breakdown.tollCost tier1 = 39000
    /\ Tier1Breakdown.fixedCost tier1 = 150000
    /\ Tier1Breakdown.driverProfit tier1 = 51332
    /\ Tier1Breakdown.subtotal tier1 == 393546.
Proof. eexists. vm_compute. repeat split; reflexivity. Qed.

Example tier1_inherited_vehicle_type :
  calculateTier1 (RouteDistanceResult.mk 325 lookup) "toString" COST_DEFAULTS
  = None.
Proof. reflexivity. Qed.

Example analyze_sample_market :
  map (fun r => (RouteMedianResult.origin r, RouteMedianResult.destination r,
                 RouteMedianResult.isFallback r))
    (analyzeMarketData sampleMath sampleMarket)
  = [ ("Seoul/Gangnam", "Busan/Haeundae", false);
      ("Daegu/Suseong", "Ulsan/Nam", true) ].
Proof. vm_compute. reflexivity. Qed.

Example sample_request_passes_tier1_through :
  exists result,
    calculateFPHPrice sampleMath sampleStore sampleInput = Returned result
    /\ Tier1Breakdown.distanceKm (FPHResult.tier1 result) = 325
    /\ Tier2Breakdown.hasMarketData (FPHResult.tier2 result) = false
    /\ Summary.dataSources (FPHResult.summary result)
       = ["CostMaster"; "RouteDistance (lookup)"].
Proof. eexists. vm_compute. repeat split; reflexivity. Qed.

(* ================================================================== *)
(** ** Sorting *)
(* ================================================================== *)

Lemma insertAsc_perm (x : Q) (xs : list Q) : Permutation (insertAsc x xs) (x :: xs).
Proof.
  induction xs as [|y ys IH]; cbn; [reflexivity|].
  destruct (Qle_bool x y); [reflexivity|].
  rewrite IH. apply perm_swap.
Qed.

Lemma sortedNumeric_perm (values : list Q) :
  Permutation (sortedNumeric values) values.
Proof.
  induction values as [|v vs IH]; [constructor|].
  change (sortedNumeric (v :: vs)) with (insertAsc v (sortedNumeric vs)).
  rewrite insertAsc_perm. now constructor.
Qed.

Lemma sortedNumeric_fixed (s : list Q) :
  StronglySorted Qle s -> sortedNumeric s = s.
Proof.
  induction 1 as [|x s Hs IH Hall]; [reflexivity|].
  change (sortedNumeric (x :: s)) with (insertAsc x (sortedNumeric s)).
  rewrite IH. destruct s as [|y s']; [reflexivity|].
  cbn. apply Forall_inv in Hall. apply Qle_bool_true in Hall. now rewrite Hall.
Qed.

(** X1.  [sortedNumeric] returns the values in ascending order, each as
    often as it occurs in the argument; sorting again changes nothing. *)
Theorem sortedNumeric_sorts :
  forall values : list Q,
    StronglySorted Qle (sortedNumeric values)
    /\ Permutation (sortedNumeric values) values
    /\ sortedNumeric (sortedNumeric values) = sortedNumeric values.
Proof.
  intro values. split; [apply sortedNumeric_sorted|].
  split; [apply sortedNumeric_perm|].
  apply sortedNumeric_fixed, sortedNumeric_sorted.
Qed.

(* ================================================================== *)
(** ** Quantiles *)
(* ================================================================== *)

Lemma quantile_pos (s : list Q) (q : Q) :
  s <> [] ->
  quantile s q
  = if (Qfloor (pos_of q s) =? Qceiling (pos_of q s))%Z
    then at_ s (Qfloor (pos_of q s))
    else at_ s (Qfloor (pos_of q s))
           * (1 - (pos_of q s - inject_Z (Qfloor (pos_of q s))))
         + at_ s (Qceiling (pos_of q s))
           * (pos_of q s - inject_Z (Qfloor (pos_of q s))).
Proof.
  intro Hne. destruct s as [|a [|b rest]]; [contradiction | | reflexivity].
  assert (Hz : pos_of q [a] == 0) by (unfold pos_of, len; cbn; ring).
  rewrite (Qfloor_comp _ _ Hz), (Qceiling_comp _ _ Hz). reflexivity.
Qed.

Lemma quantile_at_integer (s : list Q) (q : Q) (z : Z) :
  s <> [] -> pos_of q s == inject_Z z -> quantile s q = at_ s z.
Proof.
  intros Hne Hz. rewrite (quantile_pos s q Hne).
  rewrite (Qfloor_comp _ _ Hz), (Qceiling_comp _ _ Hz), Qfloor_Z, Qceiling_Z.
  now rewrite Z.eqb_refl.
Qed.

Lemma Qfloor_half (z : Z) : Qfloor (inject_Z z + 0.5) = z.
Proof.
  pose proof (Math_round_Z z) as H. unfold Math_round in H.
  assert (H' : inject_Z (Qfloor (inject_Z z + 0.5)) == inject_Z z) by now rewrite H.
  exact (proj1 (inject_Z_injective _ _) H').
Qed.

Lemma Qceiling_half (z : Z) : Qceiling (inject_Z z + 0.5) = (z + 1)%Z.
Proof.
  unfold Qceiling.
  assert (H : - (inject_Z z + 0.5) == inject_Z (- z - 1) + 0.5).
  { unfold Z.sub. rewrite inject_Z_plus, !inject_Z_opp. change (inject_Z 1) with 1. ring. }
  rewrite (Qfloor_comp _ _ H), Qfloor_half. lia.
Qed.

Lemma at_last (s : list Q) :
  at_ s (Z.of_nat (List.length s) - 1) = last s 0.
Proof.
  unfold at_. destruct s as [|a s]; [reflexivity|].
  replace (Z.to_nat (Z.of_nat (List.length (a :: s)) - 1)) with (List.length s)
    by (cbn [List.length]; lia).
  revert a. induction s as [|b s IH]; intro a; [reflexivity|].
  change (last (a :: b :: s) 0) with (last (b :: s) 0).
  cbn [List.length nth]. apply IH.
Qed.

Lemma at_first (s : list Q) : at_ s 0 = hd 0 s.
Proof. destruct s; reflexivity. Qed.

Lemma floor_ceiling_gap (x : Q) : (Qceiling x <= Qfloor x + 1)%Z.
Proof.
  pose proof (Qceiling_lt x) as H1. pose proof (Qlt_floor x) as H2.
  rewrite inject_Z_pred in H1. rewrite inject_Z_succ in H2.
  assert (H : inject_Z (Qceiling x) < inject_Z (Qfloor x + 1 + 1))
    by (rewrite !inject_Z_succ; lra).
  rewrite <- Zlt_Qlt in H. lia.
Qed.

Lemma pos_index_bounds (s : list Q) (q : Q) :
  s <> [] -> 0 <= q <= 1 ->
  (0 <= Qfloor (pos_of q s))%Z
  /\ (Qceiling (pos_of q s) < Z.of_nat (List.length s))%Z.
Proof.
  intros Hne Hq. pose proof (pos_bounds q s Hne Hq) as [Hp0 Hp1]. split.
  - now apply Qfloor_nonneg.
  - assert (H : (Qceiling (pos_of q s) <= Z.of_nat (List.length s) - 1)%Z).
    { apply Qceiling_upper. rewrite <- len_pred_Z. exact Hp1. }
    lia.
Qed.

(** A quantile does not decrease with [q]. *)
Lemma quantile_monotone (s : list Q) (q1 q2 : Q) :
  StronglySorted Qle s -> s <> [] -> 0 <= q1 -> q1 <= q2 -> q2 <= 1 ->
  quantile s q1 <= quantile s q2.
Proof.
  intros Hs Hne H0 H12 H1.
  assert (Hq1 : 0 <= q1 <= 1) by lra. assert (Hq2 : 0 <= q2 <= 1) by lra.
  pose proof (pos_bounds q1 s Hne Hq1) as [Hp1 _].
  pose proof (pos_bounds q2 s Hne Hq2) as [_ Hp2].
  destruct (pos_index_bounds s q1 Hne Hq1) as [Hl1 Hu1].
  destruct (pos_index_bounds s q2 Hne Hq2) as [Hl2 Hu2].
  assert (Hpos : pos_of q1 s <= pos_of q2 s).
  { unfold pos_of. assert (Hl : 0 <= len s - 1).
    { destruct s as [|x s']; [contradiction|]. rewrite len_cons.
      pose proof (len_nonneg s'). lra. }
    assert (H : 0 <= (q2 - q1) * (len s - 1)) by (apply Qmult_le_0_compat; lra).
    lra. }
  destruct (quantile_between s q1 Hs Hne Hq1) as [_ Hup1].
  destruct (quantile_between s q2 Hs Hne Hq2) as [Hlo2 _].
  pose proof (Qfloor_resp_le _ _ Hpos) as Hfl.
  pose proof (floor_ceiling_gap (pos_of q1 s)) as Hgap.
  pose proof (floor_ceiling_le (pos_of q1 s)) as Hfc1.
  pose proof (floor_ceiling_le (pos_of q2 s)) as Hfc2.
  destruct (Z.eq_dec (Qfloor (pos_of q1 s)) (Qfloor (pos_of q2 s))) as [Heq | Hne'].
  - (* same interval *)
    destruct (Z.eq_dec (Qfloor (pos_of q1 s)) (Qceiling (pos_of q1 s))) as [Hint | Hfrac].
    + (* q1 sits on an order statistic *)
      assert (Hup : quantile s q1 <= at_ s (Qfloor (pos_of q2 s))).
      { rewrite <- Heq, Hint. exact Hup1. }
      lra.
    + assert (Hc1 : Qceiling (pos_of q1 s) = (Qfloor (pos_of q1 s) + 1)%Z) by lia.
      assert (Hc2 : Qceiling (pos_of q2 s) = (Qfloor (pos_of q1 s) + 1)%Z).
      { pose proof (floor_ceiling_gap (pos_of q2 s)).
        pose proof (Qle_ceiling (pos_of q1 s)) as Hle1.
        pose proof (Qceiling_resp_le _ _ Hpos). lia. }
      rewrite (quantile_pos s q1 Hne), (quantile_pos s q2 Hne).
      rewrite <- Heq, Hc1, Hc2.
      assert (E1 : (Qfloor (pos_of q1 s) =? Qfloor (pos_of q1 s) + 1)%Z = false)
        by (apply Z.eqb_neq; lia).
      rewrite E1.
      set (l := Qfloor (pos_of q1 s)) in *.
      assert (Hord : at_ s l <= at_ s (l + 1)) by (apply at_sorted; [assumption | lia | lia]).
      assert (Hprod : 0 <= (at_ s (l + 1) - at_ s l) * (pos_of q2 s - pos_of q1 s))
        by (apply Qmult_le_0_compat; lra).
      lra.
  - (* q2 lies in a later interval *)
    assert (Hord : at_ s (Qceiling (pos_of q1 s)) <= at_ s (Qfloor (pos_of q2 s))).
    { apply at_sorted; [assumption | lia | lia]. }
    lra.
Qed.

Lemma quantile_first (s : list Q) : s <> [] -> quantile s 0 = hd 0 s.
Proof.
  intro Hne. rewrite <- at_first. apply quantile_at_integer; [assumption|].
  unfold pos_of. change (inject_Z 0) with 0. ring.
Qed.

Lemma quantile_last (s : list Q) : s <> [] -> quantile s 1 = last s 0.
Proof.
  intro Hne. rewrite <- at_last. apply quantile_at_integer; [assumption|].
  unfold pos_of. rewrite <- len_pred_Z. ring.
Qed.

Lemma quantile_range (s : list Q) (q : Q) :
  StronglySorted Qle s -> s <> [] -> 0 <= q <= 1 ->
  hd 0 s <= quantile s q <= last s 0.
Proof.
  intros Hs Hne [Hq0 Hq1].
  rewrite <- (quantile_first s Hne), <- (quantile_last s Hne). split.
  - apply quantile_monotone; try assumption; lra.
  - apply quantile_monotone; try assumption; lra.
Qed.

(** X2.  On a sorted nonempty list, [quantile] is the first element at
    [q = 0] and the last at [q = 1]; on whole amounts the three quartile
    levels are ordered and lie between the first and the last element.
    Between numbers that are not whole the interpolation rounds, and the
    order can fail: of two adjacent binary64 numbers the quantile at 0.25
    is above the one at 0.75. *)
Theorem quantile_within_range :
  (forall (s : list Q),
      StronglySorted Qle s -> s <> [] ->
      quantile s 0 = hd 0 s
      /\ quantile s 1 = last s 0
      /\ (wholeAmounts s ->
          hd 0 s <= quantile s 0.25
          /\ quantile s 0.25 <= quantile s 0.5
          /\ quantile s 0.5 <= quantile s 0.75
          /\ quantile s 0.75 <= last s 0))
  /\ PrimFloat.ltb
       (Binary64.quantile SpecBinary64.adjacentValues SpecBinary64.threeQuarters)
       (Binary64.quantile SpecBinary64.adjacentValues SpecBinary64.quarter)
     = true.
Proof.
  split; [|vm_compute; reflexivity].
  intros s Hs Hne.
  split; [now apply quantile_first|]. split; [now apply quantile_last|].
  intros _.
  split; [apply quantile_range; [assumption..|lra]|].
  split; [apply quantile_monotone; [assumption..|lra|lra|lra]|].
  split; [apply quantile_monotone; [assumption..|lra|lra|lra]|].
  apply quantile_range; [assumption..|lra].
Qed.

Lemma quantile_within_range_witness :
  quantile [10; 11; 12; 12; 13] 0.25 <= quantile [10; 11; 12; 12; 13] 0.5.
Proof.
  assert (Hs : StronglySorted Qle [10; 11; 12; 12; 13]).
  { change [10; 11; 12; 12; 13] with (sortedNumeric [12; 10; 13; 11; 12]).
    apply sortedNumeric_sorted. }
  assert (Hw : wholeAmounts [10; 11; 12; 12; 13]).
  { repeat constructor; vm_compute; congruence. }
  destruct (proj1 quantile_within_range [10; 11; 12; 12; 13] Hs
              ltac:(discriminate)) as (_ & _ & Hq).
  destruct (Hq Hw) as (_ & H & _). exact H.
Defined.


(** X3.  The median of an odd number of values is the middle one of the
    list as given; of an even number, the mean of the two middle ones. *)
Theorem median_middle :
  forall (sorted : list Q) (k : nat),
    ((List.length sorted = 2 * k + 1)%nat ->
     median sorted = nth k sorted 0)
    /\ ((List.length sorted = 2 * k + 2)%nat ->
        median sorted == (nth k sorted 0 + nth (k + 1) sorted 0) / 2).
Proof.
  intros sorted k. split; intro Hlen.
  - assert (Hne : sorted <> []) by (intro H; rewrite H in Hlen; cbn in Hlen; lia).
    unfold median. rewrite (quantile_at_integer sorted 0.5 (Z.of_nat k) Hne).
    + unfold at_. now rewrite Nat2Z.id.
    + unfold pos_of. rewrite len_pred_Z, Hlen.
      replace (Z.of_nat (2 * k + 1) - 1)%Z with (2 * Z.of_nat k)%Z by lia.
      rewrite inject_Z_mult. change (inject_Z 2) with 2. field.
  - assert (Hne : sorted <> []) by (intro H; rewrite H in Hlen; cbn in Hlen; lia).
    unfold median. rewrite (quantile_pos sorted 0.5 Hne).
    assert (Hpos : pos_of 0.5 sorted == inject_Z (Z.of_nat k) + 0.5).
    { unfold pos_of. rewrite len_pred_Z, Hlen.
      replace (Z.of_nat (2 * k + 2) - 1)%Z with (2 * Z.of_nat k + 1)%Z by lia.
      rewrite inject_Z_plus, inject_Z_mult.
      change (inject_Z 2) with 2. change (inject_Z 1) with 1. field. }
    rewrite (Qfloor_comp _ _ Hpos), (Qceiling_comp _ _ Hpos).
    rewrite Qfloor_half, Qceiling_half.
    assert (E : (Z.of_nat k =? Z.of_nat k + 1)%Z = false) by (apply Z.eqb_neq; lia).
    rewrite E, Hpos. unfold at_.
    rewrite Nat2Z.id. replace (Z.to_nat (Z.of_nat k + 1)) with (k + 1)%nat by lia.
    field.
Qed.

Lemma median_middle_witness :
  median [10; 11; 12; 12; 13] = 12 /\ median [1; 2; 3; 4] == (2 + 3) / 2.
Proof.
  split.
  - apply (proj1 (median_middle [10; 11; 12; 12; 13] 2)). reflexivity.
  - apply (proj2 (median_middle [1; 2; 3; 4] 1)). reflexivity.
Defined.

(* ================================================================== *)
(** ** The IQR filter *)
(* ================================================================== *)

Lemma quartiles_ordered (s : list Q) :
  StronglySorted Qle s -> quantile s 0.25 <= quantile s 0.75.
Proof.
  intro Hs. destruct s as [|a s'] eqn:E; [cbn; lra|]. rewrite <- E in *.
  apply quantile_monotone; try assumption; try lra. rewrite E. discriminate.
Qed.

Lemma filter_sorted (p : Q -> bool) (s : list Q) :
  StronglySorted Qle s -> StronglySorted Qle (filter p s).
Proof.
  induction 1 as [|x s Hs IH Hall]; cbn; [constructor|].
  destruct (p x); [|exact IH]. constructor; [exact IH|].
  rewrite Forall_forall in *. intros y Hy. apply filter_In in Hy. now apply Hall.
Qed.

Lemma inBand_iff (s : list Q) (v : Q) :
  inBand s v = true <->
  quantile s 0.25 - 1.5 * (quantile s 0.75 - quantile s 0.25) <= v
  /\ v <= quantile s 0.75 + 1.5 * (quantile s 0.75 - quantile s 0.25).
Proof.
  unfold inBand. rewrite andb_true_iff, !Qle_bool_true. reflexivity.
Qed.

Lemma applyIQRFilter_order (values : list Q) :
  let r := applyIQRFilter values in
  IQRResult.q1 r <= IQRResult.q3 r
  /\ 0 <= IQRResult.iqr r
  /\ IQRResult.lowerBound r <= IQRResult.q1 r
  /\ IQRResult.q3 r <= IQRResult.upperBound r.
Proof.
  intro r. pose proof (quartiles_ordered _ (sortedNumeric_sorted values)) as Hq.
  subst r. cbn [applyIQRFilter applyIQRFilterWith IQRResult.q1 IQRResult.q3
                IQRResult.iqr IQRResult.lowerBound IQRResult.upperBound].
  repeat split; lra.
Qed.

Lemma filter_perm {A} (p : A -> bool) (xs ys : list A) :
  Permutation xs ys -> Permutation (filter p xs) (filter p ys).
Proof.
  induction 1 as [|x xs ys _ IH|x y xs|xs ys zs _ IH1 _ IH2]; cbn.
  - constructor.
  - destruct (p x); [now constructor | exact IH].
  - destruct (p x), (p y); try reflexivity. apply perm_swap.
  - now transitivity (filter p ys).
Qed.

(** X4.  [applyIQRFilter] reports quartiles with [q1 <= q3], a
    non-negative [iqr] and a band [lowerBound <= q1], [q3 <= upperBound];
    it keeps exactly the values inside the band, each as many times as it
    was given, in ascending order, so it never keeps more values than it
    was given, never drops a value between the quartiles, and sorting what
    it kept again changes nothing. *)
Theorem applyIQRFilter_band :
  forall values : list Q,
    let r := applyIQRFilter values in
    IQRResult.q1 r <= IQRResult.q3 r
    /\ 0 <= IQRResult.iqr r
    /\ IQRResult.iqr r = IQRResult.q3 r - IQRResult.q1 r
    /\ IQRResult.lowerBound r <= IQRResult.q1 r
    /\ IQRResult.q3 r <= IQRResult.upperBound r
    /\ (forall v,
          In v (IQRResult.filtered r) <->
          In v values
          /\ IQRResult.lowerBound r <= v /\ v <= IQRResult.upperBound r)
    /\ IQRResult.filtered r = filter (withinBand r) (sortedNumeric values)
    /\ Permutation (IQRResult.filtered r) (filter (withinBand r) values)
    /\ (forall v, In v values ->
          IQRResult.q1 r <= v -> v <= IQRResult.q3 r ->
          In v (IQRResult.filtered r))
    /\ StronglySorted Qle (IQRResult.filtered r)
    /\ sortedNumeric (IQRResult.filtered r) = IQRResult.filtered r
    /\ (List.length (IQRResult.filtered r) <= List.length values)%nat.
Proof.
  intros values r.
  pose proof (sortedNumeric_sorted values) as Hs.
  pose proof (quartiles_ordered _ Hs) as Hq.
  assert (Hin : forall v, In v (IQRResult.filtered r) <->
                          In v values
                          /\ IQRResult.lowerBound r <= v
                          /\ v <= IQRResult.upperBound r).
  { intro v. subst r. rewrite applyIQRFilter_filtered, filter_In, inBand_iff.
    assert (Hp : In v (sortedNumeric values) <-> In v values).
    { split; apply Permutation_in;
        [apply sortedNumeric_perm | symmetry; apply sortedNumeric_perm]. }
    rewrite Hp. reflexivity. }
  assert (Hsorted : StronglySorted Qle (IQRResult.filtered r)).
  { subst r. rewrite applyIQRFilter_filtered. now apply filter_sorted. }
  assert (Hkept : IQRResult.filtered r = filter (withinBand r) (sortedNumeric values))
    by reflexivity.
  assert (Hperm : Permutation (IQRResult.filtered r) (filter (withinBand r) values)).
  { rewrite Hkept. apply filter_perm, sortedNumeric_perm. }
  subst r. cbn [applyIQRFilter applyIQRFilterWith IQRResult.q1 IQRResult.q3
                IQRResult.iqr IQRResult.lowerBound IQRResult.upperBound] in Hin, Hq |- *.
  split; [exact Hq|]. split; [lra|]. split; [reflexivity|].
  split; [lra|]. split; [lra|]. split; [exact Hin|].
  split; [exact Hkept|]. split; [exact Hperm|]. split.
  - intros v Hv H1 H3. apply Hin. split; [exact Hv|]. split; lra.
  - split; [exact Hsorted|]. split; [now apply sortedNumeric_fixed|].
    rewrite applyIQRFilter_filtered, <- (sortedNumeric_length values).
    apply filter_length_le.
Qed.

Lemma applyIQRFilter_band_witness :
  In 12 (IQRResult.filtered (applyIQRFilter [10; 12; 11; 13; 12; 100])).
Proof.
  destruct (applyIQRFilter_band [10; 12; 11; 13; 12; 100])
    as (_ & _ & _ & _ & _ & _ & _ & _ & Hkeep & _).
  apply Hkeep; [cbn; tauto | vm_compute; discriminate | vm_compute; discriminate].
Defined.

(* ================================================================== *)
(** ** analyzeMarketData: what every result satisfies *)
(* ================================================================== *)



Lemma hd_In (s : list Q) : s <> [] -> In (hd 0 s) s.
Proof. destruct s; [contradiction | intros _; now left]. Qed.

Lemma last_In (s : list Q) : s <> [] -> In (last s 0) s.
Proof.
  induction s as [|a s IH]; [contradiction|]. intros _.
  destruct s as [|b s]; [now left|]. right. apply IH. discriminate.
Qed.

(** The median of what the filter kept lies inside the band. *)
Lemma median_in_band (pool : list Q) :
  pool <> [] ->
  let f := applyIQRFilter pool in
  IQRResult.lowerBound f <= median (sortedNumeric (IQRResult.filtered f))
  /\ median (sortedNumeric (IQRResult.filtered f)) <= IQRResult.upperBound f.
Proof.
  intros Hne f. subst f.
  pose proof (applyIQRFilter_nonempty pool Hne) as Hfne.
  rewrite applyIQRFilter_filtered in *.
  pose proof (sortedNumeric_sorted pool) as Hs.
  set (s := sortedNumeric pool) in *.
  assert (Hfs : StronglySorted Qle (filter (inBand s) s)) by now apply filter_sorted.
  rewrite (sortedNumeric_fixed _ Hfs).
  assert (Hhalf : 0 <= 0.5 <= 1) by lra.
  pose proof (quantile_range _ 0.5 Hfs Hfne Hhalf) as [Hlo Hhi].
  pose proof (hd_In _ Hfne) as Hhd. pose proof (last_In _ Hfne) as Hla.
  apply filter_In in Hhd, Hla. destruct Hhd as [_ Hhd], Hla as [_ Hla].
  apply inBand_iff in Hhd, Hla.
  unfold median. cbn [applyIQRFilter applyIQRFilterWith IQRResult.lowerBound
                      IQRResult.upperBound]. fold s. split; lra.
Qed.



Lemma enough_len (g : Group.t) : enough g = true <-> 5 <= len (Group.prices g).
Proof. unfold enough, MIN_SAMPLE_SIZE. apply Qle_bool_true. Qed.

Lemma not_enough_len (g : Group.t) : enough g = false <-> len (Group.prices g) < 5.
Proof. unfold enough, MIN_SAMPLE_SIZE. apply Qle_bool_false. Qed.




(** X6.  A result computed from five samples or more (its own or its
    province's) carries a band with
    [lowerBound <= q1 <= q3 <= upperBound] and a median inside the band; a
    result with fewer samples is an unfiltered fallback:
    [filteredSize = sampleSize], [iqr = lowerBound = upperBound = 0] and
    [isFallback] set. *)
Theorem analyzeMarketData_band_or_raw :
  forall (Math : JSMath) (data : list PriceDataPoint.t) (r : RouteMedianResult.t),
    In r (analyzeMarketData Math data) ->
    (5 <= RouteMedianResult.sampleSize r ->
       RouteMedianResult.lowerBound r <= RouteMedianResult.q1 r
       /\ RouteMedianResult.q3 r <= RouteMedianResult.upperBound r
       /\ RouteMedianResult.lowerBound r <= RouteMedianResult.median r
       /\ RouteMedianResult.median r <= RouteMedianResult.upperBound r
       /\ 0 <= RouteMedianResult.iqr r)
    /\ (RouteMedianResult.sampleSize r < 5 ->
          RouteMedianResult.isFallback r = true
          /\ RouteMedianResult.filteredSize r = RouteMedianResult.sampleSize r
          /\ RouteMedianResult.iqr r = 0
          /\ RouteMedianResult.lowerBound r = 0
          /\ RouteMedianResult.upperBound r = 0).
Proof.
  intros Math data r Hin.
  assert (Hband : forall pool, pool <> [] ->
            let f := applyIQRFilter pool in
            Math_round (IQRResult.lowerBound f) <= Math_round (IQRResult.q1 f)
            /\ Math_round (IQRResult.q3 f) <= Math_round (IQRResult.upperBound f)
            /\ Math_round (IQRResult.lowerBound f)
               <= Math_round (median (sortedNumeric (IQRResult.filtered f)))
            /\ Math_round (median (sortedNumeric (IQRResult.filtered f)))
               <= Math_round (IQRResult.upperBound f)
            /\ 0 <= Math_round (IQRResult.iqr f)).
  { intros pool Hne f.
    destruct (applyIQRFilter_order pool) as (Hq & Hiqr & Hlo & Hhi).
    destruct (median_in_band pool Hne) as [Hmlo Hmhi].
    repeat split; try (apply Math_round_mono; assumption).
    change 0 with (inject_Z 0). rewrite <- (Math_round_Z 0).
    apply Math_round_mono. exact Hiqr. }
  apply analyzeMarketData_shape in Hin.
  destruct Hin as [k [g [Hentry [[Hen ->] | [Hen [_ [pg [Hget [Hne Hcase]]]]]]]]].
  - split.
    + intros _. apply (Hband (Group.prices g)).
      eapply routeGroups_nonempty; eassumption.
    + intro Hlt. apply enough_len in Hen.
      cbn [exactResult RouteMedianResult.sampleSize] in Hlt. lra.
  - destruct Hcase as [[Hpen ->] | [Hpen ->]].
    + split.
      * intros _. now apply (Hband (Group.prices pg)).
      * intro Hlt. apply enough_len in Hpen.
        cbn [provinceResult RouteMedianResult.sampleSize] in Hlt. lra.
    + split.
      * intro Hge. apply not_enough_len in Hpen.
        cbn [rawFallbackResult RouteMedianResult.sampleSize] in Hge. lra.
      * intros _. repeat split.
Qed.

Lemma analyzeMarketData_band_or_raw_witness :
  let r := hd sampleResult (analyzeMarketData sampleMath sampleMarket) in
  RouteMedianResult.lowerBound r <= RouteMedianResult.q1 r
  /\ RouteMedianResult.q3 r <= RouteMedianResult.upperBound r
  /\ RouteMedianResult.lowerBound r <= RouteMedianResult.median r
  /\ RouteMedianResult.median r <= RouteMedianResult.upperBound r
  /\ 0 <= RouteMedianResult.iqr r.
Proof.
  apply (proj1 (analyzeMarketData_band_or_raw sampleMath sampleMarket _
                  ltac:(vm_compute; left; reflexivity))).
  vm_compute. discriminate.
Defined.

(* ================================================================== *)
(** ** analyzeMarketData: order, provenance, emptiness *)
(* ================================================================== *)


Lemma insertByConfidence_In (r x : RouteMedianResult.t)
    (rs : list RouteMedianResult.t) :
  In x (insertByConfidence r rs) <-> x = r \/ In x rs.
Proof.
  split.
  - intro H. apply (Permutation_in _ (insertByConfidence_perm r rs)) in H.
    destruct H as [<- | H]; [now left | now right].
  - intro H. apply (Permutation_in _ (Permutation_sym (insertByConfidence_perm r rs))).
    destruct H as [-> | H]; [now left | now right].
Qed.

Lemma insertByConfidence_sorted (r : RouteMedianResult.t)
    (rs : list RouteMedianResult.t) :
  StronglySorted confidenceDescending rs ->
  StronglySorted confidenceDescending (insertByConfidence r rs).
Proof.
  induction 1 as [|r' rs Hs IH Hall]; cbn.
  - repeat constructor.
  - destruct (Qle_bool _ _) eqn:E.
    + apply Qle_bool_true in E. constructor; [now constructor|].
      constructor; [exact E|]. rewrite Forall_forall in *.
      intros x Hx. specialize (Hall x Hx). unfold confidenceDescending in *. lra.
    + apply Qle_bool_false in E. constructor; [exact IH|].
      rewrite Forall_forall in *. intros x Hx. apply insertByConfidence_In in Hx.
      destruct Hx as [-> | Hx]; [unfold confidenceDescending; lra | now apply Hall].
Qed.

Lemma sortByConfidence_sorted (rs : list RouteMedianResult.t) :
  StronglySorted confidenceDescending (sortByConfidence rs).
Proof.
  induction rs as [|r rs IH]; [constructor|].
  change (sortByConfidence (r :: rs))
    with (insertByConfidence r (sortByConfidence rs)).
  now apply insertByConfidence_sorted.
Qed.

Lemma analyzeMarketData_sorted (Math : JSMath) (data : list PriceDataPoint.t) :
  StronglySorted confidenceDescending (analyzeMarketData Math data).
Proof. apply sortByConfidence_sorted. Qed.



Lemma analyzeMarketData_vehicleType (Math : JSMath)
    (data : list PriceDataPoint.t) (r : RouteMedianResult.t) :
  In r (analyzeMarketData Math data) ->
  exists d, In d data
            /\ RouteMedianResult.vehicleType r = PriceDataPoint.vehicleType d.
Proof.
  intro Hin. apply analyzeMarketData_shape in Hin.
  destruct Hin as [k [g [Hentry [[Hen ->] | [Hen [_ [pg [Hget [Hne Hcase]]]]]]]]].
  - apply routeGroups_entry in Hentry. destruct Hentry as [d0 [Hf ->]].
    apply firstFor_some in Hf. destruct Hf as [Hd _]. now exists d0.
  - destruct Hcase as [[_ ->] | [_ ->]].
    + change (provinceGroupsOf data)
        with (groupBy provinceKeyOf provinceFresh data) in Hget.
      rewrite (mapGet_groupBy provinceKeyOf provinceFresh provinceFresh_empty) in Hget.
      destruct (firstFor provinceKeyOf (groupProvinceKey g) data) as [d1|] eqn:E;
        [|discriminate].
      cbn in Hget. injection Hget as <-.
      apply firstFor_some in E. destruct E as [Hd _]. now exists d1.
    + apply routeGroups_entry in Hentry. destruct Hentry as [d0 [Hf ->]].
      apply firstFor_some in Hf. destruct Hf as [Hd _]. now exists d0.
Qed.

(** X8.  Every result carries the vehicle type of an observation and is
    labelled either with that observation's origin and destination or, for
    a fallback result, with their provinces. *)
Theorem analyzeMarketData_labels :
  forall (Math : JSMath) (data : list PriceDataPoint.t) (r : RouteMedianResult.t),
    In r (analyzeMarketData Math data) ->
    exists d, In d data
      /\ RouteMedianResult.vehicleType r = PriceDataPoint.vehicleType d
      /\ ((RouteMedianResult.origin r = PriceDataPoint.origin d
           /\ RouteMedianResult.destination r = PriceDataPoint.destination d)
          \/ (RouteMedianResult.isFallback r = true
              /\ RouteMedianResult.origin r
                 = extractProvince (PriceDataPoint.origin d)
              /\ RouteMedianResult.destination r
                 = extractProvince (PriceDataPoint.destination d))).
Proof.
  intros Math data r Hin. apply analyzeMarketData_shape in Hin.
  destruct Hin as [k [g [Hentry [[Hen ->] | [Hen [_ [pg [Hget [Hne Hcase]]]]]]]]].
  - apply routeGroups_entry in Hentry. destruct Hentry as [d0 [Hf ->]].
    apply firstFor_some in Hf. destruct Hf as [Hd _].
    exists d0. split; [exact Hd|]. split; [reflexivity|]. left. now split.
  - destruct Hcase as [[_ ->] | [_ ->]].
    + change (provinceGroupsOf data)
        with (groupBy provinceKeyOf provinceFresh data) in Hget.
      rewrite (mapGet_groupBy provinceKeyOf provinceFresh provinceFresh_empty) in Hget.
      destruct (firstFor provinceKeyOf (groupProvinceKey g) data) as [d1|] eqn:E;
        [|discriminate].
      cbn in Hget. injection Hget as <-.
      apply firstFor_some in E. destruct E as [Hd _].
      exists d1. split; [exact Hd|]. split; [reflexivity|]. right. now repeat split.
    + apply routeGroups_entry in Hentry. destruct Hentry as [d0 [Hf ->]].
      apply firstFor_some in Hf. destruct Hf as [Hd _].
      exists d0. split; [exact Hd|]. split; [reflexivity|]. left. now split.
Qed.

Lemma analyzeMarketData_labels_witness :
  exists d, In d singleObservation
    /\ RouteMedianResult.vehicleType sampleResult = PriceDataPoint.vehicleType d
    /\ ((RouteMedianResult.origin sampleResult = PriceDataPoint.origin d
         /\ RouteMedianResult.destination sampleResult = PriceDataPoint.destination d)
        \/ (RouteMedianResult.isFallback sampleResult = true
            /\ RouteMedianResult.origin sampleResult
               = extractProvince (PriceDataPoint.origin d)
            /\ RouteMedianResult.destination sampleResult
               = extractProvince (PriceDataPoint.destination d))).
Proof.
  apply (analyzeMarketData_labels sampleMath singleObservation).
  vm_compute. left. reflexivity.
Defined.

(* ================================================================== *)
(** ** Confidence score: monotonicity and the fallback penalty *)
(* ================================================================== *)

Lemma computeConfidence_unfold (Math : JSMath) (sampleSize : Q)
    (filteredValues : list Q) (isFallback : bool) :
  computeConfidence Math sampleSize filteredValues isFallback
  = Math_round
      ((Math_min (sampleSize / 30) 1.0 * 0.6
        + consistencyOf Math filteredValues * 0.4)
       * (if isFallback then 0.7 else 1.0) * 100) / 100.
Proof. reflexivity. Qed.

Lemma consistencyOf_nonneg (Math : JSMath) (filteredValues : list Q) :
  0 <= consistencyOf Math filteredValues.
Proof.
  unfold consistencyOf. destruct (Qle_bool 2 _); [|lra].
  destruct (Qlt_bool 0 _); [|lra].
  match goal with |- 0 <= Math_max 0 ?x =>
    destruct (Math_max_cases 0 x) as [[? ->] | [? ->]]; lra end.
Qed.

Lemma Qdiv_100_le (x y : Q) : x <= y -> x / 100 <= y / 100.
Proof. intro H. unfold Qdiv. change (/ 100) with (1 # 100). lra. Qed.

Lemma Qdiv_30_le (x y : Q) : x <= y -> x / 30 <= y / 30.
Proof. intro H. unfold Qdiv. change (/ 30) with (1 # 30). lra. Qed.

Lemma Math_min_mono_l (a b c : Q) : a <= b -> Math_min a c <= Math_min b c.
Proof.
  intro H. destruct (Math_min_cases a c) as [[? ->] | [? ->]],
                    (Math_min_cases b c) as [[? ->] | [? ->]]; lra.
Qed.

(** X9.  With the same filtered values and fallback status, a larger sample
    never lowers the confidence score, and beyond thirty samples the score
    no longer changes. *)
Theorem computeConfidence_grows_with_sample :
  forall (Math : JSMath) (filteredValues : list Q) (isFallback : bool)
         (n1 n2 : Q),
    (n1 <= n2 ->
     computeConfidence Math n1 filteredValues isFallback
     <= computeConfidence Math n2 filteredValues isFallback)
    /\ (30 <= n1 ->
        computeConfidence Math n1 filteredValues isFallback
        = computeConfidence Math 30 filteredValues isFallback).
Proof.
  intros Math vals fb n1 n2. split.
  - intro H. rewrite !computeConfidence_unfold.
    apply Qdiv_100_le, Math_round_mono.
    pose proof (Math_min_mono_l _ _ 1.0 (Qdiv_30_le _ _ H)) as Hs.
    set (s1 := Math_min (n1 / 30) 1.0) in *.
    set (s2 := Math_min (n2 / 30) 1.0) in *.
    set (c := consistencyOf Math vals).
    destruct fb; lra.
  - intro H. rewrite !computeConfidence_unfold. f_equal.
    apply Math_round_comp.
    assert (Hs : Math_min (n1 / 30) 1.0 == Math_min (30 / 30) 1.0).
    { pose proof (Qdiv_30_le _ _ H) as H30.
      assert (E : 30 / 30 == 1) by reflexivity. rewrite E in H30.
      destruct (Math_min_cases (n1 / 30) 1.0) as [[? ->] | [? ->]],
               (Math_min_cases (30 / 30) 1.0) as [[? ->] | [? ->]]; lra. }
    rewrite Hs. reflexivity.
Qed.

Lemma computeConfidence_grows_with_sample_witness :
  computeConfidence sampleMath 6 [10; 11; 12; 12; 13] false
  <= computeConfidence sampleMath 12 [10; 11; 12; 12; 13] false
  /\ computeConfidence sampleMath 45 [10; 11; 12; 12; 13] false
     = computeConfidence sampleMath 30 [10; 11; 12; 12; 13] false.
Proof.
  destruct (computeConfidence_grows_with_sample sampleMath [10; 11; 12; 12; 13]
              false 6 12) as [Hmono _].
  destruct (computeConfidence_grows_with_sample sampleMath [10; 11; 12; 12; 13]
              false 45 0) as [_ Hsat].
  split; [apply Hmono; lra | apply Hsat; lra].
Defined.

(** X10.  For a non-negative sample size and values within the amount
    limit (so that no sum overflows), the fallback score is never above the
    score of the same data without fallback; and, provided [Math.sqrt] is
    non-negative on non-negative arguments, a fallback score is at most
    0.7. *)
Theorem fallback_lowers_confidence :
  forall (Math : JSMath) (sampleSize : Q) (filteredValues : list Q),
    0 <= sampleSize -> withinLimit sampleSize ->
    Forall withinLimit filteredValues ->
    computeConfidence Math sampleSize filteredValues true
    <= computeConfidence Math sampleSize filteredValues false
    /\ ((forall x, 0 <= x -> 0 <= Math_sqrt Math x) ->
        computeConfidence Math sampleSize filteredValues true <= 0.7).
Proof.
  intros Math n vals Hn _ _.
  assert (H30 : 0 <= n / 30) by (apply Qdiv_nonneg; lra).
  assert (Hs : 0 <= Math_min (n / 30) 1.0 <= 1).
  { destruct (Math_min_cases (n / 30) 1.0) as [[? ->] | [? ->]]; lra. }
  pose proof (consistencyOf_nonneg Math vals) as Hc.
  split.
  - rewrite !computeConfidence_unfold. apply Qdiv_100_le, Math_round_mono.
    set (s := Math_min (n / 30) 1.0) in *. set (c := consistencyOf Math vals) in *.
    lra.
  - intro Hsqrt.
    assert (Hc1 : consistencyOf Math vals <= 1).
    { unfold consistencyOf. destruct (Qle_bool 2 _); [|lra].
      set (mean := sum vals / len vals).
      destruct (Qlt_bool 0 mean) eqn:Em; [|lra]. apply Qlt_bool_true in Em.
      set (variance := _ / len vals).
      assert (Hv : 0 <= variance).
      { subst variance. apply Qdiv_nonneg; [|apply len_nonneg].
        apply sum_squares_nonneg. lra. }
      assert (Hcv : 0 <= Math_sqrt Math variance / mean).
      { apply Qdiv_nonneg; [now apply Hsqrt | lra]. }
      destruct (Math_max_cases 0 (1.0 - Math_sqrt Math variance / mean))
        as [[? ->] | [? ->]]; lra. }
    rewrite computeConfidence_unfold.
    set (s := Math_min (n / 30) 1.0) in *. set (c := consistencyOf Math vals) in *.
    assert (Hr : Math_round ((s * 0.6 + c * 0.4) * 0.7 * 100)
                 <= Math_round (inject_Z 70)).
    { apply Math_round_mono. change (inject_Z 70) with 70. lra. }
    rewrite Math_round_Z in Hr. change (inject_Z 70) with 70 in Hr.
    apply Qdiv_100_le in Hr.
    assert (E : 70 / 100 == 0.7) by reflexivity. lra.
Qed.

Lemma fallback_lowers_confidence_witness :
  computeConfidence sampleMath 6 [10; 11; 12; 12; 13] true
  <= computeConfidence sampleMath 6 [10; 11; 12; 12; 13] false
  /\ computeConfidence sampleMath 6 [10; 11; 12; 12; 13] true <= 0.7.
Proof.
  destruct (fallback_lowers_confidence sampleMath 6 [10; 11; 12; 12; 13]
              ltac:(lra) ltac:(split; vm_compute; discriminate)
              ltac:(repeat constructor; vm_compute; discriminate))
    as [Hle Hcap].
  split; [exact Hle | apply Hcap; intros x _; apply sqrtApprox_nonneg].
Defined.

(* ================================================================== *)
(** ** Summary of an analysis *)
(* ================================================================== *)

Lemma filter_partition_length {A} (p : A -> bool) (xs : list A) :
  (List.length (filter (fun x => negb (p x)) xs) + List.length (filter p xs)
   = List.length xs)%nat.
Proof.
  induction xs as [|x xs IH]; [reflexivity|].
  cbn. destruct (p x); cbn; lia.
Qed.

Lemma len_add {A B C} (xs : list A) (ys : list B) (zs : list C) :
  (List.length xs + List.length ys = List.length zs)%nat ->
  len xs + len ys == len zs.
Proof.
  intro H. unfold len. rewrite <- inject_Z_plus, <- Nat2Z.inj_add, H. reflexivity.
Qed.

Lemma confidence_sum_bounds (results : list RouteMedianResult.t) (acc : Q) :
  (forall r, In r results -> 0 <= RouteMedianResult.confidenceScore r <= 1) ->
  acc <= fold_left (fun sum r => sum + RouteMedianResult.confidenceScore r)
           results acc
  /\ fold_left (fun sum r => sum + RouteMedianResult.confidenceScore r) results acc
     <= acc + len results.
Proof.
  revert acc. induction results as [|r rs IH]; intros acc H.
  - cbn [fold_left]. change (len (@nil RouteMedianResult.t)) with 0. split; lra.
  - cbn [fold_left]. rewrite len_cons.
    destruct (H r (or_introl eq_refl)) as [H0 H1].
    destruct (IH (acc + RouteMedianResult.confidenceScore r)
                 (fun x Hx => H x (or_intror Hx))) as [Hlo Hhi].
    split; lra.
Qed.

Lemma slice0_firstn {A} (xs : list A) (topN : Z) :
  (0 <= topN)%Z -> slice0 xs topN = firstn (Z.to_nat topN) xs.
Proof.
  intro H. unfold slice0.
  assert (E : (topN <? 0)%Z = false) by (apply Z.ltb_ge; lia). rewrite E.
  destruct (Z.le_gt_cases topN (Z.of_nat (List.length xs))) as [Hle | Hgt].
  - now rewrite Z.min_l.
  - rewrite Z.min_r by lia. rewrite Nat2Z.id.
    rewrite firstn_all. symmetry. apply firstn_all2. lia.
Qed.

Lemma sorted_split_dominates (xs : list RouteMedianResult.t) (n : nat) :
  StronglySorted confidenceDescending xs ->
  forall t r, In t (firstn n xs) -> In r (skipn n xs) ->
              RouteMedianResult.confidenceScore r
              <= RouteMedianResult.confidenceScore t.
Proof.
  intro Hs. revert n. induction Hs as [|x xs Hs IH Hall]; intros n t r Ht Hr.
  - rewrite firstn_nil in Ht. destruct Ht.
  - destruct n as [|n]; [destruct Ht|]. cbn in Ht, Hr.
    destruct Ht as [<- | Ht].
    + rewrite Forall_forall in Hall. apply Hall.
      rewrite <- (firstn_skipn n xs). apply in_or_app. now right.
    + now apply (IH n).
Qed.

Lemma avgConfidence_unit (results : list RouteMedianResult.t) (topN : Z) :
  (forall r, In r results -> 0 <= RouteMedianResult.confidenceScore r <= 1) ->
  0 <= AnalysisSummary.avgConfidence (summarizeAnalysisTop results topN) <= 1.
Proof.
  intro H. cbn [summarizeAnalysisTop AnalysisSummary.avgConfidence].
  destruct (Qlt_bool 0 (len results)) eqn:E; [|lra].
  apply Qlt_bool_true in E. apply round_hundredths_unit.
  destruct (confidence_sum_bounds results 0 H) as [Hlo Hhi].
  set (total := fold_left _ results 0) in *.
  split.
  - apply Qdiv_nonneg; lra.
  - apply Qle_shift_div_r; [exact E | lra].
Qed.

(** X11.  In the summary of any result list, the exact and the fallback
    routes add up to the total, the top routes are the first [topN] results
    (all of them when there are fewer), and the average confidence is 0 for
    an empty list and lies in [[0, 1]] when every score does. *)
Theorem summarizeAnalysis_counts :
  forall (results : list RouteMedianResult.t) (topN : Z),
    let s := summarizeAnalysisTop results topN in
    AnalysisSummary.exactRoutes s + AnalysisSummary.fallbackRoutes s
    == AnalysisSummary.totalRoutes s
    /\ AnalysisSummary.totalRoutes s = len results
    /\ ((0 <= topN)%Z ->
        AnalysisSummary.topRoutes s = firstn (Z.to_nat topN) results
        /\ List.length (AnalysisSummary.topRoutes s)
           = Nat.min (Z.to_nat topN) (List.length results))
    /\ (results = [] -> AnalysisSummary.avgConfidence s = 0)
    /\ ((forall r, In r results ->
                   0 <= RouteMedianResult.confidenceScore r <= 1) ->
        0 <= AnalysisSummary.avgConfidence s <= 1).
Proof.
  intros results topN s. split.
  - subst s. cbn [summarizeAnalysisTop AnalysisSummary.exactRoutes
                  AnalysisSummary.fallbackRoutes AnalysisSummary.totalRoutes].
    apply len_add. apply (filter_partition_length RouteMedianResult.isFallback).
  - split; [reflexivity|]. split.
    + intro H. subst s. cbn [summarizeAnalysisTop AnalysisSummary.topRoutes].
      rewrite (slice0_firstn results topN H). split; [reflexivity|].
      apply length_firstn.
    + split; [intros ->; reflexivity | apply avgConfidence_unit].
Qed.

Lemma summarizeAnalysis_counts_witness :
  AnalysisSummary.topRoutes (summarizeAnalysisTop [sampleResult; sampleResult] 1)
  = [sampleResult]
  /\ 0 <= AnalysisSummary.avgConfidence
            (summarizeAnalysisTop [sampleResult; sampleResult] 1) <= 1.
Proof.
  destruct (summarizeAnalysis_counts [sampleResult; sampleResult] 1)
    as (_ & _ & Htop & _ & Havg).
  split.
  - apply Htop. lia.
  - apply Havg. intros r [<- | [<- | []]]; vm_compute; split; discriminate.
Defined.

(** X12.  For observations whose prices are within the amount limit (so
    that every score is a number), the summary of an analysis lists as top
    routes the (at most ten) results of highest confidence: the analysis is
    the top routes followed by results none of which scores higher than any
    top route.  Provided [Math.sqrt] is non-negative on non-negative
    arguments, the average confidence lies in [[0, 1]]. *)
Theorem summarizeAnalysis_of_analysis :
  forall (Math : JSMath) (data : list PriceDataPoint.t),
    pricesWithinLimit data ->
    let results := analyzeMarketData Math data in
    let s := summarizeAnalysis results in
    (exists rest,
        results = AnalysisSummary.topRoutes s ++ rest
        /\ List.length (AnalysisSummary.topRoutes s)
           = Nat.min 10 (List.length results)
        /\ forall t r, In t (AnalysisSummary.topRoutes s) -> In r rest ->
                       RouteMedianResult.confidenceScore r
                       <= RouteMedianResult.confidenceScore t)
    /\ ((forall x, 0 <= x -> 0 <= Math_sqrt Math x) ->
        0 <= AnalysisSummary.avgConfidence s <= 1).
Proof.
  intros Math data _ results s. split.
  - exists (skipn 10 results).
    assert (Htop : AnalysisSummary.topRoutes s = firstn 10 results).
    { subst s. unfold summarizeAnalysis.
      cbn [summarizeAnalysisTop AnalysisSummary.topRoutes].
      now rewrite slice0_firstn by lia. }
    rewrite Htop. split; [symmetry; apply firstn_skipn|].
    split; [apply length_firstn|].
    apply sorted_split_dominates. apply analyzeMarketData_sorted.
  - intro Hsqrt. apply avgConfidence_unit. intros r Hin.
    destruct (analyzeMarketData_pool Math data r Hin)
      as [pool [values [_ [Hs [_ [_ [Hc _]]]]]]].
    rewrite Hc. apply computeConfidence_unit; [exact Hsqrt|].
    rewrite Hs. apply len_nonneg.
Qed.

Lemma summarizeAnalysis_of_analysis_witness :
  0 <= AnalysisSummary.avgConfidence
         (summarizeAnalysis (analyzeMarketData sampleMath sampleMarket)) <= 1.
Proof.
  apply (proj2 (summarizeAnalysis_of_analysis sampleMath sampleMarket
                  ltac:(repeat constructor; vm_compute; discriminate))).
  intros x _. apply sqrtApprox_nonneg.
Defined.

(* ================================================================== *)
(** ** Tier 2: the blend of cost and market *)
(* ================================================================== *)

Lemma blend_between (t m c : Q) :
  0 <= c <= 1 -> Math_min t m <= t * (1 - c) + m * c <= Math_max t m.
Proof.
  intro Hc.
  destruct (Math_min_cases t m) as [[Hle ->] | [Hlt ->]],
           (Math_max_cases t m) as [[Hle' ->] | [Hlt' ->]]; try (exfalso; lra).
  - apply convex_between; assumption.
  - assert (H : m <= m * c + t * (1 - c) <= t).
    { assert (H1 : 0 <= (t - m) * c) by (apply Qmult_le_0_compat; lra).
      assert (H2 : 0 <= (t - m) * (1 - c)) by (apply Qmult_le_0_compat; lra).
      split; lra. }
    lra.
Qed.

Lemma round_thousandths_near (x : Q) :
  x - 0.0005 < Math_round (x * 1000) / 1000 <= x + 0.0005.
Proof.
  pose proof (Math_round_lower (x * 1000)) as Hlo.
  pose proof (Math_round_upper (x * 1000)) as Hhi.
  set (r := Math_round (x * 1000)) in *.
  unfold Qdiv. change (/ 1000) with (1 # 1000). lra.
Qed.

(** X13.  With market data of confidence [c] in [[0, 1]], the Tier 2 price
    is the rounded blend of the Tier 1 price and the market median: it lies
    between the rounded smaller and the rounded larger of the two, is the
    rounded Tier 1 price at [c = 0] and the rounded median at [c = 1]; the
    reported factor is the ratio of the two prices to three decimals, or 1
    when the Tier 1 price is not positive. *)
Theorem calculateTier2_blend :
  forall (tier1Base : Q) (r : RouteMedianResult.t),
    0 <= RouteMedianResult.confidenceScore r <= 1 ->
    let t := calculateTier2 tier1Base (Some r) in
    let ratio := Tier2Breakdown.adjustedPrice t / tier1Base in
    Math_round (Math_min tier1Base (RouteMedianResult.median r))
      <= Tier2Breakdown.adjustedPrice t
      <= Math_round (Math_max tier1Base (RouteMedianResult.median r))
    /\ (RouteMedianResult.confidenceScore r == 0 ->
        Tier2Breakdown.adjustedPrice t = Math_round tier1Base)
    /\ (RouteMedianResult.confidenceScore r == 1 ->
        Tier2Breakdown.adjustedPrice t = Math_round (RouteMedianResult.median r))
    /\ (0 < tier1Base ->
        ratio - 0.0005 < Tier2Breakdown.adjustmentFactor t <= ratio + 0.0005)
    /\ (tier1Base <= 0 -> Tier2Breakdown.adjustmentFactor t = 1.0)
    /\ Tier2Breakdown.hasMarketData t = true.
Proof.
  intros tier1Base r Hc t ratio. subst ratio t.
  cbn [calculateTier2 Tier2Breakdown.adjustedPrice Tier2Breakdown.adjustmentFactor
       Tier2Breakdown.hasMarketData].
  set (c := RouteMedianResult.confidenceScore r) in *.
  set (m := RouteMedianResult.median r).
  destruct (blend_between tier1Base m c Hc) as [Hlo Hhi].
  repeat split.
  - now apply Math_round_mono.
  - now apply Math_round_mono.
  - intro H0. apply Math_round_comp. rewrite H0. ring.
  - intro H1. apply Math_round_comp. rewrite H1. ring.
  - apply Qlt_bool_true in H. rewrite H. apply round_thousandths_near.
  - apply Qlt_bool_true in H. rewrite H. apply round_thousandths_near.
  - intro H. apply Qlt_bool_false in H. now rewrite H.
Qed.

Lemma calculateTier2_blend_witness :
  Math_round (Math_min 100000 (RouteMedianResult.median sampleResult))
    <= Tier2Breakdown.adjustedPrice (calculateTier2 100000 (Some sampleResult))
    <= Math_round (Math_max 100000 (RouteMedianResult.median sampleResult)).
Proof.
  apply (calculateTier2_blend 100000 sampleResult).
  vm_compute. split; discriminate.
Defined.

(* ================================================================== *)
(** ** Tier 3: surcharges and the manual adjustment *)
(* ================================================================== *)

Lemma Math_round_nonneg (x : Q) : 0 <= x -> 0 <= Math_round x.
Proof.
  intro H. change 0 with (inject_Z 0) at 1. rewrite <- (Math_round_Z 0).
  apply Math_round_mono. exact H.
Qed.

Lemma ceilTo1000_mono (x y : Q) : x <= y -> ceilTo1000 x <= ceilTo1000 y.
Proof.
  intro H. unfold ceilTo1000, Math_ceil.
  assert (Hz : (Qceiling (x / 1000) <= Qceiling (y / 1000))%Z).
  { apply Qceiling_resp_le. unfold Qdiv. change (/ 1000) with (1 # 1000). lra. }
  rewrite Zle_Qle in Hz. lra.
Qed.

Lemma getFreightRiskRate_cases (freightType : option string)
    (costs : CostVariables) :
  let rate := getFreightRiskRate freightType costs in
  rate = 0 \/ rate = freight_risk_fragile costs
  \/ rate = freight_risk_refrigerated costs
  \/ rate = freight_risk_hazardous costs.
Proof.
  destruct freightType as [[|c s]|]; cbn [getFreightRiskRate]; auto.
  cbv zeta.
  destruct (someIncluded FRAGILE_KEYWORDS _); auto.
  destruct (someIncluded REFRIGERATED_KEYWORDS _); auto.
  destruct (someIncluded HAZARDOUS_KEYWORDS _); auto.
Qed.

(** X14.  For a non-negative Tier 2 price and non-negative margin and risk
    rates, the company margin and the freight surcharge of Tier 3 are
    non-negative; with a non-negative manual rate the final price is at
    least the Tier 2 price, and the final price never decreases when the
    manual rate is raised. *)
Theorem calculateTier3_surcharges :
  forall (tier2Price : Q) (freightType : option string)
         (manualAdjustmentRate : Q) (costs : CostVariables),
    0 <= tier2Price ->
    0 <= company_margin_rate costs ->
    0 <= freight_risk_fragile costs ->
    0 <= freight_risk_refrigerated costs ->
    0 <= freight_risk_hazardous costs ->
    let t := calculateTier3 tier2Price freightType manualAdjustmentRate costs in
    0 <= Tier3Breakdown.companyMargin t
    /\ 0 <= Tier3Breakdown.freightRiskSurcharge t
    /\ (0 <= manualAdjustmentRate ->
        tier2Price <= Tier3Breakdown.subtotalBeforeRounding t
        /\ tier2Price <= Tier3Breakdown.finalPrice t)
    /\ (forall higher : Q,
           manualAdjustmentRate <= higher ->
           Tier3Breakdown.finalPrice t
           <= Tier3Breakdown.finalPrice
                (calculateTier3 tier2Price freightType higher costs)).
Proof.
  intros p freightType rate costs Hp Hm Hf Hr Hh t.
  assert (Hrate : 0 <= getFreightRiskRate freightType costs).
  { destruct (getFreightRiskRate_cases freightType costs)
      as [-> | [-> | [-> | ->]]]; [lra | assumption ..]. }
  assert (Hmargin : 0 <= Math_round (p * company_margin_rate costs)).
  { apply Math_round_nonneg. now apply Qmult_le_0_compat. }
  assert (Hrisk : 0 <= Math_round (p * getFreightRiskRate freightType costs)).
  { apply Math_round_nonneg. now apply Qmult_le_0_compat. }
  subst t.
  cbn [calculateTier3 Tier3Breakdown.companyMargin
       Tier3Breakdown.freightRiskSurcharge Tier3Breakdown.subtotalBeforeRounding
       Tier3Breakdown.finalPrice].
  split; [exact Hmargin|]. split; [exact Hrisk|]. split.
  - intro Hrate0.
    assert (Hmanual : 0 <= Math_round (p * rate)).
    { apply Math_round_nonneg. now apply Qmult_le_0_compat. }
    assert (Hsub : p <= p + Math_round (p * company_margin_rate costs)
                        + Math_round (p * getFreightRiskRate freightType costs)
                        + Math_round (p * rate)) by lra.
    split; [exact Hsub|].
    eapply Qle_trans; [exact Hsub | apply ceilTo1000_ge].
  - intros higher Hle. apply ceilTo1000_mono.
    assert (Hmono : Math_round (p * rate) <= Math_round (p * higher)).
    { apply Math_round_mono.
      assert (H : 0 <= p * (higher - rate)) by (apply Qmult_le_0_compat; lra).
      lra. }
    lra.
Qed.

Lemma calculateTier3_surcharges_witness :
  Tier3Breakdown.finalPrice (calculateTier3 100000 (Some "glass") 0 COST_DEFAULTS)
  <= Tier3Breakdown.finalPrice
       (calculateTier3 100000 (Some "glass") 0.1 COST_DEFAULTS).
Proof.
  refine (proj2 (proj2 (proj2
            (calculateTier3_surcharges 100000 (Some "glass") 0 COST_DEFAULTS
               _ _ _ _ _))) 0.1 _);
    vm_compute; discriminate.
Defined.

(* ================================================================== *)
(** ** Overall confidence *)
(* ================================================================== *)

Lemma round_hundredths_mono (x y : Q) :
  x <= y -> Math_round (x * 100) / 100 <= Math_round (y * 100) / 100.
Proof.
  intro H.
  assert (Hr : Math_round (x * 100) <= Math_round (y * 100))
    by (apply Math_round_mono; lra).
  unfold Qdiv. change (/ 100) with (1 # 100). lra.
Qed.

Lemma round_hundredths_exact (z : Z) (x : Q) :
  x * 100 == inject_Z z -> Math_round (x * 100) / 100 == inject_Z z / 100.
Proof.
  intro H. rewrite (Math_round_comp _ _ H), Math_round_Z. reflexivity.
Qed.

(** X15.  The overall confidence weighs the distance source 0.3 and the
    market confidence 0.7.  When the market confidence, if any, lies in
    [[0, 1]], the result lies in [[0.18, 1]], and in [[0.18, 0.88]] for an
    estimated distance; without market data it is 0.51 for a known distance
    and 0.39 for an estimated one; a known distance never gives the lower
    value of the two. *)
Theorem computeOverallConfidence_range :
  forall (source : DistanceSource) (tier2 : Tier2Breakdown.t),
    (Tier2Breakdown.hasMarketData tier2 = true ->
     0 <= Tier2Breakdown.confidenceScore tier2 <= 1) ->
    0.18 <= computeOverallConfidence source tier2 <= 1
    /\ computeOverallConfidence haversine tier2 <= 0.88
    /\ (Tier2Breakdown.hasMarketData tier2 = false ->
        computeOverallConfidence source tier2 == confidenceWithoutMarket source)
    /\ computeOverallConfidence haversine tier2
       <= computeOverallConfidence lookup tier2.
Proof.
  intros source tier2 H. unfold computeOverallConfidence.
  set (marketConf := if Tier2Breakdown.hasMarketData tier2
                     then Tier2Breakdown.confidenceScore tier2 else 0.3).
  assert (Hm : 0 <= marketConf <= 1).
  { subst marketConf. destruct (Tier2Breakdown.hasMarketData tier2);
      [now apply H | lra]. }
  assert (H18 : forall x, 0.18 <= x -> 0.18 <= Math_round (x * 100) / 100).
  { intros x Hx.
    assert (E : Math_round (0.18 * 100) / 100 == 0.18)
      by (rewrite (round_hundredths_exact 18); reflexivity).
    rewrite <- E at 1. now apply round_hundredths_mono. }
  assert (H1 : forall x, x <= 1 -> Math_round (x * 100) / 100 <= 1).
  { intros x Hx.
    assert (E : Math_round (1 * 100) / 100 == 1)
      by (rewrite (round_hundredths_exact 100); reflexivity).
    rewrite <- E. now apply round_hundredths_mono. }
  split; [|split; [|split]].
  - destruct source; split; (apply H18 || apply H1); lra.
  - assert (E : Math_round (0.88 * 100) / 100 == 0.88)
      by (rewrite (round_hundredths_exact 88); reflexivity).
    rewrite <- E. apply round_hundredths_mono. lra.
  - intro Hno. subst marketConf. rewrite Hno. destruct source.
    + rewrite (round_hundredths_exact 51); reflexivity.
    + rewrite (round_hundredths_exact 39); reflexivity.
  - apply round_hundredths_mono. lra.
Qed.

Lemma computeOverallConfidence_range_witness :
  0.18 <= computeOverallConfidence lookup (calculateTier2 100000 (Some sampleResult))
       <= 1.
Proof.
  apply (computeOverallConfidence_range lookup
           (calculateTier2 100000 (Some sampleResult))).
  intros _. vm_compute. split; discriminate.
Defined.

(* ================================================================== *)
(** ** The cost master *)
(* ================================================================== *)

Lemma property_app {A} (t1 t2 : list (string * A)) (key : string) :
  property (t1 ++ t2) key = orElse (property t1 key) (property t2 key).
Proof.
  induction t1 as [|[k v] t1 IH]; cbn; [now destruct (property t2 key)|].
  destruct (String.eqb k key); [reflexivity | exact IH].
Qed.

Lemma property_None {A} (table : list (string * A)) (key : string) :
  property table key = None <-> ~ In key (map fst table).
Proof.
  induction table as [|[k v] table IH]; cbn; [tauto|].
  destruct (String.eqb k key) eqn:E.
  - apply String.eqb_eq in E. split; [discriminate | intro H; exfalso; auto].
  - apply String.eqb_neq in E. rewrite IH. tauto.
Qed.

Lemma costValue_None (rows : list (string * Q)) (item : string) :
  costValue rows item = None <-> ~ In item (map fst rows).
Proof.
  unfold costValue. rewrite property_None, map_rev, <- in_rev. reflexivity.
Qed.

Lemma costValue_snoc (rows : list (string * Q)) (item other : string) (v : Q) :
  costValue (rows ++ [(item, v)]) other
  = if String.eqb item other then Some v else costValue rows other.
Proof.
  unfold costValue. rewrite rev_app_distr. reflexivity.
Qed.

(** X16.  A cost item has no value exactly when no row of the table names
    it; a row appended to the table sets the value of its item and of no
    other; of several rows for one item the last one counts. *)
Theorem costValue_last_row_wins :
  forall (rows : list (string * Q)) (item : string) (v : Q),
    (costValue rows item = None <-> ~ In item (map fst rows))
    /\ (forall other,
           costValue (rows ++ [(item, v)]) other
           = if String.eqb item other then Some v else costValue rows other)
    /\ (forall before after,
           rows = before ++ (item, v) :: after ->
           ~ In item (map fst after) ->
           costValue rows item = Some v).
Proof.
  intros rows item v. split; [apply costValue_None|].
  split; [intro other; apply costValue_snoc|].
  intros before after -> Hafter. unfold costValue.
  rewrite rev_app_distr. cbn [rev]. rewrite <- app_assoc, property_app.
  assert (Hnone : property (rev after) item = None).
  { apply property_None. now rewrite map_rev, <- in_rev. }
  rewrite Hnone. cbn. now rewrite String.eqb_refl.
Qed.

Lemma costValue_last_row_wins_witness :
  costValue [("toll_rate", 100); ("toll_rate", 130); ("fuel_price", 1700)]
    "toll_rate" = Some 130.
Proof.
  refine (proj2 (proj2 (costValue_last_row_wins _ "toll_rate" 130))
            [("toll_rate", 100)] [("fuel_price", 1700)] eq_refl _).
  cbn. intros [H | []]. discriminate H.
Defined.

(** X17.  [fetchCostVariables] reads the nine known items only: two tables
    that agree on them give the same cost variables, and a table naming
    none of them gives the defaults. *)
Theorem fetchCostVariables_known_items :
  forall (store : Store),
    (forall other : Store,
        (forall item, In item COST_ITEMS ->
                      costValue (costMaster store) item
                      = costValue (costMaster other) item) ->
        fetchCostVariables store = fetchCostVariables other)
    /\ ((forall item, In item COST_ITEMS ->
                      ~ In item (map fst (costMaster store))) ->
        fetchCostVariables store = COST_DEFAULTS).
Proof.
  intro store. split.
  - intros other H. unfold fetchCostVariables.
    rewrite !H by (cbn; tauto). reflexivity.
  - intro H. unfold fetchCostVariables.
    rewrite !(proj2 (costValue_None _ _)) by (apply H; cbn; tauto).
    reflexivity.
Qed.

Lemma fetchCostVariables_known_items_witness :
  fetchCostVariables {| costMaster := [("insurance", 5)]; marketData := [] |}
  = COST_DEFAULTS.
Proof.
  apply (proj2 (fetchCostVariables_known_items
                  {| costMaster := [("insurance", 5)]; marketData := [] |})).
  intros item Hin [Heq | []]. cbn in Heq. subst item.
  cbn in Hin. repeat (destruct Hin as [Hin | Hin]; [discriminate Hin|]).
  exact Hin.
Defined.

(* ================================================================== *)
(** ** Tier 1: cost grows with distance *)
(* ================================================================== *)

Lemma VEHICLE_EFFICIENCY_pos :
  forallb (fun kv => Qlt_bool 0 (snd kv)) VEHICLE_EFFICIENCY = true.
Proof. vm_compute. reflexivity. Qed.

Lemma member_Own {A} (table : list (string * A)) (key : string) (value : A) :
  member table key = Own value <-> property table key = Some value.
Proof.
  unfold member. destruct (property table key) as [v|].
  - split; intro H; injection H as ->; reflexivity.
  - split; [|discriminate].
    destruct (existsb _ OBJECT_PROTOTYPE_KEYS); discriminate.
Qed.

Lemma getEfficiency_pos (vehicleType : string) (defaultEff efficiency : Q) :
  0 < defaultEff -> getEfficiency vehicleType defaultEff = Some efficiency ->
  0 < efficiency.
Proof.
  intros H. unfold getEfficiency.
  destruct (member VEHICLE_EFFICIENCY vehicleType) as [v| |] eqn:E;
    [|discriminate|intro Hd; injection Hd as <-; exact H].
  intro Hv. injection Hv as <-.
  apply member_Own, property_In in E. pose proof VEHICLE_EFFICIENCY_pos as Hall.
  rewrite forallb_forall in Hall. specialize (Hall _ E).
  now apply Qlt_bool_true in Hall.
Qed.

Lemma Qdiv_le_compat (a b c : Q) : 0 < c -> a <= b -> a / c <= b / c.
Proof.
  intros Hc Hab. unfold Qdiv. apply Qmult_le_compat_r; [exact Hab|].
  apply Qlt_le_weak, Qinv_lt_0_compat, Hc.
Qed.

(** X18.  For a positive default efficiency, non-negative fuel price,
    toll rate and driver profit rate, and amounts within the limit: Tier 1
    yields no finite breakdown exactly when the vehicle type names an
    inherited property of the efficiency table (the efficiency is then not
    a number); otherwise no component of the Tier 1 cost decreases when
    the distance grows, and with a non-negative distance and fixed cost
    the subtotal is at least the fixed cost. *)
Theorem calculateTier1_monotone :
  forall (near far : RouteDistanceResult.t) (vehicleType : string)
         (costs : CostVariables),
    0 < fuel_efficiency costs ->
    0 <= fuel_price costs ->
    0 <= toll_rate costs ->
    0 <= driver_profit_rate costs ->
    costsWithinLimit costs ->
    withinLimit (RouteDistanceResult.distanceKm near) ->
    withinLimit (RouteDistanceResult.distanceKm far) ->
    RouteDistanceResult.distanceKm near <= RouteDistanceResult.distanceKm far ->
    match calculateTier1 near vehicleType costs,
          calculateTier1 far vehicleType costs with
    | Some t1, Some t2 =>
        member VEHICLE_EFFICIENCY vehicleType <> Inherited
        /\ Tier1Breakdown.fuelCost t1 <= Tier1Breakdown.fuelCost t2
        /\ Tier1Breakdown.tollCost t1 <= Tier1Breakdown.tollCost t2
        /\ Tier1Breakdown.driverProfit t1 <= Tier1Breakdown.driverProfit t2
        /\ Tier1Breakdown.subtotal t1 <= Tier1Breakdown.subtotal t2
        /\ (0 <= RouteDistanceResult.distanceKm near ->
            0 <= vehicle_fixed_cost costs ->
            vehicle_fixed_cost costs <= Tier1Breakdown.subtotal t1)
    | None, None => member VEHICLE_EFFICIENCY vehicleType = Inherited
    | _, _ => False
    end.
Proof.
  intros near far vehicleType costs Heff Hfuel Htoll Hprofit _ _ _ Hkm.
  pose proof (getEfficiency_pos vehicleType (fuel_efficiency costs)) as Hpos.
  unfold calculateTier1.
  destruct (getEfficiency vehicleType (fuel_efficiency costs)) as [eff|] eqn:Ee.
  2:{ unfold getEfficiency in Ee.
      now destruct (member VEHICLE_EFFICIENCY vehicleType). }
  specialize (Hpos eff Heff eq_refl).
  assert (Hz : Qeq_bool eff 0 = false).
  { apply not_true_is_false. intro H. apply Qeq_bool_eq in H. lra. }
  rewrite Hz.
  cbn [Tier1Breakdown.fuelCost Tier1Breakdown.tollCost
       Tier1Breakdown.driverProfit Tier1Breakdown.subtotal].
  set (km1 := RouteDistanceResult.distanceKm near) in *.
  set (km2 := RouteDistanceResult.distanceKm far) in *.
  assert (H1 : Math_round (km1 / eff * fuel_price costs)
               <= Math_round (km2 / eff * fuel_price costs)).
  { apply Math_round_mono. apply Qmult_le_compat_r; [|exact Hfuel].
    now apply Qdiv_le_compat. }
  assert (H2 : Math_round (km1 * toll_rate costs)
               <= Math_round (km2 * toll_rate costs)).
  { apply Math_round_mono. now apply Qmult_le_compat_r. }
  set (f1 := Math_round (km1 / eff * fuel_price costs)) in *.
  set (f2 := Math_round (km2 / eff * fuel_price costs)) in *.
  set (g1 := Math_round (km1 * toll_rate costs)) in *.
  set (g2 := Math_round (km2 * toll_rate costs)) in *.
  set (fixed := vehicle_fixed_cost costs).
  assert (H3 : Math_round ((f1 + g1 + fixed) * driver_profit_rate costs)
               <= Math_round ((f2 + g2 + fixed) * driver_profit_rate costs)).
  { apply Math_round_mono. apply Qmult_le_compat_r; [lra | exact Hprofit]. }
  split.
  { unfold getEfficiency in Ee.
    destruct (member VEHICLE_EFFICIENCY vehicleType); discriminate. }
  split; [exact H1|]. split; [exact H2|]. split; [exact H3|]. split; [lra|].
  intros Hkm0 Hfixed.
  assert (Hf1 : 0 <= f1).
  { apply Math_round_nonneg. apply Qmult_le_0_compat; [|exact Hfuel].
    apply Qdiv_nonneg; [exact Hkm0 | apply Qlt_le_weak, Hpos]. }
  assert (Hg1 : 0 <= g1).
  { apply Math_round_nonneg. now apply Qmult_le_0_compat. }
  assert (Hp1 : 0 <= Math_round ((f1 + g1 + fixed) * driver_profit_rate costs)).
  { apply Math_round_nonneg. apply Qmult_le_0_compat; [lra | exact Hprofit]. }
  lra.
Qed.

Lemma calculateTier1_monotone_witness :
  exists t1 t2,
    calculateTier1 (RouteDistanceResult.mk 88 lookup) "11t" COST_DEFAULTS = Some t1
    /\ calculateTier1 (RouteDistanceResult.mk 325 lookup) "11t" COST_DEFAULTS
       = Some t2
    /\ Tier1Breakdown.subtotal t1 <= Tier1Breakdown.subtotal t2.
Proof.
  assert (H : costsWithinLimit COST_DEFAULTS).
  { split; [repeat constructor|]; vm_compute; discriminate. }
  pose proof (calculateTier1_monotone (RouteDistanceResult.mk 88 lookup)
                (RouteDistanceResult.mk 325 lookup) "11t" COST_DEFAULTS
                ltac:(reflexivity) ltac:(discriminate) ltac:(discriminate)
                ltac:(discriminate) H
                ltac:(split; vm_compute; discriminate)
                ltac:(split; vm_compute; discriminate)
                ltac:(discriminate)) as Hm.
  destruct (calculateTier1 (RouteDistanceResult.mk 88 lookup) "11t" COST_DEFAULTS)
    as [t1|] eqn:E1;
    destruct (calculateTier1 (RouteDistanceResult.mk 325 lookup) "11t" COST_DEFAULTS)
      as [t2|] eqn:E2; try contradiction.
  - exists t1, t2. split; [reflexivity|]. split; [reflexivity|].
    destruct Hm as (_ & _ & _ & _ & Hs & _). exact Hs.
  - vm_compute in Hm. discriminate Hm.
Defined.

(** X19.  Provided the functions of [Math] respect equality of numbers and
    [Math.sin] is odd, a request and the request in the opposite direction
    fare alike: both are priced, with the same Tier 1 breakdown, or both
    come out not finite, or both throw. *)
Theorem calculateFPHPrice_tier1_symmetric :
  forall (Math : JSMath),
    (forall x y, x == y -> Math_sin Math x == Math_sin Math y) ->
    (forall x, Math_sin Math (- x) == - Math_sin Math x) ->
    (forall x y, x == y -> Math_sqrt Math x == Math_sqrt Math y) ->
    (forall y y' x x', y == y' -> x == x' ->
                       Math_atan2 Math y x == Math_atan2 Math y' x') ->
    forall (store : Store) (input : FPHInput.t),
      match calculateFPHPrice Math store (reverseRoute input),
            calculateFPHPrice Math store input with
      | Returned back, Returned forth =>
          FPHResult.tier1 back = FPHResult.tier1 forth
      | NotFinite, NotFinite => True
      | Thrown, Thrown => True
      | _, _ => False
      end.
Proof.
  intros Math Hsin Hodd Hsqrt Hatan store input.
  unfold calculateFPHPrice.
  cbn [reverseRoute FPHInput.origin FPHInput.destination FPHInput.vehicleType].
  rewrite (getRouteDistance_sym Math Hsin Hodd Hsqrt Hatan
             (FPHInput.destination input) (FPHInput.origin input)).
  destruct (getRouteDistance Math (FPHInput.origin input)
              (FPHInput.destination input)) as [distance|]; [|exact I].
  destruct (calculateTier1 distance (FPHInput.vehicleType input)
              (fetchCostVariables store)) as [tier1|]; [|exact I].
  reflexivity.
Qed.

Lemma calculateFPHPrice_tier1_symmetric_witness :
  exists back forth,
    calculateFPHPrice sampleMath sampleStore (reverseRoute sampleInput)
    = Returned back
    /\ calculateFPHPrice sampleMath sampleStore sampleInput = Returned forth
    /\ FPHResult.tier1 back = FPHResult.tier1 forth.
Proof.
  pose proof (calculateFPHPrice_tier1_symmetric sampleMath
                sampleMath_sin_comp sampleMath_sin_odd sampleMath_sqrt_comp
                sampleMath_atan2_comp sampleStore sampleInput) as H.
  destruct (calculateFPHPrice sampleMath sampleStore (reverseRoute sampleInput))
    as [back| |] eqn:Eb;
    destruct (calculateFPHPrice sampleMath sampleStore sampleInput)
      as [forth| |] eqn:Ef; try contradiction.
  - exists back, forth. now repeat split.
  - vm_compute in Ef. discriminate Ef.
  - vm_compute in Ef. discriminate Ef.
Defined.

(* ================================================================== *)
(** ** The market lookup of the engine *)
(* ================================================================== *)

Lemma find_first {A} (f : A -> bool) (xs : list A) (x : A) :
  find f xs = Some x ->
  exists before after,
    xs = before ++ x :: after /\ f x = true
    /\ forall y, In y before -> f y = false.
Proof.
  induction xs as [|a xs IH]; cbn; [discriminate|].
  destruct (f a) eqn:E.
  - intro H. injection H as ->. exists [], xs. repeat split; [exact E|].
    intros y [].
  - intro H. destruct (IH H) as [before [after [-> [Hx Hb]]]].
    exists (a :: before), after. repeat split; [exact Hx|].
    intros y [<- | Hy]; [exact E | now apply Hb].
Qed.

(** X20.  A result returned by [findMarketMedian] is one of the analysis
    results for the requested vehicle type and carries that vehicle type;
    it is the first result for the exact route, or, when no result is for
    the exact route, the first fallback result for the two provinces. *)
Theorem findMarketMedian_found :
  forall (Math : JSMath) (store : Store) (origin destination vehicleType : string)
         (r : RouteMedianResult.t),
    findMarketMedian Math store origin destination vehicleType = Some r ->
    let results := marketResultsFor Math store vehicleType in
    RouteMedianResult.vehicleType r = vehicleType
    /\ exists before after,
         results = before ++ r :: after
         /\ ((exactMatch origin destination r
              /\ forall r', In r' before -> ~ exactMatch origin destination r')
             \/ (provinceMatch origin destination r
                 /\ (forall r', In r' results -> ~ exactMatch origin destination r')
                 /\ forall r', In r' before ->
                               ~ provinceMatch origin destination r')).
Proof.
  intros Math store origin destination vehicleType r H results.
  assert (Hcases :
    exists before after,
      results = before ++ r :: after
      /\ ((exactMatch origin destination r
           /\ forall r', In r' before -> ~ exactMatch origin destination r')
          \/ (provinceMatch origin destination r
              /\ (forall r', In r' results -> ~ exactMatch origin destination r')
              /\ forall r', In r' before ->
                            ~ provinceMatch origin destination r'))).
  { subst results. unfold marketResultsFor. unfold findMarketMedian in H.
    destruct (filter _ (marketData store)) as [|d ds] eqn:E; [discriminate|].
    set (results := analyzeMarketData Math (d :: ds)) in *.
    destruct (find _ results) as [e|] eqn:Eexact in H.
    - injection H as ->.
      destruct (find_first _ _ _ Eexact) as [before [after [Hsplit [Hr Hb]]]].
      exists before, after. split; [exact Hsplit|]. left.
      apply andb_true_iff in Hr. destruct Hr as [Ho Hd].
      apply String.eqb_eq in Ho, Hd. split; [now split|].
      intros r' Hr' [Ho' Hd']. specialize (Hb r' Hr').
      rewrite Ho', Hd', !String.eqb_refl in Hb. discriminate.
    - destruct (find_first _ _ _ H) as [before [after [Hsplit [Hr Hb]]]].
      exists before, after. split; [exact Hsplit|]. right.
      rewrite !andb_true_iff in Hr. destruct Hr as [[Hf Ho] Hd].
      apply String.eqb_eq in Ho, Hd. split; [now repeat split|]. split.
      + intros r' Hr' [Ho' Hd'].
        pose proof (find_none _ _ Eexact r' Hr') as Hn. cbn beta in Hn.
        rewrite Ho', Hd', !String.eqb_refl in Hn. discriminate.
      + intros r' Hr' [Hf' [Ho' Hd']]. specialize (Hb r' Hr'). cbn beta in Hb.
        unfold extractProvince in Ho', Hd'.
        rewrite Hf', Ho', Hd', !String.eqb_refl in Hb. discriminate. }
  split; [|exact Hcases].
  destruct Hcases as [before [after [Hsplit _]]].
  assert (Hin : In r results) by (rewrite Hsplit; apply in_elt).
  subst results. unfold marketResultsFor in Hin.
  destruct (analyzeMarketData_vehicleType Math _ r Hin) as [d [Hd Hv]].
  apply filter_In in Hd. destruct Hd as [_ Hd]. apply String.eqb_eq in Hd.
  congruence.
Qed.

Lemma findMarketMedian_found_witness :
  RouteMedianResult.vehicleType sampleResult = "11t".
Proof.
  refine (proj1 (findMarketMedian_found sampleMath
                   {| costMaster := []; marketData := singleObservation |}
                   "Seoul/Gangnam" "Busan/Haeundae" "11t" sampleResult _)).
  vm_compute. reflexivity.
Defined.

(* ================================================================== *)
(** ** Route distance: the four cases *)
(* ================================================================== *)

Lemma ROAD_DISTANCES_range :
  forallb (fun kv => Qle_bool 25 (snd kv) && Qle_bool (snd kv) 480
                     && (Qden (snd kv) =? 1)%positive)
    ROAD_DISTANCES = true.
Proof. vm_compute. reflexivity. Qed.

Lemma lookupDistance_range (prov1 prov2 : string) (known : Q) :
  lookupDistance prov1 prov2 = Some known ->
  25 <= known <= 480 /\ known = inject_Z (Qnum known).
Proof.
  unfold lookupDistance, orElse. intro H.
  assert (Hin : exists key, In (key, known) ROAD_DISTANCES).
  { destruct (property ROAD_DISTANCES (prov1 ++ "→" ++ prov2)) as [v|] eqn:E.
    - injection H as ->. eexists. apply (property_In _ _ _ E).
    - eexists. apply (property_In _ _ _ H). }
  destruct Hin as [key Hin]. pose proof ROAD_DISTANCES_range as Hall.
  rewrite forallb_forall in Hall. specialize (Hall _ Hin). cbn [snd] in Hall.
  rewrite !andb_true_iff in Hall. destruct Hall as [[Hlo Hhi] Hden].
  apply Qle_bool_true in Hlo, Hhi. apply Pos.eqb_eq in Hden.
  split; [now split|]. destruct known as [n d]. cbn in Hden. subst d.
  reflexivity.
Qed.

(** X21.  [getRouteDistance] depends on the two provinces only.  It yields
    no distance exactly when the provinces differ, their corridor is not
    tabulated, and the coordinate table answers both province names, one
    of them with an inherited property (the haversine formula then
    throws).  A distance it returns is a whole number of kilometres; its
    source is [lookup] exactly when the provinces coincide or their
    corridor is tabulated, and then the distance lies between 25 and 480
    km, 30 km within one province; otherwise the source is [haversine],
    and the distance is 200 km when the table has nothing for a
    province. *)
Theorem getRouteDistance_cases :
  forall (Math : JSMath) (origin destination : string),
    let prov1 := extractProvince origin in
    let prov2 := extractProvince destination in
    getRouteDistance Math origin destination = getRouteDistance Math prov1 prov2
    /\ (getRouteDistance Math origin destination = None <->
        prov1 <> prov2
        /\ lookupDistance prov1 prov2 = None
        /\ member PROVINCE_COORDS prov1 <> Missing
        /\ member PROVINCE_COORDS prov2 <> Missing
        /\ (member PROVINCE_COORDS prov1 = Inherited
            \/ member PROVINCE_COORDS prov2 = Inherited))
    /\ (forall r, getRouteDistance Math origin destination = Some r ->
          (exists km : Z, RouteDistanceResult.distanceKm r = inject_Z km)
          /\ (RouteDistanceResult.source r = lookup
              <-> prov1 = prov2 \/ lookupDistance prov1 prov2 <> None)
          /\ (RouteDistanceResult.source r = lookup ->
              25 <= RouteDistanceResult.distanceKm r <= 480)
          /\ (prov1 = prov2 -> r = RouteDistanceResult.mk 30 lookup)
          /\ (RouteDistanceResult.source r = haversine ->
              member PROVINCE_COORDS prov1 = Missing
              \/ member PROVINCE_COORDS prov2 = Missing ->
              RouteDistanceResult.distanceKm r = 200)).
Proof.
  intros Math origin destination prov1 prov2.
  split.
  { subst prov1 prov2. unfold getRouteDistance.
    now rewrite !extractProvince_idem. }
  unfold getRouteDistance. fold prov1 prov2.
  destruct (String.eqb prov1 prov2) eqn:E.
  - apply String.eqb_eq in E. split.
    + split; [discriminate | intros [H _]; contradiction].
    + intros r Hr. injection Hr as <-. cbn.
      split; [now exists 30%Z|]. split; [tauto|].
      split; [intros _; split; discriminate|]. split; [reflexivity|]. discriminate.
  - apply String.eqb_neq in E.
    destruct (lookupDistance prov1 prov2) as [known|] eqn:El.
    + destruct (lookupDistance_range _ _ _ El) as [Hrange Hint]. split.
      * split; [discriminate | intros [_ [H _]]; discriminate].
      * intros r Hr. injection Hr as <-. cbn.
        split; [now exists (Qnum known)|].
        split; [split; [intros _; right; discriminate | reflexivity]|].
        split; [intros _; exact Hrange|]. split; [tauto | discriminate].
    + destruct (member PROVINCE_COORDS prov1) as [c1| |],
               (member PROVINCE_COORDS prov2) as [c2| |];
        (split;
         [ split;
           [ try discriminate; intros _; repeat split;
             (assumption || discriminate || (left; reflexivity)
              || (right; reflexivity))
           | try reflexivity;
             intros (_ & _ & H1 & H2 & [H | H]);
             (discriminate H || contradiction) ]
         | intros r Hr; try discriminate Hr; injection Hr as <-; cbn;
           (split; [eexists; reflexivity || (now exists 200%Z)|]);
           (split; [split; [discriminate | intros [? | ?]; congruence]|]);
           (split; [discriminate|]); (split; [tauto|]);
           intros _ [? | ?]; (discriminate || reflexivity) ]).
Qed.

Lemma getRouteDistance_cases_witness :
  exists r,
    getRouteDistance sampleMath "Seoul/Gangnam" "Busan/Haeundae" = Some r
    /\ 25 <= RouteDistanceResult.distanceKm r <= 480.
Proof.
  exists (RouteDistanceResult.mk 325 lookup). split; [reflexivity|].
  destruct (getRouteDistance_cases sampleMath "Seoul/Gangnam" "Busan/Haeundae")
    as (_ & _ & Hsome).
  destruct (Hsome (RouteDistanceResult.mk 325 lookup) ltac:(reflexivity))
    as (_ & _ & Hrange & _).
  apply Hrange. reflexivity.
Defined.

(* ================================================================== *)
(** ** Province extraction *)
(* ================================================================== *)

Lemma split0_no_slash (s : string) : hasChar "/" (split0 s) = false.
Proof.
  induction s as [|c s IH]; cbn; [reflexivity|].
  destruct (Ascii.eqb c "/") eqn:E; cbn; [reflexivity|]. now rewrite E.
Qed.

Lemma split0_prefix (p rest : string) :
  hasChar "/" p = false -> split0 (p ++ "/" ++ rest) = p.
Proof.
  induction p as [|c p IH]; cbn; [reflexivity|].
  destruct (Ascii.eqb c "/"); cbn; [discriminate|]. intro H.
  f_equal. apply IH, H.
Qed.

Lemma split0_whole (s : string) : hasChar "/" s = false -> split0 s = s.
Proof.
  induction s as [|c s IH]; cbn; [reflexivity|].
  destruct (Ascii.eqb c "/"); cbn; [discriminate|]. intro H. now rewrite IH.
Qed.

Lemma trimStart_hasChar (c : ascii) (s : string) :
  hasChar c s = false -> hasChar c (trimStart s) = false.
Proof.
  induction s as [|x s IH]; cbn; [reflexivity|].
  intro H. apply orb_false_iff in H. destruct H as [Hx Hs].
  destruct (isSpace x); [now apply IH | cbn; now rewrite Hx, Hs].
Qed.

Lemma trimEnd_hasChar (c : ascii) (s : string) :
  hasChar c s = false -> hasChar c (trimEnd s) = false.
Proof.
  induction s as [|x s IH]; cbn; [reflexivity|].
  intro H. apply orb_false_iff in H. destruct H as [Hx Hs].
  specialize (IH Hs). destruct (trimEnd s) as [|y t].
  - destruct (isSpace x); cbn; [reflexivity | now rewrite Hx].
  - cbn [hasChar]. cbn [hasChar] in IH. now rewrite Hx, IH.
Qed.

(** X22.  The province of a location is the text before its first slash
    with the surrounding white space removed: it holds no slash, trimming
    it again changes nothing, and a location without a slash is its own
    province up to trimming. *)
Theorem extractProvince_first_segment :
  forall (location : string),
    hasChar "/" (extractProvince location) = false
    /\ trim (extractProvince location) = extractProvince location
    /\ (forall p rest,
           hasChar "/" p = false -> location = (p ++ "/" ++ rest)%string ->
           extractProvince location = trim p)
    /\ (hasChar "/" location = false -> extractProvince location = trim location).
Proof.
  intro location. unfold extractProvince. split.
  - unfold trim. apply trimEnd_hasChar, trimStart_hasChar, split0_no_slash.
  - split; [apply trim_idem|]. split.
    + intros p rest Hp ->. now rewrite split0_prefix.
    + intro H. now rewrite split0_whole.
Qed.

Lemma extractProvince_first_segment_witness :
  extractProvince " Seoul /Gangnam/Yeoksam" = trim " Seoul ".
Proof.
  destruct (extractProvince_first_segment " Seoul /Gangnam/Yeoksam")
    as (_ & _ & Hseg & _).
  apply (Hseg " Seoul " "Gangnam/Yeoksam"); reflexivity.
Defined.

(* ================================================================== *)
(** ** A price from costs alone *)
(* ================================================================== *)

Lemma Math_round_zero (x : Q) : Math_round (x * 0) = 0.
Proof.
  assert (H : x * 0 == inject_Z 0) by (change (inject_Z 0) with 0; ring).
  rewrite (Math_round_comp _ _ H). apply Math_round_Z.
Qed.

(** X23.  When the market results hold no result for the requested route,
    the price is built from costs alone: the data sources are the cost
    master and the route distance, the overall confidence is 0.51 for a
    known and 0.39 for an estimated distance, and Tier 3 is computed from
    the Tier 1 subtotal. *)
Theorem calculateFPHPrice_cost_only :
  forall (Math : JSMath) (store : Store) (input : FPHInput.t),
    (forall r,
        In r (marketResultsFor Math store (FPHInput.vehicleType input)) ->
        ~ exactMatch (FPHInput.origin input) (FPHInput.destination input) r
        /\ ~ provinceMatch (FPHInput.origin input) (FPHInput.destination input) r) ->
    forall result : FPHResult.t,
      calculateFPHPrice Math store input = Returned result ->
      let source := Tier1Breakdown.distanceSource (FPHResult.tier1 result) in
      Summary.dataSources (FPHResult.summary result)
        = ["CostMaster"; distanceLabel source]
      /\ Summary.overallConfidence (FPHResult.summary result)
         == confidenceWithoutMarket source
      /\ FPHResult.tier3 result
         = calculateTier3 (Tier1Breakdown.subtotal (FPHResult.tier1 result))
             (FPHInput.freightType input)
             (withDefault (FPHInput.manualAdjustmentRate input) 0)
             (fetchCostVariables store).
Proof.
  intros Math store input H result Hres source.
  pose proof (findMarketMedian_none Math store _ _ _ H) as Hnone.
  subst source. unfold calculateFPHPrice in Hres.
  destruct (getRouteDistance Math (FPHInput.origin input)
              (FPHInput.destination input)) as [distance|]; [|discriminate].
  destruct (calculateTier1 distance (FPHInput.vehicleType input)
              (fetchCostVariables store)) as [tier1|] eqn:Et; [|discriminate].
  injection Hres as <-.
  cbn [FPHResult.tier1 FPHResult.tier3 FPHResult.summary Summary.dataSources
       Summary.overallConfidence].
  rewrite Hnone.
  cbn [calculateTier2 Tier2Breakdown.hasMarketData Tier2Breakdown.adjustedPrice].
  assert (Hsrc : Tier1Breakdown.distanceSource tier1
                 = RouteDistanceResult.source distance).
  { unfold calculateTier1 in Et.
    destruct (getEfficiency _ _) as [eff|]; [|discriminate].
    destruct (Qeq_bool eff 0); [discriminate|]. now injection Et as <-. }
  rewrite Hsrc.
  split; [|split; [|reflexivity]].
  - now destruct (RouteDistanceResult.source _).
  - unfold computeOverallConfidence. cbn [Tier2Breakdown.hasMarketData].
    destruct (RouteDistanceResult.source _); vm_compute; reflexivity.
Qed.

Lemma calculateFPHPrice_cost_only_witness :
  exists result,
    calculateFPHPrice sampleMath sampleStore sampleInput = Returned result
    /\ Summary.dataSources (FPHResult.summary result)
       = ["CostMaster";
          distanceLabel (Tier1Breakdown.distanceSource (FPHResult.tier1 result))].
Proof.
  eexists. split; [vm_compute; reflexivity|].
  refine (proj1 (calculateFPHPrice_cost_only sampleMath sampleStore sampleInput
                   _ _ _)).
  - intros r Hr. vm_compute in Hr. destruct Hr as [<- | []].
    split; [intros [H _] | intros [_ [H _]]]; vm_compute in H; discriminate H.
  - vm_compute. reflexivity.
Defined.

(** X24.  A request without a manual adjustment rate is priced with rate 0:
    the manual adjustment is 0 and the subtotal before rounding is the
    Tier 2 price plus the company margin and the freight risk surcharge. *)
Theorem calculateFPHPrice_without_manual_rate :
  forall (Math : JSMath) (store : Store) (input : FPHInput.t),
    FPHInput.manualAdjustmentRate input = None ->
    forall result : FPHResult.t,
      calculateFPHPrice Math store input = Returned result ->
      let tier3 := FPHResult.tier3 result in
      Tier3Breakdown.manualAdjustmentRate tier3 = 0
      /\ Tier3Breakdown.manualAdjustment tier3 = 0
      /\ Tier3Breakdown.subtotalBeforeRounding tier3
         == Tier2Breakdown.adjustedPrice (FPHResult.tier2 result)
            + Tier3Breakdown.companyMargin tier3
            + Tier3Breakdown.freightRiskSurcharge tier3.
Proof.
  intros Math store input H result Hres tier3. subst tier3.
  unfold calculateFPHPrice in Hres.
  destruct (getRouteDistance Math (FPHInput.origin input)
              (FPHInput.destination input)) as [distance|]; [|discriminate].
  destruct (calculateTier1 distance (FPHInput.vehicleType input)
              (fetchCostVariables store)) as [tier1|]; [|discriminate].
  injection Hres as <-.
  cbn [FPHResult.tier3 FPHResult.tier2 calculateTier3
       Tier3Breakdown.manualAdjustmentRate Tier3Breakdown.manualAdjustment
       Tier3Breakdown.subtotalBeforeRounding Tier3Breakdown.companyMargin
       Tier3Breakdown.freightRiskSurcharge].
  rewrite H. cbn [withDefault]. rewrite Math_round_zero.
  split; [reflexivity|]. split; [reflexivity | ring].
Qed.

Lemma calculateFPHPrice_without_manual_rate_witness :
  exists result,
    calculateFPHPrice sampleMath sampleStore sampleInput = Returned result
    /\ Tier3Breakdown.manualAdjustment (FPHResult.tier3 result) = 0.
Proof.
  eexists. split; [vm_compute; reflexivity|].
  refine (proj1 (proj2 (calculateFPHPrice_without_manual_rate
                          sampleMath sampleStore sampleInput _ _ _))).
  - reflexivity.
  - vm_compute. reflexivity.
Defined.

(* ================================================================== *)
(** ** CSV: the fields of a line *)
(* ================================================================== *)

Lemma string_app_nil (s : string) : (s ++ "")%string = s.
Proof. induction s as [|c s IH]; cbn; [reflexivity | now rewrite IH]. Qed.

Lemma string_app_snoc (a : string) (c : ascii) (b : string) :
  ((a ++ String c "") ++ b)%string = (a ++ String c b)%string.
Proof. now rewrite string_app_assoc. Qed.

(** A run of characters that are neither quotes nor, outside quotes,
    commas is appended to the current field. *)
Lemma parseFields_run (f rest current : string) (inQuotes : bool) :
  hasChar QUOTE f = false ->
  inQuotes = true \/ hasChar COMMA f = false ->
  parseFields (f ++ rest) current inQuotes
  = parseFields rest (current ++ f) inQuotes.
Proof.
  revert current. induction f as [|c f IH]; intros current Hq Hc.
  - cbn [append]. now rewrite string_app_nil.
  - cbn [hasChar] in Hq, Hc. apply orb_false_iff in Hq. destruct Hq as [Hcq Hq].
    assert (Hcomma : Ascii.eqb c COMMA && negb inQuotes = false).
    { destruct Hc as [-> | Hc]; [apply andb_false_r|].
      apply orb_false_iff in Hc. destruct Hc as [Hcc _]. now rewrite Hcc. }
    assert (Hc' : inQuotes = true \/ hasChar COMMA f = false).
    { destruct Hc as [-> | Hc]; [now left|]. right.
      apply orb_false_iff in Hc. tauto. }
    change (String c f ++ rest)%string with (String c (f ++ rest)%string).
    cbn [parseFields]. rewrite Hcq, Hcomma.
    rewrite (IH _ Hq Hc'). now rewrite string_app_snoc.
Qed.

Lemma parseFields_comma (rest current : string) :
  parseFields (String COMMA rest) current false
  = trim current :: parseFields rest "" false.
Proof. reflexivity. Qed.

Lemma parseFields_open (rest current : string) :
  rest <> "" ->
  parseFields (String QUOTE rest) current false = parseFields rest current true.
Proof. destruct rest; [congruence | reflexivity]. Qed.

Lemma parseFields_unquoted (fs : list string) :
  fs <> [] ->
  Forall (fun f => hasChar QUOTE f = false /\ hasChar COMMA f = false) fs ->
  parseFields (String.concat "," fs) "" false = map trim fs.
Proof.
  induction fs as [|f fs IH]; [congruence|]. intros _ Hall.
  inversion Hall as [|? ? [Hq Hc] Hrest]; subst.
  destruct fs as [|g fs].
  - cbn [String.concat map]. rewrite <- (string_app_nil f) at 1.
    now rewrite (parseFields_run f "" "" false Hq (or_intror Hc)).
  - change (String.concat "," (f :: g :: fs))
      with (f ++ String COMMA (String.concat "," (g :: fs)))%string.
    rewrite (parseFields_run f _ "" false Hq (or_intror Hc)).
    rewrite parseFields_comma. cbn [map append]. f_equal.
    apply IH; [discriminate | exact Hrest].
Qed.

Lemma parseFields_quoted (body rest : string) :
  hasChar QUOTE body = false ->
  parseFields (quoted body ++ String COMMA rest) "" false
  = trim body :: parseFields rest "" false.
Proof.
  intro Hq. unfold quoted.
  change (((String QUOTE "" ++ body ++ String QUOTE "") ++ String COMMA rest)%string)
    with (String QUOTE ((body ++ String QUOTE "") ++ String COMMA rest)%string).
  rewrite parseFields_open by (destruct body; discriminate).
  rewrite string_app_assoc.
  rewrite (parseFields_run body _ "" true Hq (or_introl eq_refl)).
  reflexivity.
Qed.

Lemma parseFields_quoted_last (body : string) :
  hasChar QUOTE body = false ->
  parseFields (quoted body) "" false = [trim body].
Proof.
  intro Hq. unfold quoted.
  change ((String QUOTE "" ++ body ++ String QUOTE "")%string)
    with (String QUOTE (body ++ String QUOTE "")%string).
  rewrite parseFields_open by (destruct body; discriminate).
  rewrite (parseFields_run body _ "" true Hq (or_introl eq_refl)).
  reflexivity.
Qed.

Lemma parseFields_escaped (a b : string) :
  hasChar QUOTE a = false -> hasChar QUOTE b = false ->
  parseFields (quoted (a ++ String QUOTE (String QUOTE b))) "" false
  = [trim (a ++ String QUOTE b)].
Proof.
  intros Ha Hb. unfold quoted.
  change ((String QUOTE "" ++ (a ++ String QUOTE (String QUOTE b))
           ++ String QUOTE "")%string)
    with (String QUOTE ((a ++ String QUOTE (String QUOTE b))
                        ++ String QUOTE "")%string).
  rewrite parseFields_open by (destruct a; discriminate).
  rewrite string_app_assoc.
  rewrite (parseFields_run a _ "" true Ha (or_introl eq_refl)).
  change ((String QUOTE (String QUOTE b) ++ String QUOTE "")%string)
    with (String QUOTE (String QUOTE (b ++ String QUOTE "")%string)).
  change (parseFields (String QUOTE (String QUOTE (b ++ String QUOTE "")%string))
            ("" ++ a) true)
    with (parseFields (b ++ String QUOTE "") (("" ++ a) ++ String QUOTE "") true).
  rewrite (parseFields_run b _ _ true Hb (or_introl eq_refl)).
  cbn [parseFields append]. rewrite string_app_snoc. reflexivity.
Qed.

Lemma parseFields_trimmed_upto (n : nat) :
  forall line current inQuotes,
    (String.length line <= n)%nat ->
    parseFields line current inQuotes <> []
    /\ Forall (fun f => trim f = f) (parseFields line current inQuotes).
Proof.
  induction n as [|n IH]; intros line current inQuotes Hlen.
  - destruct line; [|cbn in Hlen; lia]. cbn. split; [discriminate|].
    constructor; [apply trim_idem | constructor].
  - destruct line as [|char rest].
    + cbn. split; [discriminate|]. constructor; [apply trim_idem | constructor].
    + cbn [String.length] in Hlen. cbn [parseFields].
      destruct (Ascii.eqb char QUOTE).
      * destruct rest as [|next rest'].
        -- apply IH. cbn. lia.
        -- destruct (inQuotes && Ascii.eqb next QUOTE).
           ++ apply IH. cbn [String.length] in Hlen. lia.
           ++ apply IH. lia.
      * destruct (Ascii.eqb char COMMA && negb inQuotes).
        -- split; [discriminate|]. constructor; [apply trim_idem|].
           apply IH. lia.
        -- apply IH. lia.
Qed.

(** X25.  The field loop of [parseCsvLines].  A line of fields without
    quotes or commas, joined by commas, parses into those fields trimmed.
    A field in quotes may hold commas: the quotes are dropped and the body
    is kept as one field, still trimmed; two quotes inside stand for one.
    Every line gives at least one field, and every field is trimmed. *)
Theorem parseFields_fields :
  (forall fs : list string,
      fs <> [] ->
      Forall (fun f => hasChar QUOTE f = false /\ hasChar COMMA f = false) fs ->
      parseFields (String.concat "," fs) "" false = map trim fs)
  /\ (forall body : string,
         hasChar QUOTE body = false ->
         parseFields (quoted body) "" false = [trim body]
         /\ forall rest,
              parseFields (quoted body ++ String COMMA rest) "" false
              = trim body :: parseFields rest "" false)
  /\ (forall a b : string,
         hasChar QUOTE a = false -> hasChar QUOTE b = false ->
         parseFields (quoted (a ++ String QUOTE (String QUOTE b))) "" false
         = [trim (a ++ String QUOTE b)])
  /\ (forall line current inQuotes,
         parseFields line current inQuotes <> []
         /\ Forall (fun f => trim f = f) (parseFields line current inQuotes)).
Proof.
  split; [exact parseFields_unquoted|]. split.
  - intros body Hq. split; [now apply parseFields_quoted_last|].
    intro rest. now apply parseFields_quoted.
  - split; [exact parseFields_escaped|].
    intros line current inQuotes.
    apply (parseFields_trimmed_upto (String.length line)). lia.
Qed.

Lemma parseFields_fields_witness :
  parseFields "2024-01-15, Seoul/Gangnam ,11t" "" false
  = map trim ["2024-01-15"; " Seoul/Gangnam "; "11t"]
  /\ parseFields (quoted "850,000" ++ String COMMA "11t") "" false
     = trim "850,000" :: parseFields "11t" "" false.
Proof.
  destruct parseFields_fields as (Hplain & Hquoted & _).
  split.
  - apply (Hplain ["2024-01-15"; " Seoul/Gangnam "; "11t"]); [discriminate|].
    repeat constructor.
  - apply (Hquoted "850,000"). reflexivity.
Defined.

(* ================================================================== *)
(** ** CSV: the lines of a text *)
(* ================================================================== *)

Lemma splitLines_nonempty (text : string) : splitLines text <> [].
Proof.
  destruct text as [|c rest]; cbn [splitLines]; [discriminate|].
  destruct (Ascii.eqb c LF); [discriminate|].
  assert (H : match splitLines rest with
              | [] => [String c ""]
              | line :: lines => String c line :: lines
              end <> []) by (destruct (splitLines rest); discriminate).
  destruct (Ascii.eqb c CR); [|exact H].
  destruct rest as [|c' rest']; [exact H|].
  destruct (Ascii.eqb c' LF); [discriminate | exact H].
Qed.

Lemma splitLines_LF (rest : string) :
  splitLines (String LF rest) = "" :: splitLines rest.
Proof. reflexivity. Qed.

Lemma splitLines_CRLF (rest : string) :
  splitLines (String CR (String LF rest)) = "" :: splitLines rest.
Proof. reflexivity. Qed.

Lemma splitLines_char (c : ascii) (rest : string) :
  Ascii.eqb c LF = false ->
  Ascii.eqb c CR = false ->
  splitLines (String c rest) = consHead c (splitLines rest).
Proof. intros H1 H2. cbn [splitLines]. now rewrite H1, H2. Qed.

Lemma splitLines_CR_char (c' : ascii) (rest : string) :
  Ascii.eqb c' LF = false ->
  splitLines (String CR (String c' rest))
  = consHead CR (splitLines (String c' rest)).
Proof.
  intro H. change (splitLines (String CR (String c' rest)))
    with (if Ascii.eqb c' LF then "" :: splitLines rest
          else consHead CR (splitLines (String c' rest))).
  now rewrite H.
Qed.

Lemma splitLines_CR_end : splitLines (String CR "") = [String CR ""].
Proof. reflexivity. Qed.

(** The shape of a text by its first characters. *)
Lemma text_cases (text : string) :
  text = ""
  \/ (exists rest, text = String LF rest)
  \/ (exists rest, text = String CR (String LF rest))
  \/ text = String CR ""
  \/ (exists c' rest, text = String CR (String c' rest) /\ Ascii.eqb c' LF = false)
  \/ (exists c rest, text = String c rest
                     /\ Ascii.eqb c LF = false /\ Ascii.eqb c CR = false).
Proof.
  destruct text as [|c rest]; [now left|]. right.
  destruct (Ascii.eqb c LF) eqn:E1.
  { apply Ascii.eqb_eq in E1. subst. left. now exists rest. }
  right. destruct (Ascii.eqb c CR) eqn:E2.
  - apply Ascii.eqb_eq in E2. subst. destruct rest as [|c' rest'].
    + right. now left.
    + destruct (Ascii.eqb c' LF) eqn:E3.
      * apply Ascii.eqb_eq in E3. subst. left. now exists rest'.
      * right. right. left. now exists c', rest'.
  - right. right. right. now exists c, rest.
Qed.

Lemma splitLines_head_char (c : ascii) (rest : string) :
  Ascii.eqb c LF = false ->
  (forall rest', c = CR -> rest <> String LF rest') ->
  exists line lines, splitLines (String c rest) = String c line :: lines.
Proof.
  intros H1 H2.
  assert (Hcons : forall L, exists line lines, consHead c L = String c line :: lines).
  { intros [|l ls]; cbn; eauto. }
  destruct (Ascii.eqb c CR) eqn:E2.
  - apply Ascii.eqb_eq in E2. subst c. destruct rest as [|c' rest'].
    + rewrite splitLines_CR_end. eauto.
    + destruct (Ascii.eqb c' LF) eqn:E3.
      * apply Ascii.eqb_eq in E3. subst. exfalso. now apply (H2 rest').
      * rewrite splitLines_CR_char by exact E3. apply Hcons.
  - rewrite splitLines_char by assumption. apply Hcons.
Qed.

Lemma consHead_app (c : ascii) (L M : list string) :
  L <> [] -> consHead c (L ++ M) = consHead c L ++ M.
Proof. destruct L; [congruence | reflexivity]. Qed.

Lemma consHead_joinLines (c : ascii) (L M : list string) :
  L <> [] ->
  (Ascii.eqb c CR = true -> L <> [""]) ->
  consHead c (joinLines L M) = joinLines (consHead c L) M.
Proof.
  intros Hne Hcr. destruct L as [|l [|l' L']]; [congruence| |reflexivity].
  cbn [joinLines consHead]. f_equal.
  destruct l as [|x l]; [|reflexivity].
  cbn [dropCR]. destruct (Ascii.eqb c CR); [|reflexivity].
  exfalso. now apply Hcr.
Qed.

(** A carriage return and line feed separate the lines before them from
    the lines after them. *)
Lemma splitLines_app_CRLF (a b : string) :
  splitLines (a ++ String CR (String LF b)) = splitLines a ++ splitLines b.
Proof.
  induction a as [|c a IH].
  - reflexivity.
  - destruct (text_cases (String c a))
      as [H | [[r H] | [[r H] | [H | [[c' [r [H Hc']]] | [x [r [H [H1 H2]]]]]]]]];
      try discriminate H; injection H as -> ->.
    + change ((String LF r ++ String CR (String LF b))%string)
        with (String LF (r ++ String CR (String LF b))%string).
      rewrite !splitLines_LF, IH. reflexivity.
    + change ((String CR (String LF r) ++ String CR (String LF b))%string)
        with (String CR (String LF (r ++ String CR (String LF b))%string)).
      rewrite !splitLines_CRLF.
      change ((String LF r ++ String CR (String LF b))%string)
        with (String LF (r ++ String CR (String LF b))%string) in IH.
      rewrite !splitLines_LF in IH. exact IH.
    + reflexivity.
    + change ((String CR (String c' r) ++ String CR (String LF b))%string)
        with (String CR (String c' (r ++ String CR (String LF b))%string)).
      rewrite !splitLines_CR_char by exact Hc'.
      change (String c' (r ++ String CR (String LF b))%string)
        with ((String c' r ++ String CR (String LF b))%string).
      rewrite IH. apply consHead_app, splitLines_nonempty.
    + change ((String x r ++ String CR (String LF b))%string)
        with (String x (r ++ String CR (String LF b))%string).
      rewrite !splitLines_char by assumption.
      rewrite IH. apply consHead_app, splitLines_nonempty.
Qed.

Lemma splitLines_single_empty (text : string) :
  splitLines text = [""] -> text = "".
Proof.
  destruct text as [|c rest]; [reflexivity|]. intro H. exfalso.
  destruct (Ascii.eqb c LF) eqn:E1.
  - apply Ascii.eqb_eq in E1. subst. rewrite splitLines_LF in H.
    injection H as H. now apply (splitLines_nonempty rest).
  - destruct (Ascii.eqb c CR) eqn:E2.
    + apply Ascii.eqb_eq in E2. subst. destruct rest as [|c' rest'].
      * discriminate H.
      * destruct (Ascii.eqb c' LF) eqn:E3.
        -- apply Ascii.eqb_eq in E3. subst. rewrite splitLines_CRLF in H.
           injection H as H. now apply (splitLines_nonempty rest').
        -- rewrite splitLines_CR_char in H by exact E3.
           destruct (splitLines (String c' rest')); discriminate H.
    + rewrite splitLines_char in H by assumption.
      destruct (splitLines rest); discriminate H.
Qed.

(** A line feed separates the lines before it from the lines after it and
    takes a carriage return before it along. *)
Lemma splitLines_app_LF (a b : string) :
  splitLines (a ++ String LF b) = joinLines (splitLines a) (splitLines b).
Proof.
  induction a as [|c a IH].
  - reflexivity.
  - destruct (text_cases (String c a))
      as [H | [[r H] | [[r H] | [H | [[c' [r [H Hc']]] | [x [r [H [H1 H2]]]]]]]]];
      try discriminate H; injection H as -> ->.
    + change ((String LF r ++ String LF b)%string)
        with (String LF (r ++ String LF b)%string).
      rewrite !splitLines_LF, IH. cbn [joinLines].
      destruct (splitLines r) eqn:E; [now apply splitLines_nonempty in E|].
      reflexivity.
    + change ((String CR (String LF r) ++ String LF b)%string)
        with (String CR (String LF (r ++ String LF b)%string)).
      rewrite !splitLines_CRLF.
      change ((String LF r ++ String LF b)%string)
        with (String LF (r ++ String LF b)%string) in IH.
      rewrite !splitLines_LF in IH. exact IH.
    + reflexivity.
    + change ((String CR (String c' r) ++ String LF b)%string)
        with (String CR (String c' (r ++ String LF b)%string)).
      rewrite !splitLines_CR_char by exact Hc'.
      change (String c' (r ++ String LF b)%string)
        with ((String c' r ++ String LF b)%string).
      rewrite IH. apply consHead_joinLines; [apply splitLines_nonempty|].
      intros _ Hs. apply splitLines_single_empty in Hs. discriminate Hs.
    + change ((String x r ++ String LF b)%string)
        with (String x (r ++ String LF b)%string).
      rewrite !splitLines_char by assumption.
      rewrite IH. apply consHead_joinLines; [apply splitLines_nonempty|].
      intro Hx. congruence.
Qed.

Lemma trimEnd_dropCR (s : string) : trimEnd (dropCR s) = trimEnd s.
Proof.
  induction s as [|c s IH]; [reflexivity|].
  destruct s as [|c' s'].
  - cbn [dropCR]. destruct (Ascii.eqb c CR) eqn:E; [|reflexivity].
    apply Ascii.eqb_eq in E. subst. reflexivity.
  - change (dropCR (String c (String c' s'))) with (String c (dropCR (String c' s'))).
    cbn [trimEnd]. cbn [trimEnd] in IH. now rewrite IH.
Qed.

Lemma trimStart_dropCR (s : string) : trimStart (dropCR s) = dropCR (trimStart s).
Proof.
  induction s as [|c s IH]; [reflexivity|].
  destruct s as [|c' s'].
  - cbn [dropCR trimStart]. destruct (Ascii.eqb c CR) eqn:E.
    + apply Ascii.eqb_eq in E. subst. reflexivity.
    + cbn [trimStart]. destruct (isSpace c); [reflexivity|].
      cbn [dropCR]. now rewrite E.
  - change (dropCR (String c (String c' s'))) with (String c (dropCR (String c' s'))).
    cbn [trimStart]. destruct (isSpace c); [exact IH | reflexivity].
Qed.

Lemma trim_dropCR (s : string) : trim (dropCR s) = trim s.
Proof. unfold trim. now rewrite trimStart_dropCR, trimEnd_dropCR. Qed.

Lemma lines_joinLines (L M : list string) :
  L <> [] ->
  filter nonEmpty (map trim (joinLines L M))
  = filter nonEmpty (map trim L) ++ filter nonEmpty (map trim M).
Proof.
  induction L as [|l L IH]; [congruence|]. intros _.
  destruct L as [|l' L'].
  - cbn [joinLines map filter]. rewrite trim_dropCR.
    now destruct (nonEmpty (trim l)).
  - change (joinLines (l :: l' :: L') M) with (l :: joinLines (l' :: L') M).
    cbn [map filter]. rewrite IH by discriminate. cbn [map filter].
    now destruct (nonEmpty (trim l)).
Qed.

Lemma parseCsvLines_app_LF (a b : string) :
  parseCsvLines (a ++ String LF b) = parseCsvLines a ++ parseCsvLines b.
Proof.
  unfold parseCsvLines. cbv zeta.
  rewrite splitLines_app_LF, lines_joinLines by apply splitLines_nonempty.
  apply map_app.
Qed.

Lemma parseCsvLines_app_CRLF (a b : string) :
  parseCsvLines (a ++ String CR (String LF b)) = parseCsvLines a ++ parseCsvLines b.
Proof.
  unfold parseCsvLines. cbv zeta.
  rewrite splitLines_app_CRLF, map_app, filter_app. apply map_app.
Qed.

Lemma splitLines_one_line (text : string) :
  hasChar LF text = false -> splitLines text = [text].
Proof.
  induction text as [|c text IH]; [reflexivity|]. cbn [hasChar].
  intro H. apply orb_false_iff in H. destruct H as [Hc Ht].
  specialize (IH Ht).
  destruct (Ascii.eqb c CR) eqn:E.
  - apply Ascii.eqb_eq in E. subst c. destruct text as [|c' text'].
    + reflexivity.
    + cbn [hasChar] in Ht. apply orb_false_iff in Ht. destruct Ht as [Hc' _].
      rewrite splitLines_CR_char by exact Hc'. now rewrite IH.
  - rewrite splitLines_char by assumption. now rewrite IH.
Qed.

(** X26.  The records of a text.  A line feed, with or without a carriage
    return before it, separates the records before it from the records
    after it, so that blank lines count for nothing; a text without line
    feed is one record, or none when it is blank; no record is without
    fields. *)
Theorem parseCsvLines_records :
  forall (a b : string),
    parseCsvLines (a ++ String LF b) = parseCsvLines a ++ parseCsvLines b
    /\ parseCsvLines (a ++ String CR (String LF b))
       = parseCsvLines a ++ parseCsvLines b
    /\ parseCsvLines (a ++ String LF (String LF b))
       = parseCsvLines (a ++ String LF b)
    /\ (hasChar LF a = false ->
        parseCsvLines a
        = if nonEmpty (trim a) then [parseFields (trim a) "" false] else [])
    /\ Forall (fun fields => fields <> []) (parseCsvLines a).
Proof.
  intros a b. split; [apply parseCsvLines_app_LF|].
  split; [apply parseCsvLines_app_CRLF|]. split.
  - rewrite !parseCsvLines_app_LF.
    change (String LF b) with ("" ++ String LF b)%string.
    now rewrite parseCsvLines_app_LF.
  - split.
    + intro H. unfold parseCsvLines. cbv zeta. rewrite (splitLines_one_line a H).
      cbn [map filter]. now destruct (nonEmpty (trim a)).
    + unfold parseCsvLines. cbv zeta. apply Forall_map, Forall_forall.
      intros line _.
      apply (parseFields_trimmed_upto (String.length line)). lia.
Qed.

Lemma parseCsvLines_records_witness :
  parseCsvLines "date,price"
  = if nonEmpty (trim "date,price")
    then [parseFields (trim "date,price") "" false] else [].
Proof.
  destruct (parseCsvLines_records "date,price" "") as (_ & _ & _ & Hone & _).
  apply Hone. reflexivity.
Defined.

(* ================================================================== *)
(** ** CSV: headers *)
(* ================================================================== *)

Lemma isLowerAlnum_not_space (c : ascii) :
  isLowerAlnum c = true -> isSpace c = false.
Proof.
  destruct c as [[] [] [] [] [] [] [] []]; vm_compute; intro H;
    (reflexivity || discriminate H).
Qed.

Lemma isLowerAlnum_lower (c : ascii) :
  isLowerAlnum c = true -> lowerChar c = c.
Proof.
  destruct c as [[] [] [] [] [] [] [] []]; vm_compute; intro H;
    (reflexivity || discriminate H).
Qed.

Lemma keepLowerAlnum_all (s : string) :
  allChars isLowerAlnum (keepLowerAlnum s) = true.
Proof.
  induction s as [|c s IH]; [reflexivity|]. cbn [keepLowerAlnum].
  destruct (isLowerAlnum c) eqn:E; [|exact IH]. cbn. now rewrite E.
Qed.

Lemma keepLowerAlnum_fixed (s : string) :
  allChars isLowerAlnum s = true -> keepLowerAlnum s = s.
Proof.
  induction s as [|c s IH]; [reflexivity|]. cbn. intro H.
  apply andb_true_iff in H. destruct H as [Hc Hs]. now rewrite Hc, IH.
Qed.

Lemma toLowerCase_fixed (s : string) :
  allChars isLowerAlnum s = true -> toLowerCase s = s.
Proof.
  induction s as [|c s IH]; [reflexivity|]. cbn [allChars toLowerCase]. intro H.
  apply andb_true_iff in H. destruct H as [Hc Hs].
  now rewrite (isLowerAlnum_lower c Hc), IH.
Qed.

Lemma trimEnd_alnum (s : string) :
  allChars isLowerAlnum s = true -> trimEnd s = s.
Proof.
  induction s as [|c s IH]; [reflexivity|]. cbn [allChars trimEnd]. intro H.
  apply andb_true_iff in H. destruct H as [Hc Hs]. rewrite (IH Hs).
  destruct s; [|reflexivity]. now rewrite (isLowerAlnum_not_space c Hc).
Qed.

Lemma trim_alnum (s : string) :
  allChars isLowerAlnum s = true -> trim s = s.
Proof.
  intro H. unfold trim.
  assert (Hs : trimStart s = s).
  { destruct s as [|c s]; [reflexivity|]. cbn in H |- *.
    apply andb_true_iff in H. destruct H as [Hc _].
    now rewrite (isLowerAlnum_not_space c Hc). }
  rewrite Hs. now apply trimEnd_alnum.
Qed.

Lemma normalizeHeader_unfold (header : string) :
  normalizeHeader header = keepLowerAlnum (toLowerCase header).
Proof. unfold normalizeHeader. apply trim_alnum, keepLowerAlnum_all. Qed.

Lemma keepLowerAlnum_app (a b : string) :
  keepLowerAlnum (a ++ b) = (keepLowerAlnum a ++ keepLowerAlnum b)%string.
Proof.
  induction a as [|c a IH]; [reflexivity|]. cbn.
  destruct (isLowerAlnum c); [cbn; now rewrite IH | exact IH].
Qed.

Lemma normalizeHeader_app (a b : string) :
  normalizeHeader (a ++ b) = (normalizeHeader a ++ normalizeHeader b)%string.
Proof.
  rewrite !normalizeHeader_unfold, toLowerCase_app. apply keepLowerAlnum_app.
Qed.

(** X27.  Of an ASCII header the normalised form holds lower-case letters
    and digits only: it is the header in lower case without any other
    character, so that case, spaces and punctuation make no difference;
    normalising is idempotent and distributes over concatenation. *)
Theorem normalizeHeader_alnum :
  forall (header : string),
    allChars isAscii header = true ->
    normalizeHeader header = keepLowerAlnum (toLowerCase header)
    /\ allChars isLowerAlnum (normalizeHeader header) = true
    /\ normalizeHeader (normalizeHeader header) = normalizeHeader header
    /\ normalizeHeader (toLowerCase header) = normalizeHeader header
    /\ (forall a b,
           header = (a ++ b)%string ->
           normalizeHeader header
           = (normalizeHeader a ++ normalizeHeader b)%string)
    /\ (forall c a b,
           header = (a ++ String c b)%string ->
           isLowerAlnum (lowerChar c) = false ->
           normalizeHeader header = normalizeHeader (a ++ b)).
Proof.
  intros header _.
  assert (Hall : allChars isLowerAlnum (normalizeHeader header) = true).
  { rewrite normalizeHeader_unfold. apply keepLowerAlnum_all. }
  split; [apply normalizeHeader_unfold|]. split; [exact Hall|]. split.
  - rewrite (normalizeHeader_unfold (normalizeHeader header)).
    now rewrite (toLowerCase_fixed _ Hall), (keepLowerAlnum_fixed _ Hall).
  - split.
    + now rewrite !normalizeHeader_unfold, toLowerCase_idem.
    + split; [intros a b ->; apply normalizeHeader_app|].
      intros c a b -> Hc. rewrite !normalizeHeader_app. f_equal.
      rewrite !normalizeHeader_unfold. cbn [toLowerCase keepLowerAlnum].
      now rewrite Hc.
Qed.

Lemma normalizeHeader_alnum_witness :
  normalizeHeader ("Unit" ++ String " " "Price") = normalizeHeader ("Unit" ++ "Price").
Proof.
  destruct (normalizeHeader_alnum ("Unit" ++ String " " "Price")
              ltac:(reflexivity)) as (_ & _ & _ & _ & _ & Hdrop).
  apply (Hdrop " "%char "Unit" "Price"); reflexivity.
Defined.

Lemma StronglySorted_snoc {A} (R : A -> A -> Prop) (xs : list A) (x : A) :
  StronglySorted R xs -> Forall (fun y => R y x) xs ->
  StronglySorted R (xs ++ [x]).
Proof.
  induction 1 as [|a xs Hs IH Ha]; intro Hall; cbn.
  - repeat constructor.
  - inversion Hall; subst. constructor; [now apply IH|].
    apply Forall_app. split; [exact Ha | now repeat constructor].
Qed.

Section MapHeadersProofs.

Variable T : Type.
Variable T_eqb : T -> T -> bool.
Hypothesis T_eqb_spec : forall a b, T_eqb a b = true <-> a = b.
Variable mapping : list (string * T).

Lemma hasField_In (field : T) (foundFields : list T) :
  hasField T_eqb field foundFields = true <-> In field foundFields.
Proof.
  unfold hasField. rewrite existsb_exists. split.
  - intros [x [Hin Heq]]. apply T_eqb_spec in Heq. now subst.
  - intro Hin. exists field. split; [exact Hin | now apply T_eqb_spec].
Qed.

Lemma headersInvariant_step (done : list string) (columnMap : list (nat * T))
    (foundFields : list T) (header : string) :
  headersInvariant mapping done columnMap foundFields ->
  let next :=
    match fieldOf mapping header with
    | Some field =>
        if hasField T_eqb field foundFields then (columnMap, foundFields)
        else (columnMap ++ [(List.length done, field)], foundFields ++ [field])
    | None => (columnMap, foundFields)
    end in
  headersInvariant mapping (done ++ [header]) (fst next) (snd next).
Proof.
  intros (Hff & Hnd & Hsorted & Hentries & Hfound) next.
  assert (Hold : forall i f, In (i, f) columnMap ->
            exists h, nth_error (done ++ [header]) i = Some h
                      /\ fieldOf mapping h = Some f
                      /\ forall j h', (j < i)%nat ->
                                      nth_error (done ++ [header]) j = Some h' ->
                                      fieldOf mapping h' <> Some f).
  { intros i f Hin. destruct (Hentries i f Hin) as [h [Hnth [Hf Hfirst]]].
    assert (Hi : (i < List.length done)%nat)
      by (apply nth_error_Some; congruence).
    exists h. split; [now rewrite nth_error_app1|]. split; [exact Hf|].
    intros j h' Hj Hnth'. rewrite nth_error_app1 in Hnth' by lia.
    now apply (Hfirst j h'). }
  assert (Hkeep : forall found,
            (forall f, In f foundFields -> In f found) ->
            (forall f, fieldOf mapping header = Some f -> In f found) ->
            forall h f, In h (done ++ [header]) -> fieldOf mapping h = Some f ->
                        In f found).
  { intros found Hsub Hnew h f Hin Hf. apply in_app_or in Hin.
    destruct Hin as [Hin | [<- | []]]; [apply Hsub, (Hfound h f Hin Hf)|].
    now apply Hnew. }
  subst next. destruct (fieldOf mapping header) as [field|] eqn:Efield.
  - destruct (hasField T_eqb field foundFields) eqn:Ehas; cbn [fst snd].
    + apply hasField_In in Ehas.
      repeat split; try assumption.
      apply Hkeep; [auto|]. intros f Hf. injection Hf as <-. exact Ehas.
    + assert (Hnot : ~ In field foundFields).
      { intro Hin. apply hasField_In in Hin. congruence. }
      split; [rewrite map_app, Hff; reflexivity|].
      split.
      { apply NoDup_app_remove_l with (l := []). cbn.
        apply (Permutation_NoDup (l := field :: foundFields)).
        - apply Permutation_cons_append.
        - now constructor. }
      split.
      { rewrite map_app. cbn [map fst]. apply StronglySorted_snoc; [exact Hsorted|].
        apply Forall_forall. intros i Hi. apply in_map_iff in Hi.
        destruct Hi as [[i' f] [<- Hin]]. cbn [fst].
        destruct (Hentries i' f Hin) as [h [Hnth _]].
        apply nth_error_Some. congruence. }
      split.
      { intros i f Hin. apply in_app_or in Hin.
        destruct Hin as [Hin | [Heq | []]]; [now apply Hold|].
        injection Heq as <- <-. exists header.
        split; [now rewrite nth_error_app2, Nat.sub_diag by lia|].
        split; [exact Efield|].
        intros j h' Hj Hnth' Hf'. rewrite nth_error_app1 in Hnth' by lia.
        apply Hnot. apply (Hfound h' field); [|exact Hf'].
        now apply nth_error_In with (n := j). }
      apply Hkeep.
      * intros f Hin. apply in_or_app. now left.
      * intros f Hf. injection Hf as <-. apply in_or_app. right. now left.
  - cbn [fst snd]. repeat split; try assumption.
    apply Hkeep; [auto | discriminate].
Qed.

Lemma mapHeadersLoop_invariant (rest done : list string)
    (columnMap : list (nat * T)) (foundFields : list T) :
  headersInvariant mapping done columnMap foundFields ->
  let result :=
    mapHeadersLoop T_eqb mapping rest (List.length done) columnMap foundFields in
  headersInvariant mapping (done ++ rest) (fst result) (snd result).
Proof.
  revert done columnMap foundFields.
  induction rest as [|header rest IH]; intros done columnMap foundFields Hinv.
  - cbn. now rewrite app_nil_r.
  - pose proof (headersInvariant_step done columnMap foundFields header Hinv)
      as Hstep. cbv zeta in Hstep.
    cbn [mapHeadersLoop]. fold (fieldOf mapping header).
    replace (done ++ header :: rest) with ((done ++ [header]) ++ rest)
      by (now rewrite <- app_assoc).
    replace (S (List.length done)) with (List.length (done ++ [header]))
      by (rewrite length_app; cbn; lia).
    destruct (fieldOf mapping header) as [field|].
    + destruct (hasField T_eqb field foundFields); now apply IH.
    + now apply IH.
Qed.

Lemma mapHeaders_invariant (rawHeaders : list string) (requiredFields : list T) :
  let result := mapHeaders T_eqb rawHeaders mapping requiredFields in
  headersInvariant mapping rawHeaders (fst result) (map snd (fst result))
  /\ forall f, In f (snd result)
               <-> In f requiredFields /\ ~ In f (map snd (fst result)).
Proof.
  unfold mapHeaders.
  pose proof (mapHeadersLoop_invariant rawHeaders [] [] []) as H.
  cbn [List.length app] in H. cbv zeta in H.
  destruct (mapHeadersLoop T_eqb mapping rawHeaders 0 [] []) as [cm ff].
  cbn [fst snd] in *.
  assert (Hinv : headersInvariant mapping rawHeaders cm ff).
  { apply H. repeat split; try constructor.
    - intros i f [].
    - intros h f []. }
  assert (Hff : ff = map snd cm) by apply Hinv.
  rewrite <- Hff. split; [exact Hinv|].
  intro f. rewrite filter_In, negb_true_iff.
  split; intros [Hreq Hn]; (split; [exact Hreq|]).
  - intro Hin. apply hasField_In in Hin. congruence.
  - destruct (hasField T_eqb f ff) eqn:E; [|reflexivity].
    apply hasField_In in E. contradiction.
Qed.

End MapHeadersProofs.

Lemma MarketDataField_eqb_spec (a b : MarketDataField.t) :
  MarketDataField.eqb a b = true <-> a = b.
Proof. destruct a, b; cbn; split; congruence. Qed.

Lemma CostMasterField_eqb_spec (a b : CostMasterField.t) :
  CostMasterField.eqb a b = true <-> a = b.
Proof. destruct a, b; cbn; split; congruence. Qed.

(** X28.  [mapHeaders] gives each field the first column whose header
    stands for it.  When the field equality decides equality: every entry
    of the column map is a column whose header stands for the entry's
    field while no column before it does; every header that stands for a
    field has that field in the map; no field occurs twice, and the columns
    are listed in increasing order; the missing fields are the required
    fields no header stands for. *)
Theorem mapHeaders_first_column_wins :
  forall (T : Type) (T_eqb : T -> T -> bool),
    (forall a b, T_eqb a b = true <-> a = b) ->
    forall (rawHeaders : list string) (mapping : list (string * T))
           (requiredFields : list T),
      let columnMap := fst (mapHeaders T_eqb rawHeaders mapping requiredFields) in
      let missing := snd (mapHeaders T_eqb rawHeaders mapping requiredFields) in
      (forall i f, In (i, f) columnMap ->
          exists h, nth_error rawHeaders i = Some h
                    /\ fieldOf mapping h = Some f
                    /\ forall j h', (j < i)%nat -> nth_error rawHeaders j = Some h' ->
                                    fieldOf mapping h' <> Some f)
      /\ (forall h f, In h rawHeaders -> fieldOf mapping h = Some f ->
                      In f (map snd columnMap))
      /\ NoDup (map snd columnMap)
      /\ StronglySorted lt (map fst columnMap)
      /\ (forall f, In f missing
                    <-> In f requiredFields
                        /\ forall h, In h rawHeaders -> fieldOf mapping h <> Some f).
Proof.
  intros T T_eqb Hspec rawHeaders mapping requiredFields columnMap missing.
  destruct (mapHeaders_invariant T T_eqb Hspec mapping rawHeaders requiredFields)
    as [(_ & Hnd & Hsorted & Hentries & Hfound) Hmissing].
  fold columnMap in Hnd, Hsorted, Hentries, Hfound, Hmissing.
  fold missing in Hmissing.
  split; [exact Hentries|]. split; [exact Hfound|]. split; [exact Hnd|].
  split; [exact Hsorted|].
  intro f. rewrite Hmissing. split; intros [Hreq Hn]; (split; [exact Hreq|]).
  - intros h Hin Hf. apply Hn. now apply (Hfound h f).
  - intro Hin. apply in_map_iff in Hin. destruct Hin as [[i f'] [Heq Hin]].
    cbn in Heq. subst f'. destruct (Hentries i f Hin) as [h [Hnth [Hf _]]].
    apply (Hn h); [now apply nth_error_In with (n := i) | exact Hf].
Qed.

Lemma mapHeaders_first_column_wins_witness :
  NoDup (map snd (fst (mapHeaders MarketDataField.eqb
                         ["Date"; "Price"; "Unit Price"; "Origin"]
                         MARKET_DATA_HEADERS MARKET_REQUIRED))).
Proof.
  destruct (mapHeaders_first_column_wins MarketDataField.t MarketDataField.eqb
              MarketDataField_eqb_spec ["Date"; "Price"; "Unit Price"; "Origin"]
              MARKET_DATA_HEADERS MARKET_REQUIRED) as (_ & _ & Hnd & _).
  exact Hnd.
Defined.

(* ================================================================== *)
(** ** CSV: the import of rows *)
(* ================================================================== *)

Lemma falsy_false (s : option string) : falsy s = false -> present s.
Proof.
  destruct s as [[|c s]|]; cbn; try discriminate. intros _.
  eexists. split; [reflexivity | discriminate].
Qed.

Lemma importRows_spec {A} (validate : list string -> nat -> A + string)
    (rows : list (list string)) :
  forall (idx : nat) (data : list A) (errors : list string),
    let result := importRows validate rows idx data errors in
    (List.length (fst result) + List.length (snd result)
     = List.length data + List.length errors + List.length rows)%nat
    /\ (forall row, In row (fst result) ->
          In row data
          \/ exists i fields, nth_error rows i = Some fields
                              /\ validate fields (idx + i)%nat = inl row)
    /\ (forall message, In message (snd result) ->
          In message errors
          \/ exists i fields, nth_error rows i = Some fields
                              /\ validate fields (idx + i)%nat = inr message).
Proof.
  induction rows as [|fields rows IH]; intros idx data errors.
  - cbn. split; [lia|]. split; intros; now left.
  - cbn [importRows]. destruct (validate fields idx) as [row|message] eqn:E.
    + destruct (IH (S idx) (data ++ [row]) errors) as (Hlen & Hdata & Herr).
      cbv zeta. split; [|split].
      * rewrite Hlen, length_app. cbn. lia.
      * intros r Hr. destruct (Hdata r Hr) as [Hin | [i [f [Hnth Hv]]]].
        -- apply in_app_or in Hin. destruct Hin as [Hin | [<- | []]];
             [now left|].
           right. exists 0%nat, fields. split; [reflexivity|].
           now rewrite Nat.add_0_r.
        -- right. exists (S i), f. split; [exact Hnth|].
           now rewrite Nat.add_succ_r.
      * intros m Hm. destruct (Herr m Hm) as [Hin | [i [f [Hnth Hv]]]];
          [now left|].
        right. exists (S i), f. split; [exact Hnth|].
        now rewrite Nat.add_succ_r.
    + destruct (IH (S idx) data (errors ++ [message])) as (Hlen & Hdata & Herr).
      cbv zeta. split; [|split].
      * rewrite Hlen, length_app. cbn. lia.
      * intros r Hr. destruct (Hdata r Hr) as [Hin | [i [f [Hnth Hv]]]];
          [now left|].
        right. exists (S i), f. split; [exact Hnth|].
        now rewrite Nat.add_succ_r.
      * intros m Hm. destruct (Herr m Hm) as [Hin | [i [f [Hnth Hv]]]].
        -- apply in_app_or in Hin. destruct Hin as [Hin | [<- | []]];
             [now left|].
           right. exists 0%nat, fields. split; [reflexivity|].
           now rewrite Nat.add_0_r.
        -- right. exists (S i), f. split; [exact Hnth|].
           now rewrite Nat.add_succ_r.
Qed.

Lemma importRows_accounted {A} (validate : list string -> nat -> A + string)
    (valid : A -> Prop) (read : list string -> A) :
  (forall fields idx row,
      validate fields idx = inl row -> row = read fields /\ valid row) ->
  (forall fields idx message,
      validate fields idx = inr message ->
      rowMessage (idx + 2) message /\ ~ valid (read fields)) ->
  forall (rows : list (list string)) (idx : nat) (data : list A)
         (errors : list string),
  exists accepted rejected,
    importRows validate rows idx data errors
    = (data ++ accepted, errors ++ rejected)
    /\ accounted valid read rows idx accepted rejected.
Proof.
  intros Hinl Hinr. induction rows as [|fields rows IH]; intros idx data errors.
  - exists [], []. cbn. now rewrite !app_nil_r.
  - cbn [importRows accounted].
    destruct (validate fields idx) as [row|message] eqn:E.
    + destruct (Hinl _ _ _ E) as [-> Hvalid].
      destruct (IH (S idx) (data ++ [read fields]) errors)
        as [accepted [rejected [Heq Hacc]]].
      exists (read fields :: accepted), rejected. split.
      * rewrite Heq, <- app_assoc. reflexivity.
      * left. split; [exact Hvalid|]. now exists accepted.
    + destruct (Hinr _ _ _ E) as [Hmsg Hinvalid].
      destruct (IH (S idx) data (errors ++ [message]))
        as [accepted [rejected [Heq Hacc]]].
      exists accepted, (message :: rejected). split.
      * rewrite Heq, <- app_assoc. reflexivity.
      * right. split; [exact Hinvalid|]. now exists message, rejected.
Qed.

(** An import whose validation accepts the valid rows as [read] and
    numbers the messages of the others is [imported]. *)
Lemma importRows_imported {A} (validate : list string -> nat -> A + string)
    (valid : A -> Prop) (read : list string -> A) (headerRow : list string)
    (dataRows : list (list string)) :
  (forall fields idx row,
      validate fields idx = inl row -> row = read fields /\ valid row) ->
  (forall fields idx message,
      validate fields idx = inr message ->
      rowMessage (idx + 2) message /\ ~ valid (read fields)) ->
  imported valid read (headerRow :: dataRows)
    (ParseResult.mk (fst (importRows validate dataRows 0 [] []))
       (snd (importRows validate dataRows 0 [] []))
       (List.length dataRows)).
Proof.
  intros Hinl Hinr.
  destruct (importRows_spec validate dataRows 0 [] []) as (Hlen & _ & _).
  cbv zeta in Hlen.
  destruct (importRows_accounted validate valid read Hinl Hinr dataRows 0 [] [])
    as [accepted [rejected [Heq Hacc]]].
  unfold imported.
  cbn [ParseResult.data ParseResult.errors ParseResult.totalRows List.length tl].
  split; [reflexivity|]. split; [exact Hlen|].
  rewrite Heq. exact Hacc.
Qed.

Lemma present_falsy (s : option string) : present s -> falsy s = false.
Proof.
  intros [v [-> Hne]]. destruct v; [contradiction | reflexivity].
Qed.

Section CsvImportProofs.

Variable parseFloat : string -> option Q.
Variable isValidDate : string -> bool.

Lemma validateMarketRow_inl (columnMap : list (nat * MarketDataField.t))
    (fields : list string) (idx : nat) (row : MarketDataRow.t) :
  validateMarketRow parseFloat isValidDate columnMap fields idx = inl row ->
  row = readMarketRow parseFloat columnMap fields
  /\ validMarketRow isValidDate row.
Proof.
  unfold validateMarketRow. cbv zeta.
  set (r := readMarketRow parseFloat columnMap fields).
  destruct (falsy (MarketDataRow.date r)) eqn:Edate; [discriminate|].
  destruct (isValidDate (shown (MarketDataRow.date r))) eqn:Evalid;
    [|discriminate].
  destruct (falsy (MarketDataRow.origin r)) eqn:Eo; [discriminate|].
  destruct (falsy (MarketDataRow.destination r)) eqn:Ed; [discriminate|].
  destruct (falsy (MarketDataRow.vehicleType r)) eqn:Ev; [discriminate|].
  destruct (notPositive (MarketDataRow.unitPrice r)) eqn:Ep; [discriminate|].
  cbn. intro H. injection H as <-. split; [reflexivity|].
  unfold validMarketRow. split.
  - destruct (falsy_false _ Edate) as [d [Hd Hne]]. exists d.
    rewrite Hd in Evalid. cbn in Evalid. now repeat split.
  - split; [now apply falsy_false|]. split; [now apply falsy_false|].
    split; [now apply falsy_false|].
    destruct (MarketDataRow.unitPrice r) as [price|]; [|discriminate].
    exists price. split; [reflexivity|]. cbn in Ep.
    now apply Qle_bool_false in Ep.
Qed.

Lemma validateMarketRow_inr (columnMap : list (nat * MarketDataField.t))
    (fields : list string) (idx : nat) (message : string) :
  validateMarketRow parseFloat isValidDate columnMap fields idx = inr message ->
  rowMessage (idx + 2) message.
Proof.
  unfold validateMarketRow, rowMessage. cbv zeta.
  set (r := readMarketRow parseFloat columnMap fields).
  destruct (falsy (MarketDataRow.date r) || _);
    [intro H; injection H as <-; eexists; reflexivity|].
  destruct (falsy (MarketDataRow.origin r) || _);
    [intro H; injection H as <-; eexists; reflexivity|].
  destruct (falsy (MarketDataRow.vehicleType r));
    [intro H; injection H as <-; eexists; reflexivity|].
  destruct (notPositive (MarketDataRow.unitPrice r));
    [intro H; injection H as <-; eexists; reflexivity | discriminate].
Qed.

Lemma validateMarketRow_valid (columnMap : list (nat * MarketDataField.t))
    (fields : list string) (idx : nat) :
  validMarketRow isValidDate (readMarketRow parseFloat columnMap fields) ->
  validateMarketRow parseFloat isValidDate columnMap fields idx
  = inl (readMarketRow parseFloat columnMap fields).
Proof.
  unfold validateMarketRow. cbv zeta.
  set (r := readMarketRow parseFloat columnMap fields).
  intros ([d [Hd [Hne Hvalid]]] & Ho & Hde & Hv & [price [Hp Hpos]]).
  rewrite (present_falsy _ Ho), (present_falsy _ Hde), (present_falsy _ Hv).
  rewrite Hd, Hp. cbn [shown notPositive orb].
  rewrite Hvalid. destruct d; [contradiction|]. cbn [falsy negb orb].
  replace (Qle_bool price 0) with false; [reflexivity|].
  symmetry. apply not_true_is_false. intro H. apply Qle_bool_iff in H. lra.
Qed.

Lemma validateMarketRow_invalid (columnMap : list (nat * MarketDataField.t))
    (fields : list string) (idx : nat) (message : string) :
  validateMarketRow parseFloat isValidDate columnMap fields idx = inr message ->
  ~ validMarketRow isValidDate (readMarketRow parseFloat columnMap fields).
Proof.
  intros H Hvalid.
  rewrite (validateMarketRow_valid columnMap fields idx Hvalid) in H.
  discriminate H.
Qed.

Lemma validateCostRow_inl (columnMap : list (nat * CostMasterField.t))
    (fields : list string) (idx : nat) (row : CostMasterRow.t) :
  validateCostRow parseFloat columnMap fields idx = inl row ->
  row = readCostRow parseFloat columnMap fields /\ validCostRow row.
Proof.
  unfold validateCostRow. cbv zeta.
  set (r := readCostRow parseFloat columnMap fields).
  destruct (falsy (CostMasterRow.category r)) eqn:Ecat; [discriminate|].
  destruct (isValidCategory (CostMasterRow.category r)) eqn:Evalid;
    [|discriminate].
  destruct (falsy (CostMasterRow.item r)) eqn:Ei; [discriminate|].
  destruct (isNaN (CostMasterRow.value r)) eqn:Ev; [discriminate|].
  destruct (falsy (CostMasterRow.unit r)) eqn:Eu; [discriminate|].
  cbn. intro H. injection H as <-. split; [reflexivity|].
  unfold validCostRow. split.
  - destruct (CostMasterRow.category r) as [c|]; [|discriminate].
    exists c. split; [reflexivity|]. unfold isValidCategory in Evalid.
    apply existsb_exists in Evalid. destruct Evalid as [x [Hin Heq]].
    apply String.eqb_eq in Heq. now subst.
  - split; [now apply falsy_false|]. split; [|now apply falsy_false].
    destruct (CostMasterRow.value r) as [v|]; [now exists v | discriminate].
Qed.

Lemma validateCostRow_inr (columnMap : list (nat * CostMasterField.t))
    (fields : list string) (idx : nat) (message : string) :
  validateCostRow parseFloat columnMap fields idx = inr message ->
  rowMessage (idx + 2) message.
Proof.
  unfold validateCostRow, rowMessage. cbv zeta.
  set (r := readCostRow parseFloat columnMap fields).
  destruct (falsy (CostMasterRow.category r) || _);
    [intro H; injection H as <-; eexists; reflexivity|].
  destruct (falsy (CostMasterRow.item r));
    [intro H; injection H as <-; eexists; reflexivity|].
  destruct (isNaN (CostMasterRow.value r));
    [intro H; injection H as <-; eexists; reflexivity|].
  destruct (falsy (CostMasterRow.unit r));
    [intro H; injection H as <-; eexists; reflexivity | discriminate].
Qed.

Lemma validateCostRow_valid (columnMap : list (nat * CostMasterField.t))
    (fields : list string) (idx : nat) :
  validCostRow (readCostRow parseFloat columnMap fields) ->
  validateCostRow parseFloat columnMap fields idx
  = inl (readCostRow parseFloat columnMap fields).
Proof.
  unfold validateCostRow. cbv zeta.
  set (r := readCostRow parseFloat columnMap fields).
  intros ([c [Hc Hin]] & Hi & [v Hv] & Hu).
  rewrite (present_falsy _ Hi), (present_falsy _ Hu), Hc, Hv.
  assert (Hcat : falsy (Some c) || negb (isValidCategory (Some c)) = false).
  { cbn in Hin.
    repeat (destruct Hin as [<- | Hin]; [reflexivity|]). destruct Hin. }
  now rewrite Hcat.
Qed.

Lemma validateCostRow_invalid (columnMap : list (nat * CostMasterField.t))
    (fields : list string) (idx : nat) (message : string) :
  validateCostRow parseFloat columnMap fields idx = inr message ->
  ~ validCostRow (readCostRow parseFloat columnMap fields).
Proof.
  intros H Hvalid.
  rewrite (validateCostRow_valid columnMap fields idx Hvalid) in H.
  discriminate H.
Qed.

End CsvImportProofs.

(** X29.  Of an ASCII text, [parseMarketDataCsv] either refuses the file
    with a single message and no rows, which it does exactly when the text
    has fewer than two records (the message is then that the file is
    empty) or the header lacks a required column, or accounts for every
    record after the header in file order: a row with a valid date, an
    origin, a destination, a vehicle type and a positive price is the next
    accepted row, read off its record by the column map of the header, and
    any other row gives the next message, which bears the number of the
    row in the file; the accepted and the rejected rows add up to
    [totalRows]. *)
Theorem parseMarketDataCsv_accounts :
  forall (parseFloat : string -> option Q) (isValidDate : string -> bool)
         (text : string),
    allChars isAscii text = true ->
    let result := parseMarketDataCsv parseFloat isValidDate text in
    let records := parseCsvLines text in
    let headers :=
      mapHeaders MarketDataField.eqb (hd [] records) MARKET_DATA_HEADERS
        MARKET_REQUIRED in
    (refused result
     \/ imported (validMarketRow isValidDate)
          (readMarketRow parseFloat (fst headers)) records result)
    /\ (refused result <-> (List.length records < 2)%nat \/ snd headers <> [])
    /\ ((List.length records < 2)%nat ->
        result = ParseResult.mk [] [EMPTY_CSV_ERROR] 0)
    /\ (forall row, In row (ParseResult.data result) ->
                    validMarketRow isValidDate row).
Proof.
  intros parseFloat isValidDate text _ result records headers.
  subst result headers. unfold parseMarketDataCsv. fold records.
  destruct records as [|headerRow [|first dataRows]].
  - split; [left; now repeat split|].
    split; [split; [intros _; left; cbn; lia | intros _; now repeat split]|].
    split; [reflexivity | intros row []].
  - split; [left; now repeat split|].
    split; [split; [intros _; left; cbn; lia | intros _; now repeat split]|].
    split; [reflexivity | intros row []].
  - cbn [hd]. set (rows := first :: dataRows).
    destruct (mapHeaders MarketDataField.eqb headerRow MARKET_DATA_HEADERS
                MARKET_REQUIRED) as [columnMap missing].
    cbn [fst snd]. destruct missing as [|m ms].
    + pose proof (importRows_imported
                    (validateMarketRow parseFloat isValidDate columnMap)
                    (validMarketRow isValidDate)
                    (readMarketRow parseFloat columnMap) headerRow rows) as Himp.
      pose proof (importRows_spec
                    (validateMarketRow parseFloat isValidDate columnMap)
                    rows 0 [] []) as (_ & Hdata & _).
      cbv zeta in Hdata.
      destruct (importRows _ rows 0 [] []) as [data errors].
      cbn [fst snd] in Himp, Hdata. split; [|split; [|split]].
      * right. apply Himp.
        -- intros f i row H. now apply validateMarketRow_inl in H.
        -- intros f i msg H. split;
             [now apply validateMarketRow_inr in H
             | now apply validateMarketRow_invalid in H].
      * split.
        -- intros (_ & Htotal & _). cbn in Htotal. discriminate Htotal.
        -- intros [H | H]; [cbn in H; lia | contradiction].
      * cbn. lia.
      * cbn [ParseResult.data]. intros row Hrow.
        destruct (Hdata row Hrow) as [[] | [i [f [_ Hv]]]].
        now apply validateMarketRow_inl in Hv.
    + split; [left; now repeat split|].
      split; [split; [intros _; right; discriminate | intros _; now repeat split]|].
      split; [cbn; lia | intros row []].
Qed.

Lemma parseMarketDataCsv_accounts_witness :
  imported (validMarketRow (fun _ => true))
    (readMarketRow sampleParseFloat
       (fst (mapHeaders MarketDataField.eqb (hd [] (parseCsvLines sampleCsv))
               MARKET_DATA_HEADERS MARKET_REQUIRED)))
    (parseCsvLines sampleCsv)
    (parseMarketDataCsv sampleParseFloat (fun _ => true) sampleCsv).
Proof.
  destruct (parseMarketDataCsv_accounts sampleParseFloat (fun _ => true)
              sampleCsv ltac:(reflexivity)) as ([Hrefused | Himported] & _).
  - destruct Hrefused as [Hdata _]. vm_compute in Hdata. discriminate Hdata.
  - exact Himported.
Defined.

(** X30.  Of an ASCII text, [parseCostMasterCsv] either refuses the file
    with a single message and no rows, which it does exactly when the text
    has fewer than two records or the header lacks a required column, or
    accounts for every record after the header in file order: a row with
    one of the four categories, an item, a numeric value and a unit is the
    next accepted row, read off its record by the column map of the
    header, and any other row gives the next message, which bears the
    number of the row in the file; the accepted and the rejected rows add
    up to [totalRows]. *)
Theorem parseCostMasterCsv_accounts :
  forall (parseFloat : string -> option Q) (text : string),
    allChars isAscii text = true ->
    let result := parseCostMasterCsv parseFloat text in
    let records := parseCsvLines text in
    let headers :=
      mapHeaders CostMasterField.eqb (hd [] records) COST_MASTER_HEADERS
        COST_REQUIRED in
    (refused result
     \/ imported validCostRow (readCostRow parseFloat (fst headers)) records
          result)
    /\ (refused result <-> (List.length records < 2)%nat \/ snd headers <> [])
    /\ ((List.length records < 2)%nat ->
        result = ParseResult.mk [] [EMPTY_CSV_ERROR] 0)
    /\ (forall row, In row (ParseResult.data result) -> validCostRow row).
Proof.
  intros parseFloat text _ result records headers.
  subst result headers. unfold parseCostMasterCsv. fold records.
  destruct records as [|headerRow [|first dataRows]].
  - split; [left; now repeat split|].
    split; [split; [intros _; left; cbn; lia | intros _; now repeat split]|].
    split; [reflexivity | intros row []].
  - split; [left; now repeat split|].
    split; [split; [intros _; left; cbn; lia | intros _; now repeat split]|].
    split; [reflexivity | intros row []].
  - cbn [hd]. set (rows := first :: dataRows).
    destruct (mapHeaders CostMasterField.eqb headerRow COST_MASTER_HEADERS
                COST_REQUIRED) as [columnMap missing].
    cbn [fst snd]. destruct missing as [|m ms].
    + pose proof (importRows_imported
                    (validateCostRow parseFloat columnMap) validCostRow
                    (readCostRow parseFloat columnMap) headerRow rows) as Himp.
      pose proof (importRows_spec
                    (validateCostRow parseFloat columnMap)
                    rows 0 [] []) as (_ & Hdata & _).
      cbv zeta in Hdata.
      destruct (importRows _ rows 0 [] []) as [data errors].
      cbn [fst snd] in Himp, Hdata. split; [|split; [|split]].
      * right. apply Himp.
        -- intros f i row H. now apply validateCostRow_inl in H.
        -- intros f i msg H. split;
             [now apply validateCostRow_inr in H
             | now apply validateCostRow_invalid in H].
      * split.
        -- intros (_ & Htotal & _). cbn in Htotal. discriminate Htotal.
        -- intros [H | H]; [cbn in H; lia | contradiction].
      * cbn. lia.
      * cbn [ParseResult.data]. intros row Hrow.
        destruct (Hdata row Hrow) as [[] | [i [f [_ Hv]]]].
        now apply validateCostRow_inl in Hv.
    + split; [left; now repeat split|].
      split; [split; [intros _; right; discriminate | intros _; now repeat split]|].
      split; [cbn; lia | intros row []].
Qed.

Lemma parseCostMasterCsv_accounts_witness :
  imported validCostRow
    (readCostRow sampleParseFloat
       (fst (mapHeaders CostMasterField.eqb (hd [] (parseCsvLines sampleCostCsv))
               COST_MASTER_HEADERS COST_REQUIRED)))
    (parseCsvLines sampleCostCsv)
    (parseCostMasterCsv sampleParseFloat sampleCostCsv).
Proof.
  destruct (parseCostMasterCsv_accounts sampleParseFloat sampleCostCsv
              ltac:(reflexivity)) as ([Hrefused | Himported] & _).
  - destruct Hrefused as [_ [Htotal _]]. vm_compute in Htotal.
    discriminate Htotal.
  - exact Himported.
Defined.

(* ================================================================== *)
(** ** CSV: a file worked through *)
(* ================================================================== *)

Example parseCsvLines_sample :
  parseCsvLines sampleCsv
  = [ ["Date"; "Departure"; "Arrival"; "Ton Type"; "Cargo Type"; "Fare"];
      ["2024-01-15"; "Seoul/Gangnam"; "Busan/Haeundae"; "11t"; "General";
       "850,000"];
      ["2024-01-16"; "Seoul/Gangnam"; EmptyString; "11t"; "General"; "5"] ].
Proof. vm_compute. reflexivity. Qed.

Example parseMarketDataCsv_sample :
  parseMarketDataCsv sampleParseFloat (fun _ => true) sampleCsv
  = ParseResult.mk
      [ MarketDataRow.mk (Some "2024-01-15") (Some "Seoul/Gangnam")
          (Some "Busan/Haeundae") (Some "11t") (Some "General") (Some 850000) ]
      [ "Row 3: Missing origin or destination" ]
      2.
Proof. vm_compute. reflexivity. Qed.

Example parseCostMasterCsv_sample :
  parseCostMasterCsv sampleParseFloat sampleCostCsv
  = ParseResult.mk
      [ CostMasterRow.mk (Some "Variable") (Some "fuel_price") (Some 5) (Some "KRW/L")
          (Some "Diesel") ]
      [ "Row 3: Invalid value" ]
      2.
Proof. vm_compute. reflexivity. Qed.
